(** * Loggy: the log parser of [src/utils/logParser.ts], embedded in Rocq

    The development follows the TypeScript source function by function:
    [LOG_PATTERNS], [parseTimestamp], [parseJsonLog], [detectLogLevel],
    [extractFirstJsonObject], [coerceLevel] and [parseLogFile].  What the
    source takes from the language, [String.prototype.trim], regular
    expressions, [JSON.parse] and the conversion [String(v)], is written
    out here after the language definition.

    Modelling conventions.
    - A JavaScript string is a [str], a list of characters.  Text is taken
      in its UTF-8 encoding; every character the source tests for
      (digits, letters, brackets, braces, quotes, the newline) is ASCII,
      so those tests are exact on the encoding.  Case conversion and
      white space are the ASCII ones: a white space or a line separator
      outside ASCII counts as an ordinary character, and indices count
      the characters of the encoding.
    - [undefined] is [None]; a property that may be missing is an
      [option].
    - A JavaScript exception is the [Throw] result of the [result] monad;
      [try ... catch] is [catch].  A function that cannot throw is a
      plain function.
    - What the source obtains from the engine and the clock, the
      arithmetic of numbers, [Date] and the current time, is an
      operation of the class [Host].  The theorems hold for every host;
      [RefHost] is a host to compute with.  One run reads one clock. *)

From Stdlib Require Import Ascii String List Arith Bool ZArith Lia.
From Stdlib Require Import DecimalString Sorted.
From Stdlib Require DecimalNat Finite.
Import ListNotations.

Set Implicit Arguments.
Set Warnings "-register-all".

(* ================================================================== *)
(** ** Strings *)

Definition str := list ascii.

(** [lit "..."] is the string with the characters written. *)
Definition lit (s : string) : str := list_ascii_of_string s.

(** The double quote cannot be written inside a literal of this file;
    [js "..."] is the string in which every apostrophe stands for one. *)
Definition dquote : ascii := ascii_of_nat 34.
Definition js (s : string) : str :=
  map (fun c => if Ascii.eqb c "'"%char then dquote else c) (lit s).

Definition code (c : ascii) : nat := nat_of_ascii c.

Definition in_range (lo hi : nat) (c : ascii) : bool :=
  (lo <=? code c) && (code c <=? hi).

Definition isDigit (c : ascii) : bool := in_range 48 57 c.
Definition isUpper (c : ascii) : bool := in_range 65 90 c.
Definition isLower (c : ascii) : bool := in_range 97 122 c.

(** The ASCII white space of [String.prototype.trim] and of the class
    [\s]: tab, line feed, vertical tab, form feed, carriage return,
    space.  The white space that the engine knows outside ASCII (the
    no-break space, the byte order mark, the spaces of Unicode and its
    two separators) is not white space here: the model is the source
    on texts without it. *)
Definition isSpace (c : ascii) : bool :=
  in_range 9 13 c || (code c =? 32).

(** [\w] *)
Definition isWord (c : ascii) : bool :=
  isDigit c || isUpper c || isLower c || (code c =? 95).

Definition newline : ascii := ascii_of_nat 10.
Definition isNewline (c : ascii) : bool := code c =? 10.

(** [toUpperCase] and [toLowerCase] on one character: the ASCII
    letters change case, every other character is left as it is.  The
    engine maps some characters outside ASCII to other characters or
    to several; the model is the source on texts of ASCII
    characters. *)
Definition upperChar (c : ascii) : ascii :=
  if isLower c then ascii_of_nat (code c - 32) else c.
Definition lowerChar (c : ascii) : ascii :=
  if isUpper c then ascii_of_nat (code c + 32) else c.

Definition toUpperCase (s : str) : str := map upperChar s.
Definition toLowerCase (s : str) : str := map lowerChar s.

Fixpoint str_eqb (a b : str) : bool :=
  match a, b with
  | [], [] => true
  | x :: a', y :: b' => Ascii.eqb x y && str_eqb a' b'
  | _, _ => false
  end.

Fixpoint startsWith (s p : str) : bool :=
  match p, s with
  | [], _ => true
  | x :: p', y :: s' => Ascii.eqb x y && startsWith s' p'
  | _ :: _, [] => false
  end.

(** [s.includes(p)] *)
Fixpoint includes (s p : str) : bool :=
  startsWith s p ||
  match s with
  | [] => false
  | _ :: s' => includes s' p
  end.

(** [s.indexOf(c)] for a one-character needle; [None] is [-1]. *)
Fixpoint indexOf (s : str) (c : ascii) : option nat :=
  match s with
  | [] => None
  | x :: s' => if Ascii.eqb x c then Some 0
               else option_map S (indexOf s' c)
  end.

(** [s.slice(a, b)] and [s.slice(a)] for indices within the string. *)
Definition slice (s : str) (a b : nat) : str := firstn (b - a) (skipn a s).
Definition sliceFrom (s : str) (a : nat) : str := skipn a s.

Fixpoint trimStart (s : str) : str :=
  match s with
  | [] => []
  | c :: s' => if isSpace c then trimStart s' else s
  end.

Definition trimEnd (s : str) : str := rev (trimStart (rev s)).

Definition trim (s : str) : str := trimEnd (trimStart s).

(** [content.split(newline)]: never empty, the empty string gives one
    empty line. *)
Fixpoint split_lines (s : str) : list str :=
  match s with
  | [] => [[]]
  | c :: s' =>
      if isNewline c then [] :: split_lines s'
      else match split_lines s' with
           | l :: ls => (c :: l) :: ls
           | [] => [[c]]
           end
  end.

(** [parts.join(sep)] *)
Fixpoint join (sep : str) (parts : list str) : str :=
  match parts with
  | [] => []
  | [p] => p
  | p :: ps => p ++ sep ++ join sep ps
  end.

(** A string is truthy when it is not empty. *)
Definition nonEmpty (s : str) : bool :=
  match s with [] => false | _ :: _ => true end.

(** Decimal numeral of a natural number, as a template literal prints it. *)
Definition decimal (n : nat) : str :=
  lit (NilZero.string_of_uint (Nat.to_uint n)).

(* ================================================================== *)
(** ** Exceptions *)

Inductive exn : Type := TypeError | SyntaxError.

Inductive result (A : Type) : Type :=
| Ok (a : A)
| Throw (e : exn).
Arguments Ok {A} a.
Arguments Throw {A} e.

Definition bind {A B : Type} (m : result A) (f : A -> result B) : result B :=
  match m with
  | Ok a => f a
  | Throw e => Throw e
  end.

Notation "x <- m ;; k" := (bind m (fun x => k))
  (at level 61, m at next level, right associativity).

(** [try { m } catch { h }] *)
Definition catch {A : Type} (m : result A) (h : A) : A :=
  match m with
  | Ok a => a
  | Throw _ => h
  end.

(* ================================================================== *)
(** ** Regular expressions

    The fragment of JavaScript regular expressions the source uses:
    character classes, sequence, capturing groups, greedy quantifiers
    and the anchors [^] and [$] (no flag is set, so they stand for the
    two ends of the input).  Matching is the backtracking matcher of
    the language definition, written with continuations. *)

Inductive cset : Type :=
| Dot                       (* .     any character but line feed and
                                     carriage return, the line
                                     terminators of ASCII *)
| Digit                     (* \d *)
| Space                     (* \s *)
| NotSpace                  (* \S *)
| Word                      (* \w *)
| Range (lo hi : ascii)     (* [lo-hi] *)
| Lit (c : ascii)           (* the character itself *)
| NoneOf (c : ascii).       (* [^c] *)

Definition cset_mem (cs : cset) (c : ascii) : bool :=
  match cs with
  | Dot => negb ((code c =? 10) || (code c =? 13))
  | Digit => isDigit c
  | Space => isSpace c
  | NotSpace => negb (isSpace c)
  | Word => isWord c
  | Range lo hi => in_range (code lo) (code hi) c
  | Lit x => Ascii.eqb c x
  | NoneOf x => negb (Ascii.eqb c x)
  end.

Inductive regex : Type :=
| Eps
| Chr (cs : cset)
| Seq (r1 r2 : regex)
| Group (i : nat) (r : regex)                  (* the i-th ( ... ) *)
| Quant (lo : nat) (hi : option nat) (r : regex) (* greedy r{lo,hi} *)
| Bol                                          (* ^ *)
| Eol.                                         (* $ *)

(** A matcher state: the characters consumed so far (last one first),
    the characters still to read, and the captures made. *)
Record mstate : Type := MState {
  seen : str;
  rest : str;
  caps : list (nat * str)
}.

(** The text read between state [a] and the later state [b]. *)
Definition captured (a b : mstate) : str :=
  rev (firstn (length (seen b) - length (seen a)) (seen b)).

Definition set_cap (i : nat) (s : str) (st : mstate) : mstate :=
  MState (seen st) (rest st) ((i, s) :: caps st).

Fixpoint assoc_nat (i : nat) (l : list (nat * str)) : option str :=
  match l with
  | [] => None
  | (j, s) :: l' => if Nat.eqb i j then Some s else assoc_nat i l'
  end.

(** How many more rounds a greedy quantifier may try after its [lo]
    compulsory ones: every such round must consume a character. *)
Definition rounds (lo : nat) (hi : option nat) (st : mstate) : nat :=
  match hi with
  | Some h => Nat.min (h - lo) (length (rest st))
  | None => length (rest st)
  end.

Definition cont := mstate -> option mstate.

(** [n] compulsory rounds of the matcher [once]. *)
Fixpoint must (once : mstate -> cont -> option mstate) (n : nat)
  (st : mstate) (k : cont) : option mstate :=
  match n with
  | 0 => k st
  | S n' => once st (fun st' => must once n' st' k)
  end.

(** At most [n] further rounds, as many as possible first; a round that
    reads nothing is not taken. *)
Fixpoint more (once : mstate -> cont -> option mstate) (n : nat)
  (st : mstate) (k : cont) : option mstate :=
  match n with
  | 0 => k st
  | S n' =>
      match once st (fun st' =>
              if length (rest st') <? length (rest st)
              then more once n' st' k else None) with
      | Some res => Some res
      | None => k st
      end
  end.

Fixpoint rmatch (r : regex) (st : mstate) (k : cont) {struct r}
  : option mstate :=
  match r with
  | Eps => k st
  | Chr cs =>
      match rest st with
      | c :: t =>
          if cset_mem cs c then k (MState (c :: seen st) t (caps st))
          else None
      | [] => None
      end
  | Seq a b => rmatch a st (fun st' => rmatch b st' k)
  | Group i a =>
      rmatch a st (fun st' => k (set_cap i (captured st st') st'))
  | Quant lo hi a =>
      must (rmatch a) lo st
        (fun st1 => more (rmatch a) (rounds lo hi st1) st1 k)
  | Bol => match seen st with [] => k st | _ :: _ => None end
  | Eol => match rest st with [] => k st | _ :: _ => None end
  end.

(** One attempt at the position that splits the input into [pre] and
    [post]; group 0 is the whole match. *)
Definition match_at (r : regex) (pre_rev post : str) : option mstate :=
  rmatch (Group 0 r) (MState pre_rev post []) (fun st => Some st).

(** [regex.exec(s)]: the first position, from the left, with a match. *)
Fixpoint exec_from (r : regex) (pre_rev post : str) : option mstate :=
  match match_at r pre_rev post with
  | Some st => Some st
  | None =>
      match post with
      | [] => None
      | c :: post' => exec_from r (c :: pre_rev) post'
      end
  end.

Definition exec (r : regex) (s : str) : option mstate := exec_from r [] s.

(** [match[i]]; [None] is [undefined]. *)
Definition group (m : mstate) (i : nat) : option str := assoc_nat i (caps m).

(** [regex.test(s)] *)
Definition test (r : regex) (s : str) : bool :=
  match exec r s with Some _ => true | None => false end.

(** Shorthands for writing the patterns. *)
Fixpoint seq (rs : list regex) : regex :=
  match rs with
  | [] => Eps
  | [r] => r
  | r :: rs' => Seq r (seq rs')
  end.

Definition ch (s : string) : regex :=
  seq (map (fun c => Chr (Lit c)) (lit s)).
Definition times (n : nat) (r : regex) : regex := Quant n (Some n) r.
Definition opt (r : regex) : regex := Quant 0 (Some 1) r.
Definition star (r : regex) : regex := Quant 0 None r.
Definition plus (r : regex) : regex := Quant 1 None r.
Definition d (n : nat) : regex := times n (Chr Digit).
Definition rng (lo hi : string) : cset :=
  match lit lo, lit hi with
  | a :: _, b :: _ => Range a b
  | _, _ => Dot
  end.
Definition none_of (c : string) : cset :=
  match lit c with a :: _ => NoneOf a | [] => Dot end.
Definition quote : regex := Chr (Lit dquote).

(** [\d{2}:\d{2}:\d{2}] and [(?:\.\d{3})?], shared by several patterns. *)
Definition hms : regex := seq [d 2; ch ":"; d 2; ch ":"; d 2].
Definition millis : regex := opt (Seq (ch ".") (d 3)).

(* ================================================================== *)
(** ** LOG_PATTERNS *)

Record groups : Type := Groups {
  g_timestamp : option nat;
  g_level : option nat;
  g_message : option nat;
  g_source : option nat;
  g_thread : option nat
}.

Record pattern : Type := Pattern {
  name : str;
  regex_of : regex;
  groups_of : groups
}.

(** The pattern of each entry is quoted token by token (the blanks are
    layout only), and an apostrophe stands for a double quote.

    ISO with level:
    ^ ( \d{4} - \d{2} - \d{2} T \d{2} : \d{2} : \d{2} (?: \. \d{3} )? Z? )
      \s* \[? ( [A-Z]+ ) \]? \s* ( .* ) $ *)
Definition re_iso : regex :=
  seq [Bol;
       Group 1 (seq [d 4; ch "-"; d 2; ch "-"; d 2; ch "T"; hms; millis;
                     opt (ch "Z")]);
       star (Chr Space); opt (ch "[");
       Group 2 (plus (Chr (rng "A" "Z")));
       opt (ch "]"); star (Chr Space);
       Group 3 (star (Chr Dot)); Eol].

(** Standard format:
    ^ ( \d{4} - \d{2} - \d{2} \s+ \d{2} : \d{2} : \d{2} (?: \. \d{3} )? )
      \s+ ( [A-Z]+ ) \s+ ( .* ) $ *)
Definition re_standard : regex :=
  seq [Bol;
       Group 1 (seq [d 4; ch "-"; d 2; ch "-"; d 2; plus (Chr Space); hms;
                     millis]);
       plus (Chr Space);
       Group 2 (plus (Chr (rng "A" "Z")));
       plus (Chr Space);
       Group 3 (star (Chr Dot)); Eol].

(** Syslog format:
    ^ ( [A-Z] [a-z]{2} \s+ \d{1,2} \s+ \d{2} : \d{2} : \d{2} )
      \s+ ( \w+ ) \s+ ( [^:]+ ) : \s* ( .* ) $ *)
Definition re_syslog : regex :=
  seq [Bol;
       Group 1 (seq [Chr (rng "A" "Z"); times 2 (Chr (rng "a" "z"));
                     plus (Chr Space); Quant 1 (Some 2) (Chr Digit);
                     plus (Chr Space); hms]);
       plus (Chr Space);
       Group 2 (plus (Chr Word));
       plus (Chr Space);
       Group 3 (plus (Chr (none_of ":")));
       ch ":"; star (Chr Space);
       Group 4 (star (Chr Dot)); Eol].

(** Apache access (not anchored at the end):
    ^ ( \S+ ) \s+ \S+ \s+ \S+ \s+ \[ ( [^\]]+ ) \] \s+ ' ( [^']* ) '? \s+
      ( \d+ ) \s+ ( \S+ ) (?: \s+ ' ( [^']* ) ' )? (?: \s+ ' ( [^']* ) ' )? *)
Definition re_apache : regex :=
  seq [Bol;
       Group 1 (plus (Chr NotSpace));
       plus (Chr Space); plus (Chr NotSpace);
       plus (Chr Space); plus (Chr NotSpace);
       plus (Chr Space); ch "[";
       Group 2 (plus (Chr (none_of "]")));
       ch "]"; plus (Chr Space); quote;
       Group 3 (star (Chr (NoneOf dquote)));
       opt quote; plus (Chr Space);
       Group 4 (plus (Chr Digit));
       plus (Chr Space);
       Group 5 (plus (Chr NotSpace));
       opt (seq [plus (Chr Space); quote;
                 Group 6 (star (Chr (NoneOf dquote))); quote]);
       opt (seq [plus (Chr Space); quote;
                 Group 7 (star (Chr (NoneOf dquote))); quote])].

(** JSON format:   ^ ( \{ .* \} ) $ *)
Definition re_json : regex :=
  seq [Bol; Group 1 (seq [ch "{"; star (Chr Dot); ch "}"]); Eol].

(** Simple timestamp:
    ^ \[ ( \d{2} : \d{2} : \d{2} (?: \. \d{3} )? ) \] \s* ( .* ) $ *)
Definition re_simple : regex :=
  seq [Bol; ch "["; Group 1 (Seq hms millis); ch "]"; star (Chr Space);
       Group 2 (star (Chr Dot)); Eol].

Definition LOG_PATTERNS : list pattern :=
  [ Pattern (lit "ISO with level") re_iso
      (Groups (Some 1) (Some 2) (Some 3) None None);
    Pattern (lit "Standard format") re_standard
      (Groups (Some 1) (Some 2) (Some 3) None None);
    Pattern (lit "Syslog format") re_syslog
      (Groups (Some 1) None (Some 4) (Some 2) (Some 3));
    Pattern (lit "Apache access") re_apache
      (Groups (Some 2) (Some 4) (Some 3) (Some 1) None);
    Pattern (lit "JSON format") re_json
      (Groups None None (Some 1) None None);
    Pattern (lit "Simple timestamp") re_simple
      (Groups (Some 1) None (Some 2) None None) ].


(* ================================================================== *)
(** ** The host: numbers, dates and the clock

    [Date_parse] is [new Date(s).getTime()] for a string [s] and
    [Date_ofNumber] is [new Date(n).getTime()] for a number [n]; [None]
    is the time value [NaN] of an invalid date.  The clock is read by
    [new Date()], of which the source takes the calendar year and the
    ISO rendering. *)

Class Host : Type := {
  number : Type;
  number_of_literal : str -> number;   (* the value of a JSON numeral *)
  number_truthy : number -> bool;      (* neither zero nor NaN *)
  number_toString : number -> str;     (* String(n) *)
  Date_ofNumber : number -> option Z;
  Date_parse : str -> option Z;
  now_getFullYear : nat;               (* new Date().getFullYear() *)
  now_toISOString : str                (* new Date().toISOString() *)
}.

Section Parser.

Context {H : Host}.

(* ================================================================== *)
(** ** JSON values *)

Inductive json : Type :=
| JNull
| JBool (b : bool)
| JNum (n : number)
| JStr (s : str)
| JArr (l : list json)
| JObj (l : list (str * json)).

(** Own properties of an object, in order of creation. *)
Definition members := list (str * json).

Fixpoint assoc (k : str) (m : members) : option json :=
  match m with
  | [] => None
  | (k', v) :: m' => if str_eqb k k' then Some v else assoc k m'
  end.

(** Defining a property that exists keeps its place and replaces its
    value. *)
Fixpoint obj_set (k : str) (v : json) (m : members) : members :=
  match m with
  | [] => [(k, v)]
  | (k', v') :: m' =>
      if str_eqb k k' then (k', v) :: m' else (k', v') :: obj_set k v m'
  end.

(* ------------------------------------------------------------------ *)
(** *** JSON.parse: the lexer *)

Inductive token : Type :=
| TLBrace | TRBrace | TLBrack | TRBrack | TColon | TComma
| TString (s : str)
| TNumber (l : str)
| TWord (w : str).

(** A character of a string literal: written as it is, or the code unit
    of a [\uXXXX] escape. *)
Inductive item : Type :=
| Raw (c : ascii)
| Unit (n : N).

Definition byte (n : N) : ascii := ascii_of_N n.

(** UTF-8 encoding of a code point. *)
Definition utf8 (n : N) : str :=
  (if n <? 128 then [byte n]
   else if n <? 2048 then [byte (192 + n / 64); byte (128 + n mod 64)]
   else if n <? 65536 then
     [byte (224 + n / 4096); byte (128 + (n / 64) mod 64);
      byte (128 + n mod 64)]
   else
     [byte (240 + n / 262144); byte (128 + (n / 4096) mod 64);
      byte (128 + (n / 64) mod 64); byte (128 + n mod 64)])%N.

Definition isHighSurrogate (n : N) : bool :=
  ((55296 <=? n) && (n <=? 56319))%N.
Definition isLowSurrogate (n : N) : bool :=
  ((56320 <=? n) && (n <=? 57343))%N.

Fixpoint encode (l : list item) : str :=
  match l with
  | [] => []
  | Raw c :: l' => c :: encode l'
  | Unit hi :: l' =>
      match l' with
      | Unit lo :: l'' =>
          if isHighSurrogate hi && isLowSurrogate lo
          then utf8 (65536 + (hi - 55296) * 1024 + (lo - 56320))%N
               ++ encode l''
          else utf8 hi ++ encode l'
      | _ => utf8 hi ++ encode l'
      end
  end.

Definition hexDigit (c : ascii) : option N :=
  if isDigit c then Some (N.of_nat (code c - 48))
  else if in_range 65 70 c then Some (N.of_nat (code c - 55))
  else if in_range 97 102 c then Some (N.of_nat (code c - 87))
  else None.

Inductive lmode : Type :=
| LMain
| LStr (acc : list item)                 (* inside a string literal *)
| LEsc (acc : list item)                 (* after a backslash *)
| LHex (acc : list item) (n : N) (k : nat) (* after \u and k hex digits *)
| LNum (acc : str)                       (* inside a numeral *)
| LWord (acc : str).                     (* inside true, false or null *)

Definition isJsonSpace (c : ascii) : bool :=
  (code c =? 32) || (code c =? 9) || (code c =? 10) || (code c =? 13).

(** Characters a numeral is made of. *)
Definition isNumChar (c : ascii) : bool :=
  isDigit c || (code c =? 45) || (code c =? 43) || (code c =? 46)
  || (code c =? 101) || (code c =? 69).

Definition punct (c : ascii) : option token :=
  if code c =? 123 then Some TLBrace
  else if code c =? 125 then Some TRBrace
  else if code c =? 91 then Some TLBrack
  else if code c =? 93 then Some TRBrack
  else if code c =? 58 then Some TColon
  else if code c =? 44 then Some TComma
  else None.

(** A character read between two tokens. *)
Definition lex_main (c : ascii) : option (list token * lmode) :=
  if isJsonSpace c then Some ([], LMain)
  else match punct c with
       | Some t => Some ([t], LMain)
       | None =>
           if code c =? 34 then Some ([], LStr [])
           else if isDigit c || (code c =? 45) then Some ([], LNum [c])
           else if isLower c then Some ([], LWord [c])
           else None
       end.

(** The one-letter escapes: quote, backslash, slash, b, f, n, r, t. *)
Definition escape (c : ascii) : option N :=
  if code c =? 34 then Some 34%N
  else if code c =? 92 then Some 92%N
  else if code c =? 47 then Some 47%N
  else if code c =? 98 then Some 8%N
  else if code c =? 102 then Some 12%N
  else if code c =? 110 then Some 10%N
  else if code c =? 114 then Some 13%N
  else if code c =? 116 then Some 9%N
  else None.

Definition emit (t : token) (r : option (list token * lmode))
  : option (list token * lmode) :=
  match r with
  | Some (ts, m) => Some (t :: ts, m)
  | None => None
  end.

Definition lex_step (m : lmode) (c : ascii) : option (list token * lmode) :=
  match m with
  | LMain => lex_main c
  | LStr acc =>
      if code c =? 34 then Some ([TString (encode (rev acc))], LMain)
      else if code c =? 92 then Some ([], LEsc acc)
      else if code c <? 32 then None
      else Some ([], LStr (Raw c :: acc))
  | LEsc acc =>
      if code c =? 117 then Some ([], LHex acc 0%N 0)
      else match escape c with
           | Some n => Some ([], LStr (Raw (byte n) :: acc))
           | None => None
           end
  | LHex acc n k =>
      match hexDigit c with
      | Some h =>
          if k =? 3 then Some ([], LStr (Unit (16 * n + h)%N :: acc))
          else Some ([], LHex acc (16 * n + h)%N (S k))
      | None => None
      end
  | LNum acc =>
      if isNumChar c then Some ([], LNum (c :: acc))
      else emit (TNumber (rev acc)) (lex_main c)
  | LWord acc =>
      if isLower c then Some ([], LWord (c :: acc))
      else emit (TWord (rev acc)) (lex_main c)
  end.

Fixpoint lex (m : lmode) (s : str) : option (list token) :=
  match s with
  | [] =>
      match m with
      | LMain => Some []
      | LNum acc => Some [TNumber (rev acc)]
      | LWord acc => Some [TWord (rev acc)]
      | _ => None
      end
  | c :: s' =>
      match lex_step m c with
      | Some (ts, m') => option_map (app ts) (lex m' s')
      | None => None
      end
  end.

(** The grammar of numerals:
    an optional minus, [0] or a digit from 1 to 9 and digits, an optional
    fraction, an optional exponent. *)
Fixpoint dropDigits (s : str) : str :=
  match s with
  | c :: s' => if isDigit c then dropDigits s' else s
  | [] => []
  end.

Definition digits1 (s : str) : option str :=
  match s with
  | c :: s' => if isDigit c then Some (dropDigits s') else None
  | [] => None
  end.

Definition validExp (s : str) : bool :=
  match s with
  | [] => true
  | e :: s' =>
      if (code e =? 101) || (code e =? 69) then
        let s'' := match s' with
                   | sg :: t =>
                       if (code sg =? 43) || (code sg =? 45) then t else s'
                   | [] => s'
                   end in
        match digits1 s'' with
        | Some [] => true
        | _ => false
        end
      else false
  end.

Definition validFrac (s : str) : bool :=
  match s with
  | c :: s' =>
      if code c =? 46 then
        match digits1 s' with
        | Some r => validExp r
        | None => false
        end
      else validExp s
  | [] => true
  end.

Definition validNumber (s : str) : bool :=
  let s1 := match s with
            | c :: t => if code c =? 45 then t else s
            | [] => s
            end in
  match s1 with
  | c :: t =>
      if code c =? 48 then validFrac t
      else if isDigit c then validFrac (dropDigits t)
      else false
  | [] => false
  end.

(* ------------------------------------------------------------------ *)
(** *** JSON.parse: the parser, a stack machine over the tokens *)

(** A container under construction: the elements read so far (last one
    first), or the members read so far and the key awaiting its value. *)
Inductive frame : Type :=
| FArr (acc : list json)
| FObj (acc : members) (key : str).

Inductive pstate : Type :=
| PValue (stk : list frame)                    (* a value must follow *)
| PFirstElem (stk : list frame)                (* after [ *)
| PArrNext (acc : list json) (stk : list frame)  (* after an element *)
| PFirstKey (stk : list frame)                 (* after { *)
| PKey (acc : members) (stk : list frame)      (* after , in an object *)
| PColon (acc : members) (key : str) (stk : list frame)
| PObjNext (acc : members) (stk : list frame)  (* after a member *)
| PDone (v : json).

(** A value is complete: it goes into the container on top of the
    stack. *)
Definition reduce (v : json) (stk : list frame) : pstate :=
  match stk with
  | [] => PDone v
  | FArr acc :: stk' => PArrNext (v :: acc) stk'
  | FObj acc k :: stk' => PObjNext (obj_set k v acc) stk'
  end.

Definition word_value (w : str) : option json :=
  if str_eqb w (lit "true") then Some (JBool true)
  else if str_eqb w (lit "false") then Some (JBool false)
  else if str_eqb w (lit "null") then Some JNull
  else None.

Definition start_value (t : token) (stk : list frame) : option pstate :=
  match t with
  | TString s => Some (reduce (JStr s) stk)
  | TNumber l =>
      if validNumber l then Some (reduce (JNum (number_of_literal l)) stk)
      else None
  | TWord w =>
      match word_value w with
      | Some v => Some (reduce v stk)
      | None => None
      end
  | TLBrace => Some (PFirstKey stk)
  | TLBrack => Some (PFirstElem stk)
  | _ => None
  end.

Definition pstep (st : pstate) (t : token) : option pstate :=
  match st with
  | PValue stk => start_value t stk
  | PFirstElem stk =>
      match t with
      | TRBrack => Some (reduce (JArr []) stk)
      | _ => start_value t (FArr [] :: stk)
      end
  | PArrNext acc stk =>
      match t with
      | TComma => Some (PValue (FArr acc :: stk))
      | TRBrack => Some (reduce (JArr (rev acc)) stk)
      | _ => None
      end
  | PFirstKey stk =>
      match t with
      | TRBrace => Some (reduce (JObj []) stk)
      | TString k => Some (PColon [] k stk)
      | _ => None
      end
  | PKey acc stk =>
      match t with
      | TString k => Some (PColon acc k stk)
      | _ => None
      end
  | PColon acc k stk =>
      match t with
      | TColon => Some (PValue (FObj acc k :: stk))
      | _ => None
      end
  | PObjNext acc stk =>
      match t with
      | TComma => Some (PKey acc stk)
      | TRBrace => Some (reduce (JObj acc) stk)
      | _ => None
      end
  | PDone _ => None
  end.

Fixpoint prun (st : pstate) (ts : list token) : option json :=
  match ts with
  | [] => match st with PDone v => Some v | _ => None end
  | t :: ts' =>
      match pstep st t with
      | Some st' => prun st' ts'
      | None => None
      end
  end.

(** [JSON.parse(s)]; [None] stands for the [SyntaxError] it throws. *)
Definition JSON_parse (s : str) : option json :=
  match lex LMain s with
  | Some ts => prun (PValue []) ts
  | None => None
  end.

(* ================================================================== *)
(** ** JavaScript values *)

(** [undefined] is [None]. *)
Definition value := option json.

Definition truthy (v : json) : bool :=
  match v with
  | JNull => false
  | JBool b => b
  | JNum n => number_truthy n
  | JStr s => nonEmpty s
  | JArr _ | JObj _ => true
  end.

Definition truthy_opt (v : value) : bool :=
  match v with
  | Some x => truthy x
  | None => false
  end.

(** [v[k]] for the keys the source reads, none of which is a property of
    a prototype: reading a property of [null] throws, a primitive or an
    array has none of them, an object has its own. *)
Definition get (v : json) (k : string) : result value :=
  match v with
  | JNull => Throw TypeError
  | JObj m => Ok (assoc (lit k) m)
  | _ => Ok None
  end.

(** [String(v)].  An array joins its elements with commas, [null]
    elements being empty.  An object prints as [[object Object]] unless
    it has a property [toString] of its own: a value read from JSON is
    not a function, and then the conversion throws. *)
Fixpoint toStr (v : json) : result str :=
  match v with
  | JNull => Ok (lit "null")
  | JBool b => Ok (if b then lit "true" else lit "false")
  | JNum n => Ok (number_toString n)
  | JStr s => Ok s
  | JArr l =>
      parts <- (fix elems (l : list json) : result (list str) :=
                  match l with
                  | [] => Ok []
                  | x :: l' =>
                      s <- match x with
                           | JNull => Ok []
                           | _ => toStr x
                           end ;;
                      r <- elems l' ;;
                      Ok (s :: r)
                  end) l ;;
      Ok (join (lit ",") parts)
  | JObj m =>
      match assoc (lit "toString") m with
      | Some _ => Throw TypeError
      | None => Ok (lit "[object Object]")
      end
  end.

Definition String_ (v : value) : result str :=
  match v with
  | Some x => toStr x
  | None => Ok (lit "undefined")
  end.

(** [a || b]; [b] is evaluated only when [a] is falsy. *)
Definition or_ (a b : result value) : result value :=
  x <- a ;; if truthy_opt x then Ok x else b.

(* ================================================================== *)
(** ** parseTimestamp *)

(** [new Date(v).getTime()]: a string is parsed, a number or a boolean
    is the time value, an array or an object is first converted to a
    string. *)
Definition newDate (v : json) : result (option Z) :=
  match v with
  | JStr s => Ok (Date_parse s)
  | JNum n => Ok (Date_ofNumber n)
  | JBool b => Ok (Some (if b then 1%Z else 0%Z))
  | JNull => Ok (Some 0%Z)
  | JArr _ | JObj _ => s <- toStr v ;; Ok (Date_parse s)
  end.

(** ( \d{2} ) \/ ( [A-Z] [a-z]{2} ) \/ ( \d{4} ) : *)
Definition re_apache_date : regex :=
  seq [Group 1 (d 2); ch "/";
       Group 2 (Seq (Chr (rng "A" "Z")) (times 2 (Chr (rng "a" "z"))));
       ch "/"; Group 3 (d 4); ch ":"].

Definition groupOr (m : mstate) (i : nat) : str :=
  match group m i with Some s => s | None => [] end.

(** [ts.replace(re_apache_date, "$3-$2-$1 ")]: the first match, if any,
    gives way to year, month and day in this order. *)
Definition replace_apache_date (ts : str) : str :=
  match exec re_apache_date ts with
  | None => ts
  | Some m =>
      firstn (length (seen m) - length (groupOr m 0)) ts
      ++ groupOr m 3 ++ lit "-" ++ groupOr m 2 ++ lit "-" ++ groupOr m 1
      ++ lit " " ++ rest m
  end.

(** [s.split("T")[0]] *)
Fixpoint beforeT (s : str) : str :=
  match s with
  | [] => []
  | c :: s' => if code c =? 84 then [] else c :: beforeT s'
  end.

(** ^ \d{2} : \d{2} : \d{2} *)
Definition re_time_only : regex := Seq Bol hms.

(** The five interpreters, in the order tried.  [Ok None] is a result
    that is [null] or an invalid date. *)
Definition formats : list (json -> result (option Z)) :=
  [ (* ISO format *)
    (fun ts => newDate ts);
    (* Standard format *)
    (fun ts => newDate ts);
    (* Syslog format (add current year) *)
    (fun ts =>
       let currentYear := now_getFullYear in
       s <- toStr ts ;;
       newDate (JStr (decimal currentYear ++ lit " " ++ s)));
    (* Apache format *)
    (fun ts =>
       match ts with
       | JStr s => newDate (JStr (replace_apache_date s))
       | _ => Throw TypeError
       end);
    (* Time only (add current date) *)
    (fun ts =>
       s <- toStr ts ;;
       if test re_time_only s then
         let today := beforeT now_toISOString in
         newDate (JStr (today ++ lit "T" ++ s))
       else Ok None) ].

Fixpoint try_formats (fs : list (json -> result (option Z))) (ts : json)
  : option Z :=
  match fs with
  | [] => None
  | format :: fs' =>
      match catch (format ts) None with
      | Some date => Some date
      | None => try_formats fs' ts
      end
  end.

Definition parseTimestamp (timestampStr : value) : option Z :=
  if negb (truthy_opt timestampStr) then None
  else match timestampStr with
       | Some ts => try_formats formats ts
       | None => None
       end.

(* ================================================================== *)
(** ** LogEntry and ParsedLog *)

Record LogEntry : Type := Entry {
  id : str;
  timestamp : option Z;
  level : option str;
  message : option str;
  rawLine : str;
  lineNumber : nat;
  source : option str;
  thread : option str;
  metadata : value
}.

Record ParsedLog : Type := Parsed {
  entries : list LogEntry;
  totalLines : nat;
  filename : str;
  detectedFormat : str
}.

(** A string field is truthy when it is there and not empty. *)
Definition present (o : option str) : bool :=
  match o with
  | Some s => nonEmpty s
  | None => false
  end.

Definition isSome {A : Type} (o : option A) : bool :=
  match o with Some _ => true | None => false end.

(* ================================================================== *)
(** ** parseJsonLog *)

(** The helper [pick] of [buildSummary], and of the enrichment below:
    the first value among [keys] that is neither [undefined] nor
    [null]. *)
Fixpoint pick (obj : json) (keys : list string) : result value :=
  match keys with
  | [] => Ok None
  | k :: keys' =>
      v <- get obj k ;;
      match v with
      | None | Some JNull => pick obj keys'
      | Some _ => Ok v
      end
  end.

(** [if (v) parts.push(String(v))] *)
Definition push_if (v : value) : result (list str) :=
  if truthy_opt v then s <- String_ v ;; Ok [s] else Ok [].

Definition bullet : str := lit " • ".
Definition dash : str := lit " — ".

Definition buildSummary (obj : json) : result str :=
  moduleName <- pick obj ["module"; "service"; "source"; "logger"]%string ;;
  feature <- pick obj ["feature"; "action"; "event"; "endpoint"]%string ;;
  type <- pick obj ["type"; "category"]%string ;;
  status <- pick obj ["status"; "statusCode"; "code"]%string ;;
  msg <- pick obj ["message"; "msg"; "text"]%string ;;
  p1 <- push_if moduleName ;;
  p2 <- push_if feature ;;
  p3 <- (if truthy_opt type then
           differs <- (if negb (truthy_opt msg) then Ok true
                       else a <- String_ type ;;
                            b <- String_ msg ;;
                            Ok (negb (str_eqb (toLowerCase a)
                                              (toLowerCase b)))) ;;
           if (differs : bool) then s <- String_ type ;; Ok [s] else Ok []
         else Ok []) ;;
  p4 <- push_if status ;;
  let parts := p1 ++ p2 ++ p3 ++ p4 in
  let head := join bullet (filter nonEmpty parts) in
  if truthy_opt msg && nonEmpty head then
    m <- String_ msg ;; Ok (head ++ dash ++ m)
  else if nonEmpty head then Ok head
  else if truthy_opt msg then String_ msg
  else Ok (lit "Log entry").

Definition lineId (lineNumber : nat) : str :=
  lit "line-" ++ decimal lineNumber.

(** [typeof v === "string" ? v : undefined] *)
Definition ifString (v : value) : option str :=
  match v with
  | Some (JStr s) => Some s
  | _ => None
  end.

(** [json.level?.toUpperCase()]: absent for [undefined] and [null], the
    upper-cased text for a string; no other value has the method, and
    the call throws. *)
Definition levelOf (json : json) : result (option str) :=
  lv <- get json "level" ;;
  match lv with
  | None | Some JNull => Ok None
  | Some (JStr s) => Ok (Some (toUpperCase s))
  | Some _ => Throw TypeError
  end.

(** The body of [parseJsonLog] after [JSON.parse]: the entry built from
    the parsed value. *)
Definition jsonEntry (json : json) (line : str) (lineNumber : nat)
  : result LogEntry :=
  (* Handle different timestamp field names *)
  timestamp <- or_ (or_ (or_ (get json "timestamp") (get json "@timestamp"))
                        (get json "time"))
                   (get json "ts") ;;
  summaryMessage <- buildSummary json ;;
  level <- levelOf json ;;
  src <- or_ (or_ (or_ (get json "source") (get json "logger"))
                  (get json "module"))
             (get json "service") ;;
  thr <- or_ (or_ (get json "thread") (get json "process"))
             (get json "correlationId") ;;
  Ok {| id := lineId lineNumber;
        timestamp := if truthy_opt timestamp
                     then parseTimestamp timestamp else None;
        level := level;
        message := Some (if nonEmpty summaryMessage then summaryMessage
                         else lit "Log entry");
        rawLine := line;
        lineNumber := lineNumber;
        source := ifString src;
        thread := ifString thr;
        metadata := Some json |}.

(** Whatever is thrown between [try] and [catch], by [JSON.parse] or
    while the entry is built, makes the result [null]. *)
Definition parseJsonLog (line : str) (lineNumber : nat) : option LogEntry :=
  catch
    (match JSON_parse line with
     | None => Throw SyntaxError
     | Some json =>
         entry <- jsonEntry json line lineNumber ;; Ok (Some entry)
     end)
    None.

(* ================================================================== *)
(** ** detectLogLevel *)

Definition levels : list str :=
  [lit "FATAL"; lit "ERROR"; lit "WARN"; lit "INFO"; lit "DEBUG";
   lit "TRACE"].

Definition detectLogLevel (text : str) : option str :=
  let upperText := toUpperCase text in
  find (fun level => nonEmpty level && includes upperText level) levels.

(* ================================================================== *)
(** ** parseLogFile *)

(** The scan of [extractFirstJsonObject] from the first opening brace:
    [i] is the index of the head of [s] in the text; the result is the
    index of the brace that brings the depth back to zero. *)
Fixpoint scan (s : str) (i : nat) (inString escape : bool) (depth : Z)
  : option nat :=
  match s with
  | [] => None
  | ch :: s' =>
      if inString then
        if escape then scan s' (S i) true false depth
        else if code ch =? 92 then scan s' (S i) true true depth
        else if code ch =? 34 then scan s' (S i) false escape depth
        else scan s' (S i) true escape depth
      else if code ch =? 34 then scan s' (S i) true escape depth
      else
        let depth1 := if code ch =? 123 then (depth + 1)%Z else depth in
        if code ch =? 125 then
          let depth2 := (depth1 - 1)%Z in
          if (depth2 =? 0)%Z then Some i
          else scan s' (S i) inString escape depth2
        else scan s' (S i) inString escape depth1
  end.

Record extraction : Type := Extraction_ {
  ex_json : json;
  ex_start : nat;
  ex_end : nat
}.

Definition extractFirstJsonObject (text : option str) : option extraction :=
  if negb (present text) then None
  else
    match text with
    | None => None
    | Some text =>
        match indexOf text "{"%char with
        | None => None
        | Some startIdx =>
            match scan (skipn startIdx text) startIdx false false 0%Z with
            | None => None
            | Some i =>
                let candidate := slice text startIdx (i + 1) in
                match JSON_parse candidate with
                | Some json => Some (Extraction_ json startIdx i)
                | None => None
                end
            end
        end
    end.

Definition coerceLevel (val : value) : result (option str) :=
  if negb (truthy_opt val) then Ok None
  else
    s0 <- String_ val ;;
    let s := toUpperCase s0 in
    let allowed := levels in
    Ok (if existsb (str_eqb s) allowed then Some s else None).

(** The summary that the enrichment derives from an embedded object. *)
Definition derive (json : json) : result (option str) :=
  messageVal <- pick json ["message"; "msg"; "text"]%string ;;
  summary <- (if truthy_opt messageVal
              then s <- String_ messageVal ;; Ok (Some s)
              else Ok None) ;;
  moduleName <- pick json ["module"; "service"; "source"; "logger"]%string ;;
  feature <- pick json ["feature"; "action"; "event"; "endpoint"]%string ;;
  type <- pick json ["type"; "category"]%string ;;
  status <- pick json ["status"; "statusCode"; "code"]%string ;;
  p1 <- push_if moduleName ;;
  p2 <- push_if feature ;;
  p3 <- (if truthy_opt type then
           differs <- (match summary with
                       | Some sm =>
                           if nonEmpty sm then
                             a <- String_ type ;;
                             Ok (negb (str_eqb (toLowerCase a)
                                               (toLowerCase sm)))
                           else Ok true
                       | None => Ok true
                       end) ;;
           if (differs : bool) then s <- String_ type ;; Ok [s] else Ok []
         else Ok []) ;;
  p4 <- push_if status ;;
  let headParts := p1 ++ p2 ++ p3 ++ p4 in
  let head := join bullet (filter nonEmpty headParts) in
  match summary with
  | Some sm =>
      if nonEmpty sm && nonEmpty head then Ok (Some (head ++ dash ++ sm))
      else if nonEmpty head then Ok (Some head) else Ok summary
  | None => if nonEmpty head then Ok (Some head) else Ok summary
  end.

Definition messageText (entry : LogEntry) : str :=
  match message entry with Some s => s | None => [] end.

(** The body of [if (extracted) { ... }]. *)
Definition applyExtracted (entry : LogEntry) (extracted : extraction)
  : result LogEntry :=
  let json := ex_json extracted in
  (* Backfill timestamp/level/source/thread from JSON when missing *)
  timestamp' <-
    (if negb (isSome (timestamp entry)) then
       ts <- pick json ["timestamp"; "@timestamp"; "time"; "ts"]%string ;;
       match ts with
       | Some (JStr _) | Some (JNum _) =>
           s <- String_ ts ;; Ok (parseTimestamp (Some (JStr s)))
       | _ => Ok (timestamp entry)
       end
     else Ok (timestamp entry)) ;;
  level' <-
    (if negb (present (level entry)) then
       v <- pick json ["level"; "severity"; "lvl"]%string ;;
       lvl <- coerceLevel v ;;
       Ok (if present lvl then lvl else level entry)
     else Ok (level entry)) ;;
  source' <-
    (if negb (present (source entry)) then
       src <- pick json ["source"; "logger"; "module"; "service"]%string ;;
       Ok (match src with
           | Some (JStr s) => Some s
           | _ => source entry
           end)
     else Ok (source entry)) ;;
  thread' <-
    (if negb (present (thread entry)) then
       thr <- pick json ["thread"; "process"; "correlationId"]%string ;;
       Ok (match thr with
           | Some (JStr s) => Some s
           | _ => thread entry
           end)
     else Ok (thread entry)) ;;
  (* Derive a cleaner message reusing the same summary rules *)
  derived <- derive json ;;
  let message' :=
    if present derived then derived
    else
      (* If there's non-JSON prefix/suffix text, keep that as message *)
      let before := trim (slice (messageText entry) 0 (ex_start extracted)) in
      let after := trim (sliceFrom (messageText entry)
                                   (ex_end extracted + 1)) in
      Some (if nonEmpty before then before
            else if nonEmpty after then after
            else lit "Log entry") in
  Ok {| id := id entry;
        timestamp := timestamp';
        level := level';
        message := message';
        rawLine := rawLine entry;
        lineNumber := lineNumber entry;
        source := source';
        thread := thread';
        metadata := Some json |}.

(** If message contains an embedded JSON object, parse and enrich
    entry. *)
Definition enrich (entry : LogEntry) : result LogEntry :=
  if negb (truthy_opt (metadata entry)) then
    match extractFirstJsonObject (message entry) with
    | Some extracted => applyExtracted entry extracted
    | None => Ok entry
    end
  else Ok entry.

(** [match[g]] for a group named in [groups], [undefined] otherwise. *)
Definition field (m : mstate) (g : option nat) : option str :=
  match g with
  | Some i => group m i
  | None => None
  end.

(** The entry built from the match [m] of a pattern. *)
Definition patternEntry (groups : groups) (m : mstate) (line : str)
  (lineNumber : nat) : LogEntry :=
  {| id := lineId lineNumber;
     timestamp := match g_timestamp groups with
                  | Some i => parseTimestamp (option_map JStr (group m i))
                  | None => None
                  end;
     level := match g_level groups with
              | Some i => option_map toUpperCase (group m i)
              | None => detectLogLevel line
              end;
     message := match g_message groups with
                | Some i => group m i
                | None => Some line
                end;
     rawLine := line;
     lineNumber := lineNumber;
     source := field m (g_source groups);
     thread := field m (g_thread groups);
     metadata := None |}.

(** [for (const pattern of LOG_PATTERNS)]: the first pattern that
    matches gives the entry and the format. *)
Fixpoint tryPatterns (ps : list pattern) (line : str) (lineNumber : nat)
  : option (LogEntry * str) :=
  match ps with
  | [] => None
  | pattern :: ps' =>
      match exec (regex_of pattern) line with
      | Some m =>
          Some (patternEntry (groups_of pattern) m line lineNumber,
                name pattern)
      | None => tryPatterns ps' line lineNumber
      end
  end.

(** Fallback: treat as plain text. *)
Definition plainEntry (line : str) (lineNumber : nat) : LogEntry :=
  {| id := lineId lineNumber;
     timestamp := None;
     level := detectLogLevel line;
     message := Some line;
     rawLine := line;
     lineNumber := lineNumber;
     source := None;
     thread := None;
     metadata := None |}.

(** The entry of a non-blank trimmed line before enrichment, and the
    value of [detectedFormat] after it. *)
Definition classify (line : str) (lineNumber : nat) : LogEntry * str :=
  (* Try JSON parsing first *)
  let entry := if startsWith line (lit "{")
               then parseJsonLog line lineNumber else None in
  match entry with
  | Some e => (e, lit "JSON format")
  | None =>
      (* Try pattern matching *)
      match tryPatterns LOG_PATTERNS line lineNumber with
      | Some r => r
      | None => (plainEntry line lineNumber, lit "Plain text")
      end
  end.

(** One round of the loop over the lines; the state is [entries] and
    [detectedFormat]. *)
Fixpoint loop (lines : list str) (i : nat) (entries : list LogEntry)
  (detectedFormat : str) : result (list LogEntry * str) :=
  match lines with
  | [] => Ok (entries, detectedFormat)
  | l :: lines' =>
      let line := trim l in
      if negb (nonEmpty line) then loop lines' (S i) entries detectedFormat
      else
        let lineNumber := i + 1 in
        let (entry0, detectedFormat') := classify line lineNumber in
        entry <- enrich entry0 ;;
        loop lines' (S i) (entries ++ [entry]) detectedFormat'
  end.

Definition parseLogFile (content filename : str) : result ParsedLog :=
  let lines := split_lines content in
  r <- loop lines 0 [] (lit "Unknown") ;;
  Ok {| entries := fst r;
        totalLines := length lines;
        filename := filename;
        detectedFormat := snd r |}.

End Parser.

Arguments json : clear implicits.
Arguments json {H}.

(* ================================================================== *)
(** ** A reference host

    Numbers are the exact values of the numerals, [m * 10^e] with [m]
    not a multiple of ten; they print as the language definition
    prescribes for a number of that value.  [Date_parse] accepts the
    date-time format of the language definition,
    [YYYY-MM-DDTHH:mm:ss.sssZ] and its shorter forms, and nothing else;
    the local time zone is UTC.  The clock stands at noon of the second
    of November 2026.  An engine reads more forms of dates than this
    host and rounds its numbers to doubles: what is computed with
    [RefHost] is what the source does on this host, and a timestamp
    computed with it is the one of this host. *)

Module Ref.

Open Scope Z_scope.

Definition digitVal (c : ascii) : Z := Z.of_nat (code c) - 48.

Fixpoint digitsValue (acc : Z) (s : str) : Z :=
  match s with
  | c :: s' => if isDigit c then digitsValue (10 * acc + digitVal c) s'
               else acc
  | [] => acc
  end.

Fixpoint takeDigits (s : str) : str :=
  match s with
  | c :: s' => if isDigit c then c :: takeDigits s' else []
  | [] => []
  end.

(** [m * 10^e] without the trailing zeros of [m]; [fuel] bounds their
    number. *)
Fixpoint normalize (fuel : nat) (m e : Z) : Z * Z :=
  match fuel with
  | O => (m, e)
  | S f =>
      if m =? 0 then (0, 0)
      else if m mod 10 =? 0 then normalize f (m / 10) (e + 1)
      else (m, e)
  end.

Definition num : Type := Z * Z.

Definition num_of_literal (l : str) : num :=
  let (neg, s) := match l with
                  | c :: t => if (code c =? 45)%nat then (true, t)
                              else (false, l)
                  | [] => (false, l)
                  end in
  let ip := takeDigits s in
  let s1 := dropDigits s in
  let (fp, s2) := match s1 with
                  | c :: t => if (code c =? 46)%nat
                              then (takeDigits t, dropDigits t)
                              else ([], s1)
                  | [] => ([], s1)
                  end in
  let ex := match s2 with
            | _ :: c :: t =>
                if (code c =? 45)%nat then - digitsValue 0 t
                else if (code c =? 43)%nat then digitsValue 0 t
                else digitsValue 0 (c :: t)
            | _ => 0
            end in
  let m := digitsValue 0 (ip ++ fp) in
  normalize (length (ip ++ fp)) (if neg then - m else m)
            (ex - Z.of_nat (length fp)).

Definition num_truthy (n : num) : bool := negb (fst n =? 0).

Definition zeros (k : Z) : str := repeat "0"%char (Z.to_nat k).

Definition decimalZ (z : Z) : str :=
  lit (NilZero.string_of_uint (N.to_uint (Z.to_N z))).

(** Number::toString: [k] digits, the decimal point after the [n]-th. *)
Definition num_toString (x : num) : str :=
  let (m, e) := x in
  if m =? 0 then lit "0"
  else
    let sign := if m <? 0 then lit "-" else [] in
    let ds := decimalZ (Z.abs m) in
    let k := Z.of_nat (length ds) in
    let n := k + e in
    sign ++
    (if (k <=? n) && (n <=? 21) then ds ++ zeros (n - k)
     else if (0 <? n) && (n <=? 21) then
       firstn (Z.to_nat n) ds ++ lit "." ++ skipn (Z.to_nat n) ds
     else if (-6 <? n) && (n <=? 0) then lit "0." ++ zeros (- n) ++ ds
     else
       let ex := n - 1 in
       let exs := (if ex <? 0 then lit "-" else lit "+")
                  ++ decimalZ (Z.abs ex) in
       match ds with
       | [c] => [c] ++ lit "e" ++ exs
       | c :: cs => [c] ++ lit "." ++ cs ++ lit "e" ++ exs
       | [] => []
       end).

(** The time value of the number: its integral part, if within the
    range of time values. *)
Definition ofNumber (x : num) : option Z :=
  let (m, e) := x in
  let t := if 0 <=? e then m * 10 ^ e else Z.quot m (10 ^ (- e)) in
  if Z.abs t <=? 8640000000000000 then Some t else None.

(** [n] digits at the head of [s]. *)
Fixpoint number_n (n : nat) (acc : Z) (s : str) : option (Z * str) :=
  match n with
  | O => Some (acc, s)
  | S n' =>
      match s with
      | c :: s' => if isDigit c then number_n n' (10 * acc + digitVal c) s'
                   else None
      | [] => None
      end
  end.

Definition isLeap (y : Z) : bool :=
  ((y mod 4 =? 0) && negb (y mod 100 =? 0)) || (y mod 400 =? 0).

Definition daysInMonth (y m : Z) : Z :=
  if m =? 2 then (if isLeap y then 29 else 28)
  else if (m =? 4) || (m =? 6) || (m =? 9) || (m =? 11) then 30
  else 31.

(** Days from the first of January 1970 to the given day. *)
Definition daysFromCivil (y m d : Z) : Z :=
  let y' := if m <=? 2 then y - 1 else y in
  let era := y' / 400 in
  let yoe := y' - era * 400 in
  let mp := if 2 <? m then m - 3 else m + 9 in
  let doy := (153 * mp + 2) / 5 + d - 1 in
  let doe := yoe * 365 + yoe / 4 - yoe / 100 + doy in
  era * 146097 + doe - 719468.

Definition makeTime (y mo d h mi s ms off : Z) : option Z :=
  if (1 <=? mo) && (mo <=? 12) && (1 <=? d) && (d <=? daysInMonth y mo)
     && ((h <=? 23) || ((h =? 24) && (mi =? 0) && (s =? 0) && (ms =? 0)))
     && (mi <=? 59) && (s <=? 59)
  then Some ((((daysFromCivil y mo d * 24 + h) * 60 + mi - off) * 60 + s)
             * 1000 + ms)
  else None.

(** The time zone: nothing (local time), [Z], or a signed [HH:mm];
    the result is the offset in minutes. *)
Definition parseZone (s : str) : option Z :=
  match s with
  | [] => Some 0
  | c :: t =>
      if (code c =? 90)%nat then
        match t with [] => Some 0 | _ :: _ => None end
      else if (code c =? 43)%nat || (code c =? 45)%nat then
        match number_n 2 0 t with
        | Some (hh, c2 :: t2) =>
            if (code c2 =? 58)%nat then
              match number_n 2 0 t2 with
              | Some (mm, []) =>
                  if (hh <=? 23) && (mm <=? 59) then
                    Some (if (code c =? 43)%nat then hh * 60 + mm
                          else - (hh * 60 + mm))
                  else None
              | _ => None
              end
            else None
        | _ => None
        end
      else None
  end.

(** The time of day after the letter T: [HH:mm], [HH:mm:ss] or
    [HH:mm:ss.sss], and the zone. *)
Definition parseTime (y mo d : Z) (s : str) : option Z :=
  match number_n 2 0 s with
  | Some (h, c :: s1) =>
      if (code c =? 58)%nat then
        match number_n 2 0 s1 with
        | Some (mi, s2) =>
            let finish sec ms s' :=
              match parseZone s' with
              | Some off => makeTime y mo d h mi sec ms off
              | None => None
              end in
            match s2 with
            | c2 :: s3 =>
                if (code c2 =? 58)%nat then
                  match number_n 2 0 s3 with
                  | Some (sec, s4) =>
                      match s4 with
                      | c3 :: s5 =>
                          if (code c3 =? 46)%nat then
                            match number_n 3 0 s5 with
                            | Some (ms, s6) => finish sec ms s6
                            | None => None
                            end
                          else finish sec 0 s4
                      | [] => finish sec 0 s4
                      end
                  | None => None
                  end
                else finish 0 0 s2
            | [] => finish 0 0 s2
            end
        | None => None
        end
      else None
  | _ => None
  end.

(** After a date: the end of the text, or T and a time of day. *)
Definition parseRest (y mo d : Z) (s : str) : option Z :=
  match s with
  | [] => makeTime y mo d 0 0 0 0 0
  | c :: t => if (code c =? 84)%nat then parseTime y mo d t else None
  end.

Definition parseDate (s : str) : option Z :=
  match number_n 4 0 s with
  | Some (y, s1) =>
      match s1 with
      | c :: s2 =>
          if (code c =? 45)%nat then
            match number_n 2 0 s2 with
            | Some (mo, s3) =>
                match s3 with
                | c2 :: s4 =>
                    if (code c2 =? 45)%nat then
                      match number_n 2 0 s4 with
                      | Some (d, s5) => parseRest y mo d s5
                      | None => None
                      end
                    else parseRest y mo 1 s3
                | [] => parseRest y mo 1 s3
                end
            | None => None
            end
          else parseRest y 1 1 s1
      | [] => parseRest y 1 1 s1
      end
  | None => None
  end.

End Ref.

Definition RefHost : Host :=
  {| number := Ref.num;
     number_of_literal := Ref.num_of_literal;
     number_truthy := Ref.num_truthy;
     number_toString := Ref.num_toString;
     Date_ofNumber := Ref.ofNumber;
     Date_parse := Ref.parseDate;
     now_getFullYear := 2026;
     now_toISOString := lit "2026-11-02T12:00:00.000Z" |}.

(* ================================================================== *)
(** ** The runs of the loop, as a relation

    [produced lines i es f f'] holds when the loop, started at index [i]
    on [lines] with format [f], adds the entries [es] and ends with
    format [f']. *)

Section Runs.

Context {H : Host}.

Inductive produced
  : list str -> nat -> list LogEntry -> str -> str -> Prop :=
| produced_end : forall i f,
    produced [] i [] f f
| produced_blank : forall l ls i es f f',
    nonEmpty (trim l) = false ->
    produced ls (S i) es f f' ->
    produced (l :: ls) i es f f'
| produced_line : forall l ls i e0 e es f f1 f',
    nonEmpty (trim l) = true ->
    classify (trim l) (i + 1) = (e0, f1) ->
    enrich e0 = Ok e ->
    produced ls (S i) es f1 f' ->
    produced (l :: ls) i (e :: es) f f'.

(** The entry [e] renumbered as the entry of line [n]. *)
Definition renumber (n : nat) (e : LogEntry) : LogEntry :=
  {| id := lineId n;
     timestamp := timestamp e;
     level := level e;
     message := message e;
     rawLine := rawLine e;
     lineNumber := n;
     source := source e;
     thread := thread e;
     metadata := metadata e |}.

(** The names [detectedFormat] can take once a line is classified. *)
Definition formatNames : list str :=
  lit "JSON format" :: lit "Plain text" :: map name LOG_PATTERNS.

(** The 1-based positions of the non-blank lines, counted from [i]. *)
Fixpoint nonBlankNumbers (lines : list str) (i : nat) : list nat :=
  match lines with
  | [] => []
  | l :: ls =>
      if nonEmpty (trim l) then (i + 1) :: nonBlankNumbers ls (S i)
      else nonBlankNumbers ls (S i)
  end.

Definition isBlank (l : str) : bool := negb (nonEmpty (trim l)).

Definition blankLineCount (lines : list str) : nat :=
  length (filter isBlank lines).

End Runs.

(* ================================================================== *)
(** ** SimpleLogViewer: the filters, the counts and the export

    The parts of the component that compute on the records: the
    predicate of [filteredEntries], the object of [levelCounts] and the
    text that [exportLogs] puts into the file. *)

Record LogFilters : Type := Filters {
  f_search : str;
  f_level : str;
  f_dateFrom : str;
  f_dateTo : str;
  f_module : str;
  f_feature : str;
  f_user : str
}.

(** The filters of the initial state, which [clearFilters] sets again. *)
Definition clearFilters : LogFilters :=
  Filters [] (lit "all") [] [] (lit "all") (lit "all") (lit "all").

(** [Array.prototype.filter] with a callback that may throw. *)
Fixpoint filterM {A : Type} (f : A -> result bool) (l : list A)
  : result (list A) :=
  match l with
  | [] => Ok []
  | x :: l' =>
      b <- f x ;;
      r <- filterM f l' ;;
      Ok (if (b : bool) then x :: r else r)
  end.

Section Viewer.

Context {H : Host}.

(** [toDate.setHours(23, 59, 59, 999)]: the time value of the last
    millisecond of the local day of a time value. *)
Variable setHours_endOfDay : Z -> Z.

(** [entry.metadata?.[k]]: a property of the object; [null], an
    array or a primitive has none of the keys read. *)
Definition metaField (entry : LogEntry) (k : string) : value :=
  match metadata entry with
  | Some (JObj m) => assoc (lit k) m
  | _ => None
  end.

(** [v !== s] for a string [s]. *)
Definition isNot (v : value) (s : str) : bool :=
  match v with
  | Some (JStr t) => negb (str_eqb t s)
  | _ => true
  end.

(** The callback of [entries.filter] in [filteredEntries]. *)
Definition keeps (filters : LogFilters) (entry : LogEntry) : result bool :=
  (* Search filter *)
  found <- (if nonEmpty (f_search filters) then
              match message entry with
              | Some m =>
                  Ok (includes (toLowerCase m)
                               (toLowerCase (f_search filters)))
              | None => Throw TypeError
              end
            else Ok true) ;;
  if negb found then Ok false
  (* Level filter *)
  else if negb (str_eqb (f_level filters) (lit "all"))
          && isNot (option_map JStr (level entry)) (f_level filters)
  then Ok false
  (* Module filter *)
  else if negb (str_eqb (f_module filters) (lit "all"))
          && isNot (metaField entry "module") (f_module filters)
  then Ok false
  (* Feature filter *)
  else if negb (str_eqb (f_feature filters) (lit "all"))
          && isNot (metaField entry "feature") (f_feature filters)
  then Ok false
  (* User filter *)
  else if negb (str_eqb (f_user filters) (lit "all"))
          && isNot (metaField entry "user.login") (f_user filters)
  then Ok false
  (* Date filters *)
  else if nonEmpty (f_dateFrom filters)
          && match timestamp entry, Date_parse (f_dateFrom filters) with
             | Some t, Some fromDate => (t <? fromDate)%Z
             | _, _ => false
             end
  then Ok false
  else if nonEmpty (f_dateTo filters)
          && match timestamp entry, Date_parse (f_dateTo filters) with
             | Some t, Some toDate => (setHours_endOfDay toDate <? t)%Z
             | _, _ => false
             end
  then Ok false
  else Ok true.

Definition filteredEntries (entries : list LogEntry) (filters : LogFilters)
  : result (list LogEntry) :=
  filterM (keeps filters) entries.

(** The object [counts], its properties in order of creation. *)
Definition counts0 (total : nat) : list (str * nat) :=
  [(lit "total", total); (lit "ERROR", 0); (lit "WARN", 0); (lit "INFO", 0);
   (lit "DEBUG", 0); (lit "TRACE", 0); (lit "FATAL", 0)].

(** [Object.prototype.hasOwnProperty.call(counts, k)] *)
Definition hasOwnProperty (counts : list (str * nat)) (k : str) : bool :=
  existsb (fun p => str_eqb (fst p) k) counts.

(** [counts[k]++] for a property that is there. *)
Definition increment (k : str) (counts : list (str * nat))
  : list (str * nat) :=
  map (fun p => if str_eqb (fst p) k then (fst p, S (snd p)) else p) counts.

(** [counts[k]]; a property that is not there reads as zero here. *)
Fixpoint count (k : str) (counts : list (str * nat)) : nat :=
  match counts with
  | [] => 0
  | (k', n) :: counts' => if str_eqb k' k then n else count k counts'
  end.

Definition levelCounts (entries : list LogEntry) : list (str * nat) :=
  fold_left
    (fun counts entry =>
       match level entry with
       | Some l =>
           if nonEmpty l && hasOwnProperty counts l
           then increment l counts else counts
       | None => counts
       end)
    entries (counts0 (length entries)).

(** The content of the file that [exportLogs] offers. *)
Definition exportLogs (filteredEntries : list LogEntry) : str :=
  join [newline] (map rawLine filteredEntries).

End Viewer.

(* ================================================================== *)
(** ** LogUpload and App: loading a file

    [handleFile] of LogUpload with [handleFileLoaded] of App as its
    [onFileLoaded].  The state is what the call can change in the two
    components, [parsedLog] of App and [selectedFile] and [isLoading]
    of LogUpload, with the alerts raised so far; the state after the
    call is the one when the promise of [handleFile] settles.  The
    text of the file is [None] when [file.text()] rejects, which the
    [catch] treats as any exception thrown by the parser.  What is
    written to the console is left out. *)

Record File : Type := MkFile {
  file_type : str;
  file_name : str;
  file_text : option str
}.

Definition endsWith (s p : str) : bool := startsWith (rev s) (rev p).

Section Upload.

Context {H : Host}.

Record AppState : Type := MkState {
  parsedLog : option ParsedLog;
  selectedFile : option File;
  isLoading : bool;
  alerts : list str
}.

Definition handleFile (file : File) (st : AppState) : AppState :=
  if negb (includes (file_type file) (lit "text"))
     && negb (endsWith (file_name file) (lit ".log"))
  then
    {| parsedLog := parsedLog st;
       selectedFile := selectedFile st;
       isLoading := isLoading st;
       alerts := alerts st ++ [lit "Please select a text or log file"] |}
  else
    (* try { ... } catch { ... } finally { setIsLoading(false) } *)
    match (match file_text file with
           | Some content => parseLogFile content (file_name file)
           | None => Throw TypeError
           end) with
    | Ok parsed =>
        {| parsedLog := Some parsed;
           selectedFile := Some file;
           isLoading := false;
           alerts := alerts st |}
    | Throw _ =>
        {| parsedLog := parsedLog st;
           selectedFile := Some file;
           isLoading := false;
           alerts := alerts st ++ [lit "Error reading file"] |}
    end.

End Upload.

(* ================================================================== *)
(** ** Vocabulary of the statements *)

(** A string that does not begin with white space. *)
Definition clean (s : str) : Prop :=
  match s with
  | [] => True
  | c :: _ => isSpace c = false
  end.

Definition noNewline (s : str) : Prop :=
  forall c, In c s -> isNewline c = false.

(** The least number of characters a match of [r] reads. *)
Fixpoint min_len (r : regex) : nat :=
  match r with
  | Eps | Bol | Eol => 0
  | Chr _ => 1
  | Seq a b => min_len a + min_len b
  | Group _ a => min_len a
  | Quant lo _ a => lo * min_len a
  end.

(** The numbers of the groups of [r]. *)
Fixpoint ids (r : regex) : list nat :=
  match r with
  | Eps | Bol | Eol | Chr _ => []
  | Seq a b => ids a ++ ids b
  | Group i a => i :: ids a
  | Quant _ _ a => ids a
  end.

(** Every group numbered [i] in [r] reads at least one character. *)
Fixpoint strict (i : nat) (r : regex) : bool :=
  match r with
  | Eps | Bol | Eol | Chr _ => true
  | Seq a b => strict i a && strict i b
  | Group j a => (if Nat.eqb i j then 1 <=? min_len a else true) && strict i a
  | Quant _ _ a => strict i a
  end.

(** A capture that a match of [r] can make. *)
Definition capOk (r : regex) (p : nat * str) : Prop :=
  In (fst p) (ids r) /\ (strict (fst p) r = true -> snd p <> []).

(** State [st'] comes after [st]: the matcher has read [w] and added the
    captures [new]. *)
Definition link (w : str) (new : list (nat * str)) (st st' : mstate)
  : Prop :=
  seen st' = rev w ++ seen st /\ rest st = w ++ rest st' /\
  caps st' = new ++ caps st.

(** A matcher in continuation style that behaves as a match of [r]:
    it succeeds only through its continuation, called on a state that
    comes after. *)
(** A capture taken from the text [w]. *)
Definition within (w : str) (p : nat * str) : Prop := incl (snd p) w.

Definition sound (r : regex) (once : mstate -> cont -> option mstate)
  : Prop :=
  forall st k res, once st k = Some res ->
    exists st' w new,
      k st' = Some res /\ link w new st st' /\
      min_len r <= length w /\ Forall (capOk r) new /\
      Forall (within w) new.

(** A text without opening brace. *)
Definition noBrace (s : str) : Prop := ~ In "{"%char s.

(** The candidate keys of the four fields that the enrichment
    backfills. *)
Definition timestampKeys : list string :=
  ["timestamp"; "@timestamp"; "time"; "ts"]%string.
Definition levelKeys : list string := ["level"; "severity"; "lvl"]%string.
Definition sourceKeys : list string :=
  ["source"; "logger"; "module"; "service"]%string.
Definition threadKeys : list string :=
  ["thread"; "process"; "correlationId"]%string.

(** Two values have the same properties under the keys [keys]. *)
Definition agree {H : Host} (keys : list string) (j1 j2 : json) : Prop :=
  forall k, In k keys -> get j1 k = get j2 k.


(** A group that a pattern assigns to level, source or thread reads at
    least one character. *)
Definition strictField (p : pattern) (g : option nat) : bool :=
  match g with
  | Some i => strict i (Group 0 (regex_of p))
  | None => true
  end.

Definition strictPattern (p : pattern) : bool :=
  strictField p (g_level (groups_of p)) &&
  strictField p (g_source (groups_of p)) &&
  strictField p (g_thread (groups_of p)).

(** The only record of a result, if it has exactly one. *)
Definition theRecord {H : Host} (r : result ParsedLog) : option LogEntry :=
  match r with
  | Ok p => match entries p with [e] => Some e | _ => None end
  | Throw _ => None
  end.

(** *** Sample inputs *)

Definition sampleName : str := lit "app.log".

(** A full-line object whose level is outside the vocabulary. *)
Definition verboseLine : str := js "{'level':'verbose'}".


(** A line with leading white space. *)
Definition indentedLine : str := lit "  hello".

(** A line whose embedded object names its level under [severity],
    the first letter written as an escape. *)
Definition severityLine : str := js "x {'severity':'\u0065rror'}".

(** A bracketed time and nothing after it. *)
Definition timeOnlyLine : str := lit "[10:30:45]".

(** A line whose embedded object has a [module] that is an object with
    a property [toString]. *)
Definition toStringLine : str := js "x {'module':{'toString':1}}".

(** The same line between two ordinary ones. *)
Definition toStringFile : str :=
  lit "first line" ++ [newline] ++ toStringLine ++ [newline]
  ++ lit "last line".

(** A line with a level of its own and an embedded object. *)
Definition levelledLine : str :=
  js "2024-01-15T10:30:45Z INFO started {'level':'error','thread':'t1'}".

(** Three lines, the second one blank. *)
Definition threeLines : str :=
  lit "  first warn " ++ [newline] ++ lit "   " ++ [newline]
  ++ js "{'level':'info','message':'second'}".

(** Only blank lines. *)
Definition blankLines : str := lit "  " ++ [newline] ++ [newline] ++ lit " ".

(** *** Sample runs on the reference host *)

Definition formatOf {H : Host} (r : result ParsedLog) : option str :=
  match r with
  | Ok p => Some (detectedFormat p)
  | Throw _ => None
  end.

Definition orElse {A : Type} (r : result A) (d : A) : A :=
  match r with
  | Ok a => a
  | Throw _ => d
  end.

Definition isOk {A : Type} (r : result A) : bool :=
  match r with
  | Ok _ => true
  | Throw _ => false
  end.

(** The value is an object with a property [k] of its own. *)
Definition hasOwn {H : Host} (v : value) (k : string) : bool :=
  match v with
  | Some (JObj m) => isSome (assoc (lit k) m)
  | _ => false
  end.

Definition noRun : ParsedLog (H := RefHost) := Parsed [] 0 [] [].

Definition sampleRun : ParsedLog (H := RefHost) :=
  orElse (parseLogFile threeLines sampleName) noRun.

Definition sampleRecord : LogEntry (H := RefHost) :=
  hd (plainEntry [] 0) (entries sampleRun).

Definition levelledEntry : LogEntry (H := RefHost) :=
  fst (classify levelledLine 1).

Definition levelledEnriched : LogEntry (H := RefHost) :=
  orElse (enrich levelledEntry) levelledEntry.

(** An entry without level and two embedded objects: one names a level
    under [severity], the other has no property at all. *)
Definition bareEntry : LogEntry (H := RefHost) := plainEntry (lit "x") 1.

Definition severityObject : json (H := RefHost) :=
  JObj [(lit "severity", JStr (lit "error"))].

Definition emptyObject : json (H := RefHost) := JObj [].

(** Two embedded objects that differ in a key that is no candidate. *)
Definition hostObject (h : string) : json (H := RefHost) :=
  JObj [(lit "lvl", JStr (lit "warn")); (lit "host", JStr (lit h))].

Definition backfilled (j : json (H := RefHost)) : LogEntry (H := RefHost) :=
  orElse (applyExtracted bareEntry (Extraction_ j 0 0)) bareEntry.

(** *** Further vocabulary: the lines and the records of a run *)

(** The number of newline characters of a text. *)
Definition countNewlines (s : str) : nat := length (filter isNewline s).

(** The sample input cut at its last non-blank line. *)
Definition sampleBefore : list str := [lit "  first warn "; lit "   "].
Definition sampleLast : str := js "{'level':'info','message':'second'}".

(** *** Further vocabulary: the level heuristic *)

(** The elements of [ls] that come before [l]. *)
Fixpoint before (l : str) (ls : list str) : list str :=
  match ls with
  | [] => []
  | x :: r => if str_eqb x l then [] else x :: before l r
  end.

(** [p] occurs in [s]. *)
Definition occursIn (p s : str) : Prop := exists a b, s = a ++ p ++ b.

(** The entry of the line with a [severity], before and after the
    enrichment. *)
Definition severityEntry : LogEntry (H := RefHost) :=
  fst (classify severityLine 1).

Definition severityEnriched : LogEntry (H := RefHost) :=
  orElse (enrich severityEntry) severityEntry.

(** *** Further vocabulary: what the groups of a pattern capture *)

(** A character that some class of [r] accepts. *)
Fixpoint chars (r : regex) (c : ascii) : bool :=
  match r with
  | Chr cs => cset_mem cs c
  | Seq a b => chars a c || chars b c
  | Group _ a | Quant _ _ a => chars a c
  | Eps | Bol | Eol => false
  end.

(** A character that some group numbered [i] in [r] can capture. *)
Fixpoint groupChars (i : nat) (r : regex) (c : ascii) : bool :=
  match r with
  | Group j a => (Nat.eqb i j && chars a c) || groupChars i a c
  | Seq a b => groupChars i a c || groupChars i b c
  | Quant _ _ a => groupChars i a c
  | Eps | Bol | Eol | Chr _ => false
  end.

(** Every match of [r] goes through a group numbered [i]. *)
Fixpoint assigns (i : nat) (r : regex) : bool :=
  match r with
  | Group j a => Nat.eqb i j || assigns i a
  | Seq a b => assigns i a || assigns i b
  | Quant lo _ a => (1 <=? lo) && assigns i a
  | Eps | Bol | Eol | Chr _ => false
  end.

(** A capture made of characters that its group can capture. *)
Definition capIn (r : regex) (p : nat * str) : Prop :=
  Forall (fun c => groupChars (fst p) r c = true) (snd p).

(** A matcher that reads only characters of the classes of [r], and
    captures accordingly. *)
Definition sound2 (r : regex) (once : mstate -> cont -> option mstate)
  : Prop :=
  forall st k res, once st k = Some res ->
    exists st' w new,
      k st' = Some res /\ link w new st st' /\
      Forall (fun c => chars r c = true) w /\ Forall (capIn r) new /\
      (forall i, assigns i r = true -> In i (map fst new)).

(** The group that a pattern assigns to a field is always captured. *)
Definition assignedField (p : pattern) (g : option nat) : bool :=
  match g with
  | Some i => assigns i (Group 0 (regex_of p))
  | None => true
  end.

Definition assignedPattern (p : pattern) : bool :=
  assignedField p (g_timestamp (groups_of p)) &&
  assignedField p (g_level (groups_of p)) &&
  assignedField p (g_message (groups_of p)) &&
  assignedField p (g_source (groups_of p)) &&
  assignedField p (g_thread (groups_of p)).

(** An object whose message is an empty array, which is truthy and
    prints as the empty string. *)
Definition emptyMessageObject : json (H := RefHost) :=
  JObj [(lit "module", JStr (lit "m")); (lit "message", JArr [])].

(** The message of an enriched entry when nothing is derived from the
    object: the text before the object, else the text after it, else
    [Log entry]. *)
Definition textAround {H : Host} (entry : LogEntry) (x : extraction) : str :=
  let before := trim (slice (messageText entry) 0 (ex_start x)) in
  let after := trim (sliceFrom (messageText entry) (ex_end x + 1)) in
  if nonEmpty before then before
  else if nonEmpty after then after
  else lit "Log entry".

(** A line with text around an object from which nothing is derived,
    and the object alone on a line. *)
Definition aroundLine : str := js "before {'a':null} after".
Definition aloneLine : str := js "{'a':null}".

Definition aroundRecord : LogEntry (H := RefHost) :=
  hd (plainEntry [] 0)
     (entries (orElse (parseLogFile aroundLine sampleName) noRun)).

Definition aloneRecord : LogEntry (H := RefHost) :=
  hd (plainEntry [] 0)
     (entries (orElse (parseLogFile aloneLine sampleName) noRun)).

(** The parts of an Apache date: two digits, a capital and two small
    letters, four digits. *)
Definition apacheDate (dd mon yyyy : str) : Prop :=
  length dd = 2 /\ Forall (fun c => isDigit c = true) dd /\
  (exists u ll, mon = u :: ll /\ isUpper u = true /\ length ll = 2 /\
                Forall (fun c => isLower c = true) ll) /\
  length yyyy = 4 /\ Forall (fun c => isDigit c = true) yyyy.

(** The text begins with an Apache date, between slashes and before a
    colon. *)
Definition dateAt (s : str) : Prop :=
  exists dd mon yyyy post,
    apacheDate dd mon yyyy /\
    s = dd ++ lit "/" ++ mon ++ lit "/" ++ yyyy ++ lit ":" ++ post.

(** A text with two Apache dates. *)
Definition twoDates : str := lit "at 10/Oct/2000:13:55:36 and 11/Nov/2001:".

(** A text of ASCII characters: on such a text the letter case of the
    model is the one of the engine. *)
Definition isAscii (c : ascii) : bool := code c <? 128.
Definition asciiText (s : str) : Prop := Forall (fun c => isAscii c = true) s.

(** An object whose only candidate for the timestamp is a string. *)
Definition timeObject : json (H := RefHost) :=
  JObj [(lit "time", JStr (lit "2024-01-15T10:30:45Z"))].

Definition timeAlone : LogEntry (H := RefHost) :=
  orElse (jsonEntry timeObject (lit "x") 1) bareEntry.

(** *** Further vocabulary: where a capture stands in the text *)

(** A capture that is a part of the text [w]. *)
Definition part (w : str) (p : nat * str) : Prop := occursIn (snd p) w.

Definition isGroup (i : nat) (r : regex) : bool :=
  match r with Group j _ => Nat.eqb i j | _ => false end.

Definition isEol (r : regex) : bool :=
  match r with Eol => true | _ => false end.

(** The pattern ends with the group numbered [i] and the anchor [$]. *)
Fixpoint tailGroup (i : nat) (r : regex) : bool :=
  match r with
  | Seq a b => tailGroup i b || (isGroup i a && isEol b)
  | _ => false
  end.

(** A matcher whose captures are parts of what it reads, the last group
    before a final [$] reading up to the end of the input. *)
Definition sound3 (r : regex) (once : mstate -> cont -> option mstate)
  : Prop :=
  forall st k res, once st k = Some res ->
    exists st' w new,
      k st' = Some res /\ link w new st st' /\ Forall (part w) new /\
      (forall i, isGroup i r = true -> exists n', new = (i, w) :: n') /\
      (isEol r = true -> w = [] /\ new = [] /\ rest st' = []) /\
      (forall i, tailGroup i r = true ->
         rest st' = [] /\
         exists s a, assoc_nat i new = Some s /\ w = a ++ s).

(** The message group of a pattern is its last group, before [$]. *)
Definition tailMessage (p : pattern) : bool :=
  match g_message (groups_of p) with
  | Some i => negb (Nat.eqb i 0) && tailGroup i (regex_of p)
  | None => true
  end.

(** *** Further vocabulary: the outermost container of the parser *)

Definition isObj {H : Host} (v : json) : bool :=
  match v with JObj _ => true | _ => false end.

Definition isObjFrame {H : Host} (f : frame) : bool :=
  match f with FObj _ _ => true | FArr _ => false end.

(** Whether the outermost open container is an object, [top] telling it
    of the innermost one. *)
Fixpoint outerObj {H : Host} (top : bool) (stk : list frame) : bool :=
  match stk with
  | [] => top
  | f :: stk' => outerObj (isObjFrame f) stk'
  end.

(** A state of the parser inside an outermost object, or done with
    one. *)
Definition inObject {H : Host} (st : pstate) : bool :=
  match st with
  | PValue [] => false
  | PValue (f :: stk) => outerObj (isObjFrame f) stk
  | PFirstElem stk | PArrNext _ stk => outerObj false stk
  | PFirstKey stk | PKey _ stk | PColon _ _ stk | PObjNext _ stk =>
      outerObj true stk
  | PDone v => isObj v
  end.

(** The character at index [i], if any. *)
Definition charAt (s : str) (i : nat) : option ascii := nth_error s i.

Definition orDefault {A : Type} (o : option A) (d : A) : A :=
  match o with Some a => a | None => d end.

(** A line with two objects amid text, the first with a closing brace
    inside a string literal, and what is cut out of it. *)
Definition embeddedLine : str := js "got {'a':{'b':'}'}} and {'c':1}".

Definition sampleExtraction : extraction (H := RefHost) :=
  orDefault (extractFirstJsonObject (Some embeddedLine))
            (Extraction_ JNull 0 0).

(** *** Further vocabulary: the keys whose values the enrichment prints *)

Definition printedKeys : list string :=
  ["level"; "severity"; "lvl";
   "message"; "msg"; "text";
   "module"; "service"; "source"; "logger";
   "feature"; "action"; "event"; "endpoint";
   "type"; "category";
   "status"; "statusCode"; "code"]%string.

(** *** Further vocabulary: line ends *)

Definition cr : ascii := ascii_of_nat 13.

(** Two lines that end as files from Windows do, and the same lines
    without the carriage returns. *)
Definition crlfLines : str :=
  lit "  first warn " ++ [cr; newline] ++ lit "second".
Definition lfLines : str :=
  lit "  first warn " ++ [newline] ++ lit "second".

(** *** Further vocabulary: the choice among candidate keys *)

(** [obj[k1] || obj[k2] || ...], as [parseJsonLog] chooses among the
    candidate keys. *)
Fixpoint orChain {H : Host} (obj : json) (keys : list string)
  : result value :=
  match keys with
  | [] => Ok None
  | [k] => get obj k
  | k :: keys' => or_ (get obj k) (orChain obj keys')
  end.

(** No candidate is there and falsy: each is absent, [null] or
    truthy. *)
Definition noFalsyCandidate {H : Host} (obj : json) (keys : list string)
  : Prop :=
  forall k v, In k keys -> get obj k = Ok (Some v) ->
              v = JNull \/ truthy v = true.

(** An object whose first candidate for the source is the empty
    string. *)
Definition emptySourceObject {H : Host} : json :=
  JObj [(lit "source", JStr []); (lit "logger", JStr (lit "app"))].

(** An object whose only candidate for the source is its logger. *)
Definition loggerObject : json (H := RefHost) :=
  JObj [(lit "logger", JStr (lit "app"))].

Definition loggerEntry : LogEntry (H := RefHost) :=
  orElse (jsonEntry loggerObject (lit "x") 1) bareEntry.

Definition syslogLine : str := lit "Dec  1 10:30:45 web01 sshd[42]: closed".

Definition syslogEntry : LogEntry (H := RefHost) :=
  fst (classify syslogLine 1).

(** A key without value in an object: absent, or there with the value
    [null]. *)
Definition unset {H : Host} (m : members) (k : string) : Prop :=
  assoc (lit k) m = None \/ assoc (lit k) m = Some JNull.

(** A line in braces that is not JSON and holds an object. *)
Definition bracedObjectLine : str :=
  js "{'level':'error','message':'boom'} }".

Definition bracedObjectEntry : LogEntry (H := RefHost) :=
  fst (classify bracedObjectLine 1).

Definition bracedObjectEnriched : LogEntry (H := RefHost) :=
  orElse (enrich bracedObjectEntry) bracedObjectEntry.

Definition bracedObjectRun : ParsedLog (H := RefHost) :=
  orElse (parseLogFile bracedObjectLine sampleName) noRun.

Definition bracedObjectRecord : LogEntry (H := RefHost) :=
  hd (plainEntry [] 0) (entries bracedObjectRun).

(** *** Further vocabulary: the viewer *)

(** The entry has the level [l]. *)
Definition levelIs {H : Host} (l : str) (e : LogEntry) : bool :=
  match level e with
  | Some l' => str_eqb l' l
  | None => false
  end.

(** The filters with another search text. *)
Definition withSearch (s : str) (filters : LogFilters) : LogFilters :=
  Filters s (f_level filters) (f_dateFrom filters) (f_dateTo filters)
          (f_module filters) (f_feature filters) (f_user filters).

(** The filters with other date bounds. *)
Definition withDates (a b : str) (filters : LogFilters) : LogFilters :=
  Filters (f_search filters) (f_level filters) a b
          (f_module filters) (f_feature filters) (f_user filters).

(** The step of [levelCounts] for one entry. *)
Definition countEntry {H : Host} (counts : list (str * nat))
  (entry : LogEntry) : list (str * nat) :=
  match level entry with
  | Some l =>
      if nonEmpty l && hasOwnProperty counts l
      then increment l counts else counts
  | None => counts
  end.

(** The number of entries with the level [l]. *)
Definition withLevel {H : Host} (l : str) (es : list LogEntry) : nat :=
  length (filter (levelIs l) es).

(** The sum of the six level counters. *)
Definition sixCounters (counts : list (str * nat)) : nat :=
  list_sum (map (fun l => count l counts) levels).

(** The entry has one of the six levels. *)
Definition hasKnownLevel {H : Host} (e : LogEntry) : bool :=
  existsb (fun l => levelIs l e) levels.

(** The entries renumbered as the lines after line [i]. *)
Fixpoint renumberFrom {H : Host} (i : nat) (es : list LogEntry)
  : list LogEntry :=
  match es with
  | [] => []
  | e :: es' => renumber (i + 1) e :: renumberFrom (S i) es'
  end.

(** The end of the day in the time zone of the reference host. *)
Definition utcEndOfDay (t : Z) : Z :=
  (t - t mod 86400000 + 86399999)%Z.

(** Filters that ask for a text and a level. *)
Definition sampleFilters : LogFilters :=
  Filters (lit "WARN") (lit "WARN") [] [] (lit "all") (lit "all") (lit "all").

(** Filters with date bounds only. *)
Definition dateFilters : LogFilters :=
  Filters [] (lit "all") (lit "2024-01-01") (lit "2024-01-31")
          (lit "all") (lit "all") (lit "all").

(** A file named as a log, of no declared type. *)
Definition sampleFile (content : str) : File :=
  MkFile [] (lit "app.log") (Some content).

Definition emptyState : AppState (H := RefHost) := MkState None None false [].

(* ================================================================== *)
(** * Properties *)

(** ** Strings *)

Section StringFacts.

Lemma trimStart_clean s : clean (trimStart s).
Proof.
  induction s as [|c s IH]; simpl; [exact I|].
  destruct (isSpace c) eqn:E; [exact IH | simpl; exact E].
Qed.

Lemma trimStart_id s : clean s -> trimStart s = s.
Proof.
  destruct s as [|c s]; simpl; [reflexivity|].
  intros ->. reflexivity.
Qed.

Lemma trimStart_snoc l c :
  isSpace c = false -> exists l', trimStart (l ++ [c]) = l' ++ [c].
Proof.
  intros Hc. induction l as [|x l IH]; simpl.
  - rewrite Hc. exists []. reflexivity.
  - destruct (isSpace x).
    + exact IH.
    + exists (x :: l). reflexivity.
Qed.

Lemma trimEnd_clean s : clean s -> clean (trimEnd s).
Proof.
  unfold trimEnd. destruct s as [|c s]; simpl; [intros _; exact I|].
  intros Hc. destruct (trimStart_snoc (rev s) c Hc) as [l' ->].
  rewrite rev_app_distr. simpl. exact Hc.
Qed.

Lemma trimEnd_clean_rev s : clean (rev (trimEnd s)).
Proof.
  unfold trimEnd. rewrite rev_involutive. apply trimStart_clean.
Qed.

Lemma trim_fixed s : clean s -> clean (rev s) -> trim s = s.
Proof.
  intros H1 H2. unfold trim, trimEnd.
  rewrite (trimStart_id s H1), (trimStart_id (rev s) H2).
  apply rev_involutive.
Qed.

Lemma trim_idempotent s : trim (trim s) = trim s.
Proof.
  apply trim_fixed.
  - unfold trim. apply trimEnd_clean, trimStart_clean.
  - unfold trim. apply trimEnd_clean_rev.
Qed.

Lemma trimStart_incl s x : In x (trimStart s) -> In x s.
Proof.
  induction s as [|c s IH]; simpl; [tauto|].
  destruct (isSpace c); simpl; auto.
Qed.

Lemma trim_incl s x : In x (trim s) -> In x s.
Proof.
  unfold trim, trimEnd. intros Hin.
  apply trimStart_incl. apply in_rev in Hin.
  apply trimStart_incl in Hin. apply in_rev in Hin. exact Hin.
Qed.

Lemma split_lines_noNewline s : Forall noNewline (split_lines s).
Proof.
  induction s as [|c s IH]; simpl.
  - constructor; [intros c []|constructor].
  - destruct (isNewline c) eqn:E.
    + constructor; [intros x []|exact IH].
    + destruct (split_lines s) as [|l ls].
      * constructor; [|constructor].
        intros x [<-|[]]. exact E.
      * inversion IH; subst. constructor; [|assumption].
        intros x [<-|Hx]; [exact E|auto].
Qed.

Lemma split_lines_single s : noNewline s -> split_lines s = [s].
Proof.
  induction s as [|c s IH]; simpl; [reflexivity|].
  intros Hn. rewrite (Hn c (or_introl eq_refl)).
  rewrite IH; [reflexivity|].
  intros x Hx. apply Hn. right. exact Hx.
Qed.

Lemma trim_noNewline s : noNewline s -> noNewline (trim s).
Proof.
  intros Hn c Hc. apply Hn, trim_incl, Hc.
Qed.

Lemma nonEmpty_false (s : str) : nonEmpty s = false -> s = [].
Proof. destruct s; [reflexivity|discriminate]. Qed.

Lemma nonEmpty_true (s : str) : nonEmpty s = true -> s <> [].
Proof. destruct s; [discriminate|intros _; discriminate]. Qed.

Lemma str_eqb_eq a b : str_eqb a b = true <-> a = b.
Proof.
  revert b. induction a as [|x a IH]; destruct b as [|y b]; simpl;
    try (split; [discriminate|discriminate]); [tauto|].
  rewrite andb_true_iff, Ascii.eqb_eq, IH.
  split; [intros [-> ->]; reflexivity|intros E; inversion E; auto].
Qed.

End StringFacts.

(* ================================================================== *)
(** ** The matcher *)

Section RegexFacts.

Lemma link_refl st : link [] [] st st.
Proof. repeat split. Qed.

Lemma link_trans w1 n1 w2 n2 st st1 st2 :
  link w1 n1 st st1 -> link w2 n2 st1 st2 ->
  link (w1 ++ w2) (n2 ++ n1) st st2.
Proof.
  intros (S1 & R1 & C1) (S2 & R2 & C2). repeat split.
  - rewrite S2, S1, rev_app_distr, app_assoc. reflexivity.
  - rewrite R1, R2, app_assoc. reflexivity.
  - rewrite C2, C1, app_assoc. reflexivity.
Qed.

Lemma captured_link w new st st' : link w new st st' -> captured st st' = w.
Proof.
  intros (S1 & _ & _). unfold captured. rewrite S1, length_app, length_rev.
  replace (length w + length (seen st) - length (seen st)) with (length w)
    by lia.
  rewrite <- (length_rev w) at 1.
  rewrite firstn_app, firstn_all, Nat.sub_diag. simpl.
  rewrite app_nil_r. apply rev_involutive.
Qed.

Lemma link_set_cap i w new st st' :
  link w new st st' ->
  link w ((i, captured st st') :: new) st (set_cap i (captured st st') st').
Proof.
  intros (S1 & R1 & C1). repeat split; simpl; try assumption.
  rewrite C1. reflexivity.
Qed.

Lemma capOk_weaken (P Q : nat * str -> Prop) l :
  (forall p, P p -> Q p) -> Forall P l -> Forall Q l.
Proof. intros HPQ HF. eapply Forall_impl; eauto. Qed.

Lemma capOk_Seq_l a b p : capOk a p -> capOk (Seq a b) p.
Proof.
  intros [Hin Hs]. split; simpl.
  - apply in_or_app. left. exact Hin.
  - intros E. apply andb_true_iff in E. apply Hs, E.
Qed.

Lemma capOk_Seq_r a b p : capOk b p -> capOk (Seq a b) p.
Proof.
  intros [Hin Hs]. split; simpl.
  - apply in_or_app. right. exact Hin.
  - intros E. apply andb_true_iff in E. apply Hs, E.
Qed.

Lemma capOk_Group i a p : capOk a p -> capOk (Group i a) p.
Proof.
  intros [Hin Hs]. split; simpl.
  - right. exact Hin.
  - intros E. apply andb_true_iff in E. apply Hs, E.
Qed.

Lemma capOk_Quant lo hi a p : capOk a p -> capOk (Quant lo hi a) p.
Proof. intros [Hin Hs]. split; simpl; assumption. Qed.

Lemma within_app_l w1 w2 l : Forall (within w1) l -> Forall (within (w1 ++ w2)) l.
Proof.
  apply capOk_weaken. intros p Hp c Hc. apply in_or_app. left. apply Hp, Hc.
Qed.

Lemma within_app_r w1 w2 l : Forall (within w2) l -> Forall (within (w1 ++ w2)) l.
Proof.
  apply capOk_weaken. intros p Hp c Hc. apply in_or_app. right. apply Hp, Hc.
Qed.

Lemma within_app w1 n1 w2 n2 :
  Forall (within w1) n1 -> Forall (within w2) n2 ->
  Forall (within (w1 ++ w2)) (n2 ++ n1).
Proof.
  intros H1 H2. apply Forall_app. split.
  - apply within_app_r, H2.
  - apply within_app_l, H1.
Qed.

(** The compulsory rounds of a quantifier. *)
Lemma must_sound a lo hi once :
  sound a once ->
  forall n st k res, must once n st k = Some res ->
    exists st' w new,
      k st' = Some res /\ link w new st st' /\
      n * min_len a <= length w /\ Forall (capOk (Quant lo hi a)) new /\
      Forall (within w) new.
Proof.
  intros Hs. induction n as [|n IH]; simpl; intros st k res Hm.
  - exists st, [], []. repeat split; auto.
  - apply Hs in Hm. destruct Hm as (st1 & w1 & n1 & Hk & L1 & M1 & F1 & I1).
    apply IH in Hk. destruct Hk as (st2 & w2 & n2 & Hk & L2 & M2 & F2 & I2).
    exists st2, (w1 ++ w2), (n2 ++ n1). split; [exact Hk|].
    split; [eapply link_trans; eauto|]. split; [|split].
    + rewrite length_app. lia.
    + apply Forall_app. split; [exact F2|].
      eapply capOk_weaken; [|exact F1]. apply capOk_Quant.
    + apply within_app; assumption.
Qed.

(** The optional rounds of a quantifier. *)
Lemma more_sound a lo hi once :
  sound a once ->
  forall n st k res, more once n st k = Some res ->
    exists st' w new,
      k st' = Some res /\ link w new st st' /\
      Forall (capOk (Quant lo hi a)) new /\ Forall (within w) new.
Proof.
  intros Hs. induction n as [|n IH]; simpl; intros st k res Hm.
  - exists st, [], []. repeat split; auto.
  - destruct (once st _) as [res0|] eqn:E.
    + inversion Hm; subst res0. clear Hm.
      apply Hs in E. destruct E as (st1 & w1 & n1 & Hk & L1 & M1 & F1 & I1).
      destruct (length (rest st1) <? length (rest st)); [|discriminate].
      apply IH in Hk. destruct Hk as (st2 & w2 & n2 & Hk & L2 & F2 & I2).
      exists st2, (w1 ++ w2), (n2 ++ n1). split; [exact Hk|].
      split; [eapply link_trans; eauto|]. split.
      * apply Forall_app. split; [exact F2|].
        eapply capOk_weaken; [|exact F1]. apply capOk_Quant.
      * apply within_app; assumption.
    + exists st, [], []. repeat split; auto.
Qed.

(** The matcher succeeds only through its continuation, on a state that
    comes after the one it started from. *)
Lemma rmatch_sound r : sound r (rmatch r).
Proof.
  induction r as [|cs|a IHa b IHb|i a IHa|lo hi a IHa| |];
    intros st k res Hm; simpl in Hm.
  - exists st, [], []. repeat split; auto.
  - destruct st as [sn rs cp]. simpl in Hm.
    destruct rs as [|c t]; [discriminate|].
    destruct (cset_mem cs c); [|discriminate].
    exists (MState (c :: sn) t cp), [c], []. repeat split; auto.
  - apply IHa in Hm. destruct Hm as (st1 & w1 & n1 & Hk & L1 & M1 & F1 & I1).
    apply IHb in Hk. destruct Hk as (st2 & w2 & n2 & Hk & L2 & M2 & F2 & I2).
    exists st2, (w1 ++ w2), (n2 ++ n1). split; [exact Hk|].
    split; [eapply link_trans; eauto|]. split; [|split].
    + rewrite length_app. simpl. lia.
    + apply Forall_app. split.
      * eapply capOk_weaken; [|exact F2]. apply capOk_Seq_r.
      * eapply capOk_weaken; [|exact F1]. apply capOk_Seq_l.
    + apply within_app; assumption.
  - apply IHa in Hm. destruct Hm as (st1 & w1 & n1 & Hk & L1 & M1 & F1 & I1).
    exists (set_cap i (captured st st1) st1), w1,
      ((i, captured st st1) :: n1).
    split; [exact Hk|]. split; [apply link_set_cap; exact L1|].
    split; [exact M1|]. split; constructor.
    + split; [left; reflexivity|]. cbn [fst snd strict].
      rewrite Nat.eqb_refl. intros E. apply andb_true_iff in E.
      destruct E as [E _]. apply Nat.leb_le in E.
      rewrite (captured_link L1). intros ->. simpl in M1. lia.
    + eapply capOk_weaken; [|exact F1]. apply capOk_Group.
    + unfold within. simpl. rewrite (captured_link L1). apply incl_refl.
    + exact I1.
  - apply (must_sound lo hi IHa) in Hm.
    destruct Hm as (st1 & w1 & n1 & Hk & L1 & M1 & F1 & I1).
    apply (more_sound lo hi IHa) in Hk.
    destruct Hk as (st2 & w2 & n2 & Hk & L2 & F2 & I2).
    exists st2, (w1 ++ w2), (n2 ++ n1). split; [exact Hk|].
    split; [eapply link_trans; eauto|]. split; [|split].
    + rewrite length_app. simpl. lia.
    + apply Forall_app. split; assumption.
    + apply within_app; assumption.
  - destruct (seen st) eqn:E; [|discriminate].
    exists st, [], []. repeat split; auto.
  - destruct (rest st) eqn:E; [|discriminate].
    exists st, [], []. repeat split; auto.
Qed.

Lemma exec_from_match_at r pre post m :
  exec_from r pre post = Some m ->
  exists pre' post', match_at r pre' post' = Some m /\
                     rev pre' ++ post' = rev pre ++ post.
Proof.
  revert pre. induction post as [|c post IH]; intros pre; simpl.
  - destruct (match_at r pre []) eqn:E; [|discriminate].
    intros Hm. inversion Hm; subst. exists pre, []. auto.
  - destruct (match_at r pre (c :: post)) eqn:E.
    + intros Hm. inversion Hm; subst. exists pre, (c :: post). auto.
    + intros Hm. apply IH in Hm. destruct Hm as (p' & q' & Hm & Heq).
      exists p', q'. split; [exact Hm|]. rewrite Heq. simpl.
      rewrite <- app_assoc. reflexivity.
Qed.

Lemma assoc_nat_In i l s : assoc_nat i l = Some s -> In (i, s) l.
Proof.
  induction l as [|[j t] l IH]; simpl; [discriminate|].
  destruct (Nat.eqb_spec i j).
  - intros E. inversion E; subst. left. reflexivity.
  - intros E. right. apply IH, E.
Qed.

(** The captures of a successful match are those of the groups of the
    pattern, and a group that must read a character is not empty. *)
Lemma exec_caps r line m :
  exec r line = Some m -> Forall (capOk (Group 0 r)) (caps m).
Proof.
  unfold exec. intros Hm. apply exec_from_match_at in Hm.
  destruct Hm as (pre & post & Hm & _). unfold match_at in Hm.
  apply rmatch_sound in Hm.
  destruct Hm as (st' & w & new & Hk & (_ & _ & C) & _ & F & _).
  inversion Hk; subst. rewrite C. simpl. rewrite app_nil_r. exact F.
Qed.

(** The captures of a successful match are parts of the input. *)
Lemma exec_group_incl r line m i s :
  exec r line = Some m -> group m i = Some s -> incl s line.
Proof.
  unfold exec. intros Hm Hg. apply exec_from_match_at in Hm.
  destruct Hm as (pre & post & Hm & Heq). simpl in Heq.
  unfold match_at in Hm. apply rmatch_sound in Hm.
  destruct Hm as (st' & w & new & Hk & (_ & R & C) & _ & _ & I).
  inversion Hk; subst st'. simpl in R, C. rewrite app_nil_r in C.
  unfold group in Hg. rewrite C in Hg. apply assoc_nat_In in Hg.
  rewrite Forall_forall in I. specialize (I _ Hg). unfold within in I.
  simpl in I. intros c Hc. rewrite <- Heq, R.
  apply in_or_app. right. apply in_or_app. left. apply I, Hc.
Qed.

Lemma exec_group_nonEmpty r line m i s :
  exec r line = Some m -> strict i (Group 0 r) = true ->
  group m i = Some s -> s <> [].
Proof.
  intros Hm Hs Hg. apply exec_caps in Hm.
  apply assoc_nat_In in Hg. rewrite Forall_forall in Hm.
  destruct (Hm _ Hg) as [_ Hne]. apply Hne. exact Hs.
Qed.

End RegexFacts.

(* ================================================================== *)
(** ** Classification and enrichment *)

Lemma bind_Ok {A B : Type} (m : result A) (f : A -> result B) b :
  bind m f = Ok b -> exists a, m = Ok a /\ f a = Ok b.
Proof. destruct m as [a|e]; simpl; [eauto|discriminate]. Qed.

(** Splits a successful sequence into its first step and the rest. *)
Ltac bind_inv Hb :=
  let a := fresh "a" in
  let E := fresh "E" in
  apply bind_Ok in Hb; destruct Hb as (a & E & Hb).

Section EntryFacts.

Context {H : Host}.

Lemma parseJsonLog_jsonEntry line n e :
  parseJsonLog line n = Some e ->
  exists json, JSON_parse line = Some json /\ jsonEntry json line n = Ok e.
Proof.
  unfold parseJsonLog. destruct (JSON_parse line) as [json|]; simpl;
    [|discriminate].
  destruct (jsonEntry json line n) as [e'|] eqn:Ej; simpl; [|discriminate].
  intros E. inversion E; subst. exists json. split; [reflexivity|exact Ej].
Qed.

Lemma jsonEntry_inv json line n e :
  jsonEntry json line n = Ok e ->
  id e = lineId n /\ rawLine e = line /\ lineNumber e = n /\
  metadata e = Some json /\ levelOf json = Ok (level e) /\
  exists summary, buildSummary json = Ok summary /\
    message e = Some (if nonEmpty summary then summary
                      else lit "Log entry").
Proof.
  unfold jsonEntry. intros Hb. do 5 bind_inv Hb.
  inversion Hb; subst e; simpl.
  repeat split; try assumption. eexists. split; [eassumption|reflexivity].
Qed.

Lemma parseJsonLog_inv line n e :
  parseJsonLog line n = Some e ->
  exists json, JSON_parse line = Some json /\
    id e = lineId n /\ rawLine e = line /\ lineNumber e = n /\
    metadata e = Some json /\ levelOf json = Ok (level e) /\
    exists summary, buildSummary json = Ok summary /\
      message e = Some (if nonEmpty summary then summary
                        else lit "Log entry").
Proof.
  intros Hp. apply parseJsonLog_jsonEntry in Hp.
  destruct Hp as (json & Hj & He). exists json. split; [exact Hj|].
  apply jsonEntry_inv. exact He.
Qed.

Lemma tryPatterns_inv ps line n e f :
  tryPatterns ps line n = Some (e, f) ->
  exists p m, In p ps /\ exec (regex_of p) line = Some m /\
              e = patternEntry (groups_of p) m line n /\ f = name p.
Proof.
  induction ps as [|p ps IH]; simpl; [discriminate|].
  destruct (exec (regex_of p) line) as [m|] eqn:E.
  - intros Hs. inversion Hs; subst. exists p, m. auto.
  - intros Hs. apply IH in Hs. destruct Hs as (q & m & Hin & Hs).
    exists q, m. auto.
Qed.

(** The three ways a line is classified. *)
Lemma classify_cases line n e f :
  classify line n = (e, f) ->
  (parseJsonLog line n = Some e /\ f = lit "JSON format") \/
  (tryPatterns LOG_PATTERNS line n = Some (e, f)) \/
  (tryPatterns LOG_PATTERNS line n = None /\
   e = plainEntry line n /\ f = lit "Plain text").
Proof.
  unfold classify.
  destruct (if startsWith line (lit "{") then parseJsonLog line n else None)
    as [e1|] eqn:E1.
  - intros Hc. inversion Hc; subst. left. split; [|reflexivity].
    destruct (startsWith line (lit "{")); [exact E1|discriminate].
  - destruct (tryPatterns LOG_PATTERNS line n) as [r|] eqn:E2.
    + intros ->. right. left. reflexivity.
    + intros Hc. inversion Hc; subst. right. right. auto.
Qed.

Lemma classify_frame line n e f :
  classify line n = (e, f) ->
  id e = lineId n /\ rawLine e = line /\ lineNumber e = n.
Proof.
  intros Hc. apply classify_cases in Hc.
  destruct Hc as [[Hj _]|[Hp|(_ & -> & _)]].
  - apply parseJsonLog_inv in Hj. destruct Hj as (j & _ & ? & ? & ? & _).
    auto.
  - apply tryPatterns_inv in Hp. destruct Hp as (p & m & _ & _ & -> & _).
    auto.
  - auto.
Qed.

Lemma classify_format line n e f :
  classify line n = (e, f) -> In f formatNames.
Proof.
  intros Hc. apply classify_cases in Hc. unfold formatNames.
  destruct Hc as [[_ ->]|[Hp|(_ & _ & ->)]].
  - left. reflexivity.
  - apply tryPatterns_inv in Hp. destruct Hp as (p & m & Hin & _ & _ & ->).
    right. right. apply in_map. exact Hin.
  - right. left. reflexivity.
Qed.

Lemma formatNames_known f : In f formatNames -> f <> lit "Unknown".
Proof.
  intros Hin E. subst f. vm_compute in Hin.
  repeat (destruct Hin as [Hin|Hin]; [discriminate Hin|]). exact Hin.
Qed.

(** What the enrichment leaves alone. *)
Lemma applyExtracted_frame e x e' :
  applyExtracted e x = Ok e' ->
  id e' = id e /\ rawLine e' = rawLine e /\ lineNumber e' = lineNumber e /\
  (isSome (timestamp e) = true -> timestamp e' = timestamp e) /\
  (present (level e) = true -> level e' = level e) /\
  (present (source e) = true -> source e' = source e) /\
  (present (thread e) = true -> thread e' = thread e) /\
  metadata e' = Some (ex_json x) /\ present (message e') = true.
Proof.
  unfold applyExtracted. intros Hb. do 5 bind_inv Hb.
  inversion Hb; subst e'; simpl. clear Hb.
  repeat split.
  - intros Ht. rewrite Ht in E. simpl in E. inversion E. reflexivity.
  - intros Ht. rewrite Ht in E0. simpl in E0. inversion E0. reflexivity.
  - intros Ht. rewrite Ht in E1. simpl in E1. inversion E1. reflexivity.
  - intros Ht. rewrite Ht in E2. simpl in E2. inversion E2. reflexivity.
  - destruct (present a3) eqn:P; [exact P|]. simpl.
    destruct (nonEmpty (trim _)) eqn:N1; [exact N1|].
    destruct (nonEmpty (trim (sliceFrom _ _))) eqn:N2; [exact N2|].
    reflexivity.
Qed.

Lemma enrich_cases e e' :
  enrich e = Ok e' ->
  e' = e \/
  (truthy_opt (metadata e) = false /\
   exists x, extractFirstJsonObject (message e) = Some x /\
             applyExtracted e x = Ok e').
Proof.
  unfold enrich. destruct (truthy_opt (metadata e)); simpl.
  - intros E. inversion E. left. reflexivity.
  - destruct (extractFirstJsonObject (message e)) as [x|].
    + intros E. right. split; [reflexivity|]. exists x. auto.
    + intros E. inversion E. left. reflexivity.
Qed.

Lemma enrich_frame e e' :
  enrich e = Ok e' ->
  id e' = id e /\ rawLine e' = rawLine e /\ lineNumber e' = lineNumber e.
Proof.
  intros He. apply enrich_cases in He.
  destruct He as [->|(_ & x & _ & Ha)]; [auto|].
  apply applyExtracted_frame in Ha. tauto.
Qed.

End EntryFacts.

(* ================================================================== *)
(** ** The loop *)

Section LoopFacts.

Context {H : Host}.

Lemma loop_produced lines : forall i ents f res,
  loop lines i ents f = Ok res ->
  exists new, fst res = ents ++ new /\ produced lines i new f (snd res).
Proof.
  induction lines as [|l ls IH]; simpl; intros i ents f res Hl.
  - inversion Hl; subst. exists []. simpl. rewrite app_nil_r.
    split; [reflexivity|constructor].
  - destruct (nonEmpty (trim l)) eqn:N; simpl in Hl.
    + destruct (classify (trim l) (i + 1)) as [e0 f1] eqn:C.
      bind_inv Hl. apply IH in Hl. destruct Hl as (new & Hf & Hp).
      exists (a :: new). rewrite Hf, <- app_assoc. split; [reflexivity|].
      eapply produced_line; eauto.
    + apply IH in Hl. destruct Hl as (new & Hf & Hp).
      exists new. split; [exact Hf|]. apply produced_blank; assumption.
Qed.

Lemma produced_loop lines i new f f' :
  produced lines i new f f' ->
  forall ents, loop lines i ents f = Ok (ents ++ new, f').
Proof.
  induction 1 as [i f|l ls i es f f' N _ IH|l ls i e0 e es f f1 f' N C E _ IH];
    intros ents; simpl.
  - rewrite app_nil_r. reflexivity.
  - rewrite N. simpl. apply IH.
  - rewrite N, C. simpl. rewrite E. simpl. rewrite IH, <- app_assoc.
    reflexivity.
Qed.

Lemma parseLogFile_produced content fn r :
  parseLogFile content fn = Ok r ->
  produced (split_lines content) 0 (entries r) (lit "Unknown")
           (detectedFormat r) /\
  totalLines r = length (split_lines content) /\ filename r = fn.
Proof.
  unfold parseLogFile. intros Hp. bind_inv Hp. inversion Hp; subst r; simpl.
  apply loop_produced in E. destruct E as (new & Hf & Hpr).
  simpl in Hf. rewrite Hf. auto.
Qed.

Lemma produced_parseLogFile content fn es f :
  produced (split_lines content) 0 es (lit "Unknown") f ->
  parseLogFile content fn =
    Ok (Parsed es (length (split_lines content)) fn f).
Proof.
  intros Hp. unfold parseLogFile.
  rewrite (produced_loop Hp []). reflexivity.
Qed.

(** One record for each non-blank line, in order, numbered by the
    position of its line. *)
Lemma produced_count lines i es f f' :
  produced lines i es f f' ->
  length es + blankLineCount lines = length lines /\
  map lineNumber es = nonBlankNumbers lines i.
Proof.
  unfold blankLineCount.
  induction 1 as [i f|l ls i es f f' N _ [IH1 IH2]
                 |l ls i e0 e es f f1 f' N C E _ [IH1 IH2]]; simpl.
  - auto.
  - unfold isBlank at 1. rewrite N. simpl. split; [lia|exact IH2].
  - unfold isBlank at 1. rewrite N. simpl. split; [lia|].
    rewrite IH2. f_equal.
    apply enrich_frame in E. apply classify_frame in C.
    destruct E as (_ & _ & ->). tauto.
Qed.

(** The raw lines of the records are the trimmed non-blank lines. *)
Lemma produced_rawLine lines i es f f' :
  produced lines i es f f' ->
  map rawLine es = filter nonEmpty (map trim lines).
Proof.
  induction 1 as [i f|l ls i es f f' N _ IH
                 |l ls i e0 e es f f1 f' N C E _ IH]; simpl.
  - reflexivity.
  - rewrite N. exact IH.
  - rewrite N, IH. f_equal.
    apply enrich_frame in E. apply classify_frame in C.
    destruct E as (_ & -> & _). tauto.
Qed.

(** The format at the end is a name given by a classification, unless
    no line was classified. *)
Lemma produced_format lines i es f f' :
  produced lines i es f f' ->
  (es = [] /\ f' = f /\ Forall (fun l => isBlank l = true) lines) \/
  (es <> [] /\ In f' formatNames).
Proof.
  induction 1 as [i f|l ls i es f f' N _ IH
                 |l ls i e0 e es f f1 f' N C E _ IH].
  - left. auto.
  - destruct IH as [(-> & -> & HF)|[Hne Hin]]; [left|right; auto].
    repeat split. constructor; [|exact HF]. unfold isBlank. rewrite N.
    reflexivity.
  - right. split; [discriminate|].
    destruct IH as [(_ & -> & _)|[_ Hin]]; [|exact Hin].
    eapply classify_format; eauto.
Qed.

Lemma blank_produced lines i f :
  Forall (fun l => isBlank l = true) lines -> produced lines i [] f f.
Proof.
  intros HF. revert i. induction HF as [|l ls Hl _ IH]; intros i.
  - constructor.
  - apply produced_blank; [|apply IH].
    unfold isBlank in Hl. destruct (nonEmpty (trim l)); [discriminate|].
    reflexivity.
Qed.

(** Every record comes from a line of the input. *)
Lemma produced_In lines i es f f' r :
  produced lines i es f f' -> In r es ->
  exists l n e0 f1, In l lines /\ nonEmpty (trim l) = true /\
    classify (trim l) n = (e0, f1) /\ enrich e0 = Ok r.
Proof.
  induction 1 as [i f|l ls i es f f' N _ IH
                 |l ls i e0 e es f f1 f' N C E _ IH]; simpl.
  - intros [].
  - intros Hin. destruct (IH Hin) as (l' & n & e1 & f2 & Hl & Hr).
    exists l', n, e1, f2. auto.
  - intros [<-|Hin].
    + exists l, (i + 1), e0, f1. auto.
    + destruct (IH Hin) as (l' & n & e1 & f2 & Hl & Hr).
      exists l', n, e1, f2. auto.
Qed.

End LoopFacts.

(* ================================================================== *)
(** ** The line number plays no part *)

Section Renumbering.

Context {H : Host}.

Ltac step_bind :=
  match goal with
  | |- context [bind ?m _] => destruct m; simpl; try reflexivity
  end.

Lemma jsonEntry_renumber j line n n' :
  jsonEntry j line n' = (e <- jsonEntry j line n ;; Ok (renumber n' e)).
Proof. unfold jsonEntry. repeat step_bind. Qed.

Lemma parseJsonLog_renumber line n n' :
  parseJsonLog line n' = option_map (renumber n') (parseJsonLog line n).
Proof.
  unfold parseJsonLog. destruct (JSON_parse line) as [j|]; [|reflexivity].
  rewrite (jsonEntry_renumber j line n n').
  destruct (jsonEntry j line n); reflexivity.
Qed.

Lemma tryPatterns_renumber ps line n n' :
  tryPatterns ps line n' =
  option_map (fun r => (renumber n' (fst r), snd r)) (tryPatterns ps line n).
Proof.
  induction ps as [|p ps IH]; simpl; [reflexivity|].
  destruct (exec (regex_of p) line); [reflexivity|exact IH].
Qed.

Lemma classify_renumber line n n' :
  classify line n' =
  (renumber n' (fst (classify line n)), snd (classify line n)).
Proof.
  unfold classify.
  rewrite (tryPatterns_renumber LOG_PATTERNS line n n').
  rewrite (parseJsonLog_renumber line n n').
  destruct (startsWith line (lit "{"));
    [destruct (parseJsonLog line n); [reflexivity|]|];
    destruct (tryPatterns LOG_PATTERNS line n) as [[e f]|]; reflexivity.
Qed.

Lemma applyExtracted_renumber n e x :
  applyExtracted (renumber n e) x =
  (e' <- applyExtracted e x ;; Ok (renumber n e')).
Proof.
  unfold applyExtracted. simpl. repeat step_bind.
Qed.

Lemma enrich_renumber n e :
  enrich (renumber n e) = (e' <- enrich e ;; Ok (renumber n e')).
Proof.
  unfold enrich. simpl. destruct (truthy_opt (metadata e)); simpl;
    [reflexivity|].
  destruct (extractFirstJsonObject (message e)); [|reflexivity].
  apply applyExtracted_renumber.
Qed.

End Renumbering.

(* ================================================================== *)
(** ** Fields that the patterns capture *)

Section CaptureFacts.

Context {H : Host}.

Lemma strictPattern_all : forallb strictPattern LOG_PATTERNS = true.
Proof. reflexivity. Qed.

Lemma toUpperCase_nonEmpty s : s <> [] -> toUpperCase s <> [].
Proof. destruct s; [congruence|discriminate]. Qed.

Lemma detectLogLevel_nonEmpty text l : detectLogLevel text = Some l -> l <> [].
Proof.
  unfold detectLogLevel. intros Hf. apply find_some in Hf.
  destruct Hf as [_ Hb]. apply andb_true_iff in Hb.
  apply nonEmpty_true, Hb.
Qed.

(** A level, source or thread that a pattern entry has is not empty. *)
Lemma patternEntry_present p m line n :
  In p LOG_PATTERNS -> exec (regex_of p) line = Some m ->
  let e := patternEntry (groups_of p) m line n in
  (forall l, level e = Some l -> l <> []) /\
  (forall s, source e = Some s -> s <> []) /\
  (forall t, thread e = Some t -> t <> []).
Proof.
  intros Hin Hm. pose proof strictPattern_all as Hall.
  rewrite forallb_forall in Hall. specialize (Hall p Hin).
  unfold strictPattern in Hall.
  apply andb_true_iff in Hall. destruct Hall as [Hall Ht].
  apply andb_true_iff in Hall. destruct Hall as [Hl Hs].
  simpl. repeat split.
  - intros l. destruct (g_level (groups_of p)) as [i|].
    + destruct (group m i) as [s|] eqn:G; simpl; [|discriminate].
      intros E. inversion E. apply toUpperCase_nonEmpty.
      eapply exec_group_nonEmpty; eauto.
    + apply detectLogLevel_nonEmpty.
  - intros s. unfold field. destruct (g_source (groups_of p)) as [i|];
      [|discriminate].
    intros G. eapply exec_group_nonEmpty; eauto.
  - intros t. unfold field. destruct (g_thread (groups_of p)) as [i|];
      [|discriminate].
    intros G. eapply exec_group_nonEmpty; eauto.
Qed.

(** A value that is falsy has none of the keys, and its summary is the
    default one. *)
Lemma falsy_summary j :
  truthy j = false -> j <> JNull -> buildSummary j = Ok (lit "Log entry").
Proof.
  destruct j; simpl; try discriminate; try congruence; reflexivity.
Qed.

(** The enrichment does nothing to an entry of [parseJsonLog]. *)
Lemma parseJsonLog_enrich line n e :
  parseJsonLog line n = Some e -> enrich e = Ok e.
Proof.
  intros Hp. apply parseJsonLog_inv in Hp.
  destruct Hp as (j & _ & _ & _ & _ & Hmeta & Hlev & s & Hsum & Hmsg).
  unfold enrich. rewrite Hmeta. simpl.
  destruct (truthy j) eqn:T; [reflexivity|]. simpl.
  assert (Hn : j <> JNull) by (intros ->; discriminate Hlev).
  rewrite (falsy_summary T Hn) in Hsum. inversion Hsum; subst s.
  rewrite Hmsg. reflexivity.
Qed.

Lemma pick_agree keys j1 j2 :
  agree keys j1 j2 -> pick j1 keys = pick j2 keys.
Proof.
  induction keys as [|k ks IH]; intros Ha; simpl; [reflexivity|].
  rewrite (Ha k (or_introl eq_refl)).
  rewrite IH; [reflexivity|].
  intros k' Hk. apply Ha. right. exact Hk.
Qed.



End CaptureFacts.

(* ================================================================== *)
(** ** Where the run cannot fail, and where the message can be empty *)

Section ReturnFacts.

Context {H : Host}.

Lemma indexOf_None s c : ~ In c s -> indexOf s c = None.
Proof.
  induction s as [|x s IH]; simpl; [reflexivity|].
  intros Hn. destruct (Ascii.eqb_spec x c) as [->|_].
  - exfalso. apply Hn. left. reflexivity.
  - rewrite IH; [reflexivity|]. intros Hin. apply Hn. right. exact Hin.
Qed.

Lemma startsWith_In s c : startsWith s [c] = true -> In c s.
Proof.
  destruct s as [|x s]; simpl; [discriminate|].
  destruct (Ascii.eqb_spec c x) as [->|_]; [left; reflexivity|discriminate].
Qed.

Lemma split_lines_incl s l : In l (split_lines s) -> incl l s.
Proof.
  revert l. induction s as [|c s IH]; simpl; intros l.
  - intros [<-|[]]. apply incl_refl.
  - destruct (isNewline c).
    + intros [<-|Hin]; [intros x []|]. apply incl_tl, IH, Hin.
    + destruct (split_lines s) as [|l0 ls].
      * intros [<-|[]]. intros x [<-|[]]. left. reflexivity.
      * intros [<-|Hin].
        -- intros x [<-|Hx]; [left; reflexivity|].
           right. apply (IH l0); [left; reflexivity|exact Hx].
        -- apply incl_tl, IH. right. exact Hin.
Qed.

Lemma extract_noBrace t : noBrace t -> extractFirstJsonObject (Some t) = None.
Proof.
  intros Hn. unfold extractFirstJsonObject.
  destruct (negb (present (Some t))); [reflexivity|].
  rewrite (@indexOf_None t "{"%char Hn). reflexivity.
Qed.

(** The message of a classified line is made of characters of the
    line. *)
Lemma classify_message_incl line n e f t :
  startsWith line (lit "{") = false ->
  classify line n = (e, f) -> message e = Some t -> incl t line.
Proof.
  intros Hs Hc Hm. unfold classify in Hc. rewrite Hs in Hc.
  destruct (tryPatterns LOG_PATTERNS line n) as [r|] eqn:Ht.
  - subst r. apply tryPatterns_inv in Ht.
    destruct Ht as (p & m & _ & Hx & -> & _). simpl in Hm.
    destruct (g_message (groups_of p)) as [i|].
    + eapply exec_group_incl; eauto.
    + inversion Hm. apply incl_refl.
  - inversion Hc; subst. simpl in Hm. inversion Hm. apply incl_refl.
Qed.

(** A line without brace is left as classified. *)
Lemma enrich_noBrace line n e f :
  noBrace line -> classify line n = (e, f) -> enrich e = Ok e.
Proof.
  intros Hn Hc.
  assert (Hs : startsWith line (lit "{") = false).
  { destruct (startsWith line (lit "{")) eqn:E; [|reflexivity].
    exfalso. apply Hn. apply startsWith_In. exact E. }
  unfold enrich. destruct (negb (truthy_opt (metadata e))); [|reflexivity].
  destruct (message e) as [t|] eqn:Hm; [|reflexivity].
  rewrite extract_noBrace; [reflexivity|].
  intros Hin. apply Hn.
  eapply classify_message_incl; eauto.
Qed.

Lemma produced_noBrace lines :
  Forall noBrace lines ->
  forall i f, exists es f', produced lines i es f f'.
Proof.
  induction 1 as [|l ls Hl _ IH]; intros i f.
  - exists [], f. constructor.
  - destruct (nonEmpty (trim l)) eqn:N.
    + destruct (classify (trim l) (i + 1)) as [e0 f1] eqn:C.
      destruct (IH (S i) f1) as (es & f' & Hp).
      exists (e0 :: es), f'. eapply produced_line; eauto.
      eapply enrich_noBrace; [|exact C].
      intros Hin. apply Hl. apply trim_incl. exact Hin.
    + destruct (IH (S i) f) as (es & f' & Hp).
      exists es, f'. apply produced_blank; assumption.
Qed.

(** An input without opening brace is always parsed: matching, the
    timestamps and the fallback to plain text cannot fail. *)
Lemma parseLogFile_returns_noBrace content fn :
  noBrace content -> exists r, parseLogFile content fn = Ok r.
Proof.
  intros Hn.
  assert (HF : Forall noBrace (split_lines content)).
  { apply Forall_forall. intros l Hl Hin. apply Hn.
    eapply split_lines_incl; eauto. }
  destruct (produced_noBrace HF 0 (lit "Unknown")) as (es & f & Hp).
  eexists. apply produced_parseLogFile. exact Hp.
Qed.

(** An empty or missing message is the capture of a pattern of the
    registry, left as it was: the entries of [parseJsonLog], the plain
    entries and the entries enriched from an embedded object have a
    message. *)
Lemma empty_message_from_pattern line n e0 f e :
  nonEmpty line = true -> classify line n = (e0, f) -> enrich e0 = Ok e ->
  present (message e) = false ->
  e = e0 /\
  exists p m, In p LOG_PATTERNS /\ exec (regex_of p) line = Some m /\
              f = name p /\ e0 = patternEntry (groups_of p) m line n.
Proof.
  intros Hne Hc He Hm.
  assert (E : e = e0).
  { apply enrich_cases in He. destruct He as [->|(_ & x & _ & Ha)]; [auto|].
    apply applyExtracted_frame in Ha.
    destruct Ha as (_ & _ & _ & _ & _ & _ & _ & _ & Hp). congruence. }
  subst e. split; [reflexivity|].
  apply classify_cases in Hc.
  destruct Hc as [[Hj _]|[Hp|(_ & -> & _)]].
  - apply parseJsonLog_inv in Hj.
    destruct Hj as (j & _ & _ & _ & _ & _ & _ & s & _ & Hs).
    rewrite Hs in Hm. simpl in Hm.
    destruct (nonEmpty s) eqn:Ns; [congruence|discriminate].
  - apply tryPatterns_inv in Hp. destruct Hp as (p & m & Hin & Hx & -> & ->).
    exists p, m. auto.
  - simpl in Hm. congruence.
Qed.

End ReturnFacts.

(* ================================================================== *)
(** * The claims *)

Section Claims.

Context {H : Host}.

(** On every run that returns, the records and the blank lines add up to
    the lines of the input, and the records are numbered by their
    lines. *)
Lemma parse_counts content fn r :
  parseLogFile content fn = Ok r ->
  totalLines r = length (split_lines content) /\
  length (entries r) + blankLineCount (split_lines content) = totalLines r /\
  map lineNumber (entries r) = nonBlankNumbers (split_lines content) 0.
Proof.
  intros Hp. apply parseLogFile_produced in Hp.
  destruct Hp as (Hpr & -> & _). apply produced_count in Hpr.
  destruct Hpr as [Hc Hn]. auto.
Qed.

(** C3, as amended.  The raw lines of the records are the lines of the
    input with the white space at both ends removed, blank lines left
    out; white space inside a line is kept; and enrichment never
    changes the raw line of a record. *)
Theorem rawLine_is_trimmed_line content fn r :
  parseLogFile content fn = Ok r ->
  map rawLine (entries r) = filter nonEmpty (map trim (split_lines content))
  /\ (forall e0 e1, enrich e0 = Ok e1 -> rawLine e1 = rawLine e0).
Proof.
  intros Hp. apply parseLogFile_produced in Hp. destruct Hp as (Hpr & _).
  split.
  - eapply produced_rawLine; eauto.
  - intros e0 e1 He. apply enrich_frame in He. tauto.
Qed.

(** C9.  Re-parsing idempotence: the raw line of a record of any run,
    parsed on its own with the same file name and the same clock, gives
    exactly one record, which is the record renumbered as line 1; its
    level, timestamp, message and metadata are those of the record. *)
Theorem reparse_idempotent content fn res r :
  parseLogFile content fn = Ok res -> In r (entries res) ->
  exists r' f,
    parseLogFile (rawLine r) fn = Ok (Parsed [r'] 1 fn f) /\
    r' = renumber 1 r /\
    level r' = level r /\ timestamp r' = timestamp r /\
    message r' = message r /\ metadata r' = metadata r.
Proof.
  intros Hp Hin. apply parseLogFile_produced in Hp.
  destruct Hp as (Hpr & _).
  destruct (produced_In r Hpr Hin) as (l & n & e0 & f1 & Hl & Hne & Hc & He).
  assert (Hraw : rawLine r = trim l).
  { apply enrich_frame in He. apply classify_frame in Hc.
    destruct He as (_ & -> & _). tauto. }
  assert (Hnl : noNewline (trim l)).
  { apply trim_noNewline.
    pose proof (split_lines_noNewline content) as HF.
    rewrite Forall_forall in HF. apply HF, Hl. }
  exists (renumber 1 r), f1. split; [|simpl; auto 6].
  rewrite Hraw. unfold parseLogFile.
  rewrite (split_lines_single Hnl). simpl.
  rewrite trim_idempotent, Hne. simpl.
  rewrite (classify_renumber (trim l) n 1), Hc. simpl.
  rewrite enrich_renumber, He. reflexivity.
Qed.

(** C10.  An input of blank lines only (the empty input is one) gives
    no record and the format Unknown; and a run that returns the format
    Unknown has classified no line: its input is of blank lines only. *)
Theorem blank_input_Unknown content fn :
  (Forall (fun l => isBlank l = true) (split_lines content) ->
   parseLogFile content fn =
     Ok (Parsed [] (length (split_lines content)) fn (lit "Unknown"))) /\
  (forall r, parseLogFile content fn = Ok r ->
     detectedFormat r = lit "Unknown" ->
     entries r = [] /\
     Forall (fun l => isBlank l = true) (split_lines content)).
Proof.
  split.
  - intros HF. apply produced_parseLogFile, blank_produced, HF.
  - intros r Hp Hf. apply parseLogFile_produced in Hp.
    destruct Hp as (Hpr & _). apply produced_format in Hpr.
    destruct Hpr as [(He & _ & HF)|[_ Hin]]; [auto|].
    rewrite Hf in Hin. apply formatNames_known in Hin. congruence.
Qed.

(** C7.  The enrichment of a classified line fills absent fields only:
    a timestamp, level, source or thread that the entry has before the
    embedded object is applied is the same afterwards, and so are the
    id, the raw line and the line number; only message and metadata are
    rewritten. *)
Theorem enrichment_fills_only_absent line n e0 f e1 :
  classify line n = (e0, f) -> enrich e0 = Ok e1 ->
  (forall t, timestamp e0 = Some t -> timestamp e1 = Some t) /\
  (forall l, level e0 = Some l -> level e1 = Some l) /\
  (forall s, source e0 = Some s -> source e1 = Some s) /\
  (forall t, thread e0 = Some t -> thread e1 = Some t) /\
  id e1 = id e0 /\ rawLine e1 = rawLine e0 /\ lineNumber e1 = lineNumber e0.
Proof.
  intros Hc He.
  assert (Hpres : (forall l, level e0 = Some l -> l <> []) /\
                  (forall s, source e0 = Some s -> s <> []) /\
                  (forall t, thread e0 = Some t -> t <> []) \/ e1 = e0).
  { apply classify_cases in Hc.
    destruct Hc as [[Hj _]|[Hp|(_ & -> & _)]].
    - right. apply parseJsonLog_enrich in Hj. congruence.
    - left. apply tryPatterns_inv in Hp.
      destruct Hp as (p & m & Hin & Hm & -> & _).
      apply patternEntry_present; assumption.
    - left. simpl. repeat split; try discriminate.
      apply detectLogLevel_nonEmpty. }
  destruct Hpres as [(Pl & Ps & Pt)| ->]; [|auto 10].
  apply enrich_cases in He. destruct He as [->|(_ & x & _ & Ha)]; [auto 10|].
  apply applyExtracted_frame in Ha.
  destruct Ha as (Hid & Hraw & Hnum & Ht & Hl & Hs & Hth & _).
  repeat split; try assumption.
  - intros t E. rewrite Ht; [exact E|]. rewrite E. reflexivity.
  - intros l E. rewrite Hl; [exact E|]. rewrite E. simpl.
    specialize (Pl l E). destruct l; [congruence|reflexivity].
  - intros s E. rewrite Hs; [exact E|]. rewrite E. simpl.
    specialize (Ps s E). destruct s; [congruence|reflexivity].
  - intros t E. rewrite Hth; [exact E|]. rewrite E. simpl.
    specialize (Pt t E). destruct t; [congruence|reflexivity].
Qed.


End Claims.

(* ================================================================== *)
(** * The claims on sample inputs *)

(** A run that succeeds returns what [orElse] takes from it. *)
Lemma orElse_Ok {A : Type} (r : result A) (d : A) :
  isOk r = true -> r = Ok (orElse r d).
Proof. destruct r; [reflexivity|discriminate]. Qed.

Lemma isSome_None {A : Type} (o : option A) : isSome o = false -> o = None.
Proof. destruct o; [discriminate|reflexivity]. Qed.

Lemma pair_snd {A B : Type} (p : A * B) (b : B) :
  snd p = b -> p = (fst p, b).
Proof. destruct p; simpl; intros ->; reflexivity. Qed.

Lemma hd_In {A : Type} (d : A) (l : list A) : 0 < length l -> In (hd d l) l.
Proof. destruct l; simpl; [lia|auto]. Qed.

Lemma sampleRun_Ok : parseLogFile threeLines sampleName = Ok sampleRun.
Proof. unfold sampleRun. apply orElse_Ok. vm_compute. reflexivity. Qed.

Lemma sampleRecord_In : In sampleRecord (entries sampleRun).
Proof.
  apply hd_In.
  assert (E : length (entries sampleRun) = 2) by (vm_compute; reflexivity).
  rewrite E. lia.
Qed.

(** C1.  The full-line interpreter stores a level outside the vocabulary:
    the object with the level [verbose] gives a record whose level is
    [VERBOSE], on every host. *)
Theorem full_line_level_outside_vocabulary {H : Host} :
  option_map level (theRecord (parseLogFile verboseLine sampleName))
    = Some (Some (lit "VERBOSE")) /\
  formatOf (parseLogFile verboseLine sampleName) = Some (lit "JSON format") /\
  existsb (str_eqb (lit "VERBOSE")) levels = false.
Proof. repeat split; vm_compute; reflexivity. Qed.


(** C3, the counterexample.  The raw line of a line with leading white
    space is not that line: the white space is gone. *)
Lemma indented_line_is_trimmed :
  option_map rawLine
    (theRecord (parseLogFile (H := RefHost) indentedLine sampleName))
    = Some (lit "hello") /\
  lit "hello" <> indentedLine.
Proof. split; [vm_compute; reflexivity|discriminate]. Qed.

(** C4, the counterexample.  An embedded object that names its level
    under [severity] gives the record that level, although it has no
    property [level]: two objects that agree on every key the claim
    lists are given different levels, and the line with the first of
    them gets the level ERROR. *)
Lemma severity_is_consulted :
  agree (timestampKeys ++ ["level"%string] ++ sourceKeys ++ threadKeys)
        severityObject emptyObject /\
  level (backfilled severityObject) = Some (lit "ERROR") /\
  level (backfilled emptyObject) = None /\
  option_map level
    (theRecord (parseLogFile (H := RefHost) severityLine sampleName))
    = Some (Some (lit "ERROR")) /\
  option_map (fun e => (hasOwn (metadata e) "level",
                        hasOwn (metadata e) "severity"))
    (theRecord (parseLogFile (H := RefHost) severityLine sampleName))
    = Some (false, true).
Proof.
  split; [|repeat split; vm_compute; reflexivity].
  intros k Hk. simpl in Hk.
  repeat (destruct Hk as [<-|Hk]; [reflexivity|]). destruct Hk.
Qed.

(** C5.  A line that a pattern matches with nothing after the matched
    head has an empty message: the bracketed time alone, on every
    host. *)
Theorem pattern_message_can_be_empty {H : Host} :
  option_map message (theRecord (parseLogFile timeOnlyLine sampleName))
    = Some (Some []) /\
  formatOf (parseLogFile timeOnlyLine sampleName)
    = Some (lit "Simple timestamp").
Proof. split; vm_compute; reflexivity. Qed.

(** C6.  The input of one non-blank line whose embedded object has a
    [module] with a property [toString] gives no record at all: the
    run throws, on every host. *)
Theorem non_blank_line_without_record {H : Host} :
  nonBlankNumbers (split_lines toStringLine) 0 = [1] /\
  forall r, parseLogFile toStringLine sampleName <> Ok r.
Proof.
  split; [vm_compute; reflexivity|].
  intros r. vm_compute. discriminate.
Qed.

(** C8.  The same line in the middle of a file aborts the whole run with
    a [TypeError], on every host: the lines before and after it give no
    record either. *)
Theorem parseLogFile_throws {H : Host} :
  parseLogFile toStringFile sampleName = Throw TypeError /\
  length (split_lines toStringFile) = 3.
Proof. split; vm_compute; reflexivity. Qed.

(** The witness of C3. *)
Lemma rawLine_is_trimmed_line_witness :
  parseLogFile threeLines sampleName = Ok sampleRun /\
  map rawLine (entries sampleRun)
    = filter nonEmpty (map trim (split_lines threeLines)) /\
  (forall e0 e1 : LogEntry (H := RefHost),
     enrich e0 = Ok e1 -> rawLine e1 = rawLine e0).
Proof.
  pose proof sampleRun_Ok as Hr. split; [exact Hr|].
  exact (@rawLine_is_trimmed_line RefHost threeLines sampleName sampleRun Hr).
Defined.

(** The witness of C9. *)
Lemma reparse_idempotent_witness :
  parseLogFile threeLines sampleName = Ok sampleRun /\
  In sampleRecord (entries sampleRun) /\
  exists r' f,
    parseLogFile (rawLine sampleRecord) sampleName
      = Ok (Parsed [r'] 1 sampleName f) /\
    r' = renumber 1 sampleRecord /\
    level r' = level sampleRecord /\
    timestamp r' = timestamp sampleRecord /\
    message r' = message sampleRecord /\
    metadata r' = metadata sampleRecord.
Proof.
  pose proof sampleRun_Ok as Hr. pose proof sampleRecord_In as Hi.
  split; [exact Hr|]. split; [exact Hi|].
  exact (@reparse_idempotent RefHost threeLines sampleName sampleRun
           sampleRecord Hr Hi).
Defined.

(** The witness of C10. *)
Lemma blank_input_Unknown_witness :
  Forall (fun l => isBlank l = true) (split_lines blankLines) /\
  parseLogFile (H := RefHost) blankLines sampleName
    = Ok (Parsed [] 3 sampleName (lit "Unknown")).
Proof.
  assert (HF : Forall (fun l => isBlank l = true) (split_lines blankLines))
    by (repeat constructor).
  split; [exact HF|].
  exact (proj1 (@blank_input_Unknown RefHost blankLines sampleName) HF).
Defined.

(** The witness of C7. *)
Lemma enrichment_fills_only_absent_witness :
  classify levelledLine 1 = (levelledEntry, lit "ISO with level") /\
  enrich levelledEntry = Ok levelledEnriched /\
  level levelledEntry = Some (lit "INFO") /\
  level levelledEnriched = Some (lit "INFO") /\
  thread levelledEntry = None /\
  thread levelledEnriched = Some (lit "t1").
Proof.
  assert (Hc : classify levelledLine 1
               = (levelledEntry, lit "ISO with level"))
    by (unfold levelledEntry; apply pair_snd; vm_compute; reflexivity).
  assert (He : enrich levelledEntry = Ok levelledEnriched)
    by (unfold levelledEnriched; apply orElse_Ok; vm_compute; reflexivity).
  assert (Hl : level levelledEntry = Some (lit "INFO"))
    by (vm_compute; reflexivity).
  split; [exact Hc|]. split; [exact He|]. split; [exact Hl|].
  split; [|split; vm_compute; reflexivity].
  exact (proj1 (proj2 (@enrichment_fills_only_absent RefHost levelledLine 1
                         levelledEntry (lit "ISO with level")
                         levelledEnriched Hc He)) _ Hl).
Defined.


(** A line in braces that is not JSON and from which the enrichment
    cuts an object: the format of the run is JSON format, the record
    has the summary of the object as message and the object as
    metadata. *)
Lemma braced_object_line_is_enriched :
  startsWith bracedObjectLine (lit "{") = true /\
  isSome (JSON_parse (H := RefHost) bracedObjectLine) = false /\
  isOk (parseLogFile (H := RefHost) bracedObjectLine sampleName) = true /\
  detectedFormat bracedObjectRun = lit "JSON format" /\
  length (entries bracedObjectRun) = 1 /\
  message bracedObjectRecord = Some (lit "boom") /\
  message bracedObjectEnriched = Some (lit "boom") /\
  level bracedObjectRecord = Some (lit "ERROR") /\
  hasOwn (metadata bracedObjectRecord) "message" = true.
Proof.
  repeat split; vm_compute; reflexivity.
Qed.

(* ================================================================== *)
(** * Further properties of the run *)

Section RunFacts.

Context {H : Host}.

Lemma split_lines_length s : length (split_lines s) = S (countNewlines s).
Proof.
  unfold countNewlines. induction s as [|c s IH]; simpl; [reflexivity|].
  destruct (isNewline c); simpl.
  - rewrite IH. reflexivity.
  - destruct (split_lines s); simpl in *; [discriminate|exact IH].
Qed.

(** X1.  The number of lines that a run reports is one more than the
    number of newline characters of the input: the empty input has one
    line, and an input that ends with a newline has a last, empty
    line. *)
Theorem totalLines_counts_newlines content fn r :
  parseLogFile content fn = Ok r ->
  totalLines r = S (countNewlines content) /\ 1 <= totalLines r.
Proof.
  intros Hp. apply parseLogFile_produced in Hp. destruct Hp as (_ & -> & _).
  rewrite split_lines_length. split; [reflexivity|lia].
Qed.

Lemma to_uint_nonnil n : Nat.to_uint n <> Decimal.Nil.
Proof.
  rewrite <- (DecimalNat.Unsigned.of_to n) at 1.
  rewrite DecimalNat.Unsigned.to_of. unfold Decimal.unorm.
  destruct (Decimal.nzhead (Nat.to_uint n)); discriminate.
Qed.

Lemma decimal_inj n m : decimal n = decimal m -> n = m.
Proof.
  unfold decimal, lit. intros E.
  apply (f_equal string_of_list_ascii) in E.
  rewrite !string_of_list_ascii_of_string in E.
  apply (f_equal NilZero.uint_of_string) in E.
  rewrite !NilZero.usu in E by apply to_uint_nonnil.
  inversion E. apply DecimalNat.Unsigned.to_uint_inj. assumption.
Qed.

Lemma lineId_inj n m : lineId n = lineId m -> n = m.
Proof.
  unfold lineId. intros E. apply app_inv_head in E.
  apply decimal_inj, E.
Qed.

Lemma nonBlankNumbers_bounds lines : forall i n,
  In n (nonBlankNumbers lines i) -> i < n <= i + length lines.
Proof.
  induction lines as [|l ls IH]; simpl; intros i n; [intros []|].
  destruct (nonEmpty (trim l)).
  - intros [<-|Hin]; [lia|]. apply IH in Hin. lia.
  - intros Hin. apply IH in Hin. lia.
Qed.

Lemma nonBlankNumbers_sorted lines : forall i,
  StronglySorted lt (nonBlankNumbers lines i).
Proof.
  induction lines as [|l ls IH]; simpl; intros i; [constructor|].
  destruct (nonEmpty (trim l)); [|apply IH].
  constructor; [apply IH|].
  apply Forall_forall. intros n Hin.
  apply nonBlankNumbers_bounds in Hin. lia.
Qed.

Lemma produced_ids lines i es f f' :
  produced lines i es f f' ->
  Forall (fun e => id e = lineId (lineNumber e)) es.
Proof.
  induction 1 as [i f|l ls i es f f' N _ IH
                 |l ls i e0 e es f f1 f' N C E _ IH]; auto.
  constructor; [|exact IH].
  apply enrich_frame in E. apply classify_frame in C.
  destruct E as (-> & _ & ->). destruct C as (-> & _ & ->). reflexivity.
Qed.

Lemma sorted_NoDup l : StronglySorted lt l -> NoDup l.
Proof.
  induction 1 as [|a l _ IH Hall]; constructor; [|exact IH].
  intros Hin. rewrite Forall_forall in Hall. specialize (Hall a Hin). lia.
Qed.

(** X2.  The records of a run are numbered by their lines: the line
    numbers increase strictly, lie between 1 and the number of lines,
    every id is [line-] followed by the line number, and no two records
    have the same id. *)
Theorem records_numbered_by_line content fn r :
  parseLogFile content fn = Ok r ->
  StronglySorted lt (map lineNumber (entries r)) /\
  Forall (fun e => 1 <= lineNumber e <= totalLines r /\
                   id e = lineId (lineNumber e)) (entries r) /\
  NoDup (map id (entries r)).
Proof.
  intros Hp. apply parseLogFile_produced in Hp. destruct Hp as (Hpr & Ht & _).
  pose proof (produced_count Hpr) as [_ Hn].
  pose proof (produced_ids Hpr) as Hid.
  assert (Hs : StronglySorted lt (map lineNumber (entries r))).
  { rewrite Hn. apply nonBlankNumbers_sorted. }
  split; [exact Hs|]. split.
  - apply Forall_forall. intros e He. split.
    + assert (Hin : In (lineNumber e) (map lineNumber (entries r)))
        by (apply in_map; exact He).
      rewrite Hn in Hin. apply nonBlankNumbers_bounds in Hin. lia.
    + rewrite Forall_forall in Hid. apply Hid, He.
  - apply sorted_NoDup in Hs.
    assert (Hm : map id (entries r) = map lineId (map lineNumber (entries r))).
    { rewrite map_map. apply map_ext_in. intros e He.
      rewrite Forall_forall in Hid. apply Hid, He. }
    rewrite Hm. apply Finite.Injective_map_NoDup; [|exact Hs].
    intros a b. apply lineId_inj.
Qed.

(** The format at the end of the loop is that of the last non-blank
    line, whose entry the loop has enriched. *)
Lemma produced_last lines i es f f' :
  produced lines i es f f' ->
  forall pre l post,
    lines = pre ++ l :: post -> nonEmpty (trim l) = true ->
    Forall (fun x => isBlank x = true) post ->
    f' = snd (classify (trim l) (i + length pre + 1)) /\
    exists e, enrich (fst (classify (trim l) (i + length pre + 1))) = Ok e.
Proof.
  induction 1 as [i f|l0 ls i es f f' N Hp IH
                 |l0 ls i e0 e es f f1 f' N C E Hp IH];
    intros pre l post Hl Hne Hb.
  - destruct pre; discriminate.
  - destruct pre as [|x pre]; simpl in Hl; inversion Hl; subst.
    + congruence.
    + destruct (IH pre l post eq_refl Hne Hb) as [Hf He].
      simpl. replace (i + S (length pre) + 1) with (S i + length pre + 1)
        by lia. auto.
  - destruct pre as [|x pre]; simpl in Hl; inversion Hl; subst.
    + simpl. rewrite Nat.add_0_r, C. simpl. split; [|eauto].
      assert (Hbp : produced post (S i) [] f1 f1)
        by (apply blank_produced; exact Hb).
      pose proof (produced_loop Hbp []) as Hb1.
      pose proof (produced_loop Hp []) as Hp1.
      rewrite Hp1 in Hb1. inversion Hb1. reflexivity.
    + destruct (IH pre l post eq_refl Hne Hb) as [Hf He].
      simpl. replace (i + S (length pre) + 1) with (S i + length pre + 1)
        by lia. auto.
Qed.

(** X3.  The format that a run reports is decided by its last non-blank
    line alone: it is the format reported when that line is parsed on
    its own, whatever the lines before it were. *)
Theorem detectedFormat_of_last_line content fn r pre l post :
  parseLogFile content fn = Ok r ->
  split_lines content = pre ++ l :: post ->
  nonEmpty (trim l) = true ->
  Forall (fun x => isBlank x = true) post ->
  formatOf (parseLogFile (trim l) fn) = Some (detectedFormat r).
Proof.
  intros Hp Hl Hne Hb. apply parseLogFile_produced in Hp.
  destruct Hp as (Hpr & _).
  destruct (produced_last Hpr pre l Hl Hne Hb) as [Hf [e He]].
  assert (Hnl : noNewline (trim l)).
  { apply trim_noNewline.
    pose proof (split_lines_noNewline content) as HF.
    rewrite Forall_forall in HF. apply HF. rewrite Hl.
    apply in_or_app. right. left. reflexivity. }
  unfold parseLogFile. rewrite (split_lines_single Hnl). simpl.
  rewrite trim_idempotent, Hne. simpl.
  rewrite (classify_renumber (trim l) (0 + length pre + 1) 1).
  rewrite enrich_renumber, He. simpl. rewrite Hf. reflexivity.
Qed.

End RunFacts.

(** The witness of X1. *)
Lemma totalLines_counts_newlines_witness :
  parseLogFile threeLines sampleName = Ok sampleRun /\
  totalLines sampleRun = S (countNewlines threeLines) /\
  1 <= totalLines sampleRun.
Proof.
  pose proof sampleRun_Ok as Hr. split; [exact Hr|].
  exact (@totalLines_counts_newlines RefHost threeLines sampleName
           sampleRun Hr).
Defined.

(** The witness of X2. *)
Lemma records_numbered_by_line_witness :
  parseLogFile threeLines sampleName = Ok sampleRun /\
  NoDup (map id (entries sampleRun)).
Proof.
  pose proof sampleRun_Ok as Hr. split; [exact Hr|].
  exact (proj2 (proj2 (@records_numbered_by_line RefHost threeLines
                         sampleName sampleRun Hr))).
Defined.

(** The witness of X3. *)
Lemma detectedFormat_of_last_line_witness :
  parseLogFile threeLines sampleName = Ok sampleRun /\
  split_lines threeLines = sampleBefore ++ sampleLast :: [] /\
  nonEmpty (trim sampleLast) = true /\
  formatOf (parseLogFile (H := RefHost) (trim sampleLast) sampleName)
    = Some (detectedFormat sampleRun).
Proof.
  pose proof sampleRun_Ok as Hr.
  assert (Hl : split_lines threeLines = sampleBefore ++ sampleLast :: [])
    by (vm_compute; reflexivity).
  assert (Hn : nonEmpty (trim sampleLast) = true) by (vm_compute; reflexivity).
  split; [exact Hr|]. split; [exact Hl|]. split; [exact Hn|].
  exact (@detectedFormat_of_last_line RefHost threeLines sampleName sampleRun
           sampleBefore sampleLast [] Hr Hl Hn (Forall_nil _)).
Defined.

(* ================================================================== *)
(** * The level heuristic *)

Unset Implicit Arguments.

Section LevelFacts.

Lemma startsWith_spec s p : startsWith s p = true <-> exists b, s = p ++ b.
Proof.
  revert s. induction p as [|x p IH]; intros s; simpl.
  - split; [intros _; exists s; reflexivity|destruct s; reflexivity].
  - destruct s as [|y s]; simpl.
    + split; [discriminate|intros [b Hb]; discriminate].
    + rewrite andb_true_iff, Ascii.eqb_eq, IH. split.
      * intros [-> [b ->]]. exists b. reflexivity.
      * intros [b Hb]. inversion Hb. split; [reflexivity|].
        exists b. reflexivity.
Qed.

(** [includes] is the search for a part of the text. *)
Lemma includes_spec s p : includes s p = true <-> occursIn p s.
Proof.
  unfold occursIn. induction s as [|c s IH].
  - cbn [includes]. rewrite orb_false_r, startsWith_spec. split.
    + intros [b Hb]. exists [], b. exact Hb.
    + intros (a & b & Hab). destruct a as [|x a]; [|discriminate].
      exists b. exact Hab.
  - cbn [includes]. rewrite orb_true_iff, startsWith_spec, IH. split.
    + intros [[b Hb]|(a & b & Hab)].
      * exists [], b. exact Hb.
      * exists (c :: a), b. rewrite Hab. reflexivity.
    + intros (a & b & Hab). destruct a as [|x a].
      * left. exists b. exact Hab.
      * right. inversion Hab. exists a, b. reflexivity.
Qed.

Lemma find_before (f : str -> bool) ls l :
  find f ls = Some l <->
  In l ls /\ f l = true /\ forall h, In h (before l ls) -> f h = false.
Proof.
  induction ls as [|x ls IH]; simpl.
  - split; [discriminate|intros [[] _]].
  - destruct (str_eqb x l) eqn:E.
    + apply str_eqb_eq in E. subst x. split.
      * destruct (f l) eqn:F; [|intros Hf; apply IH in Hf;
                                 destruct Hf as (_ & F' & _); congruence].
        intros _. repeat split; auto. intros h [].
      * intros (_ & F & _). rewrite F. reflexivity.
    + assert (Hne : x <> l).
      { intros ->. assert (T : str_eqb l l = true) by (apply str_eqb_eq; auto).
        congruence. }
      split.
      * destruct (f x) eqn:F; [intros Hf; inversion Hf; congruence|].
        intros Hf. apply IH in Hf. destruct Hf as (Hin & Fl & Hb).
        repeat split; auto. intros h [<-|Hh]; auto.
      * intros ([Hx|Hin] & Fl & Hb); [congruence|].
        rewrite (Hb x (or_introl eq_refl)). apply IH. repeat split; auto.
        intros h Hh. apply Hb. right. exact Hh.
Qed.

Lemma levels_nonEmpty l : In l levels -> nonEmpty l = true.
Proof.
  intros Hin. simpl in Hin.
  repeat (destruct Hin as [<-|Hin]; [reflexivity|]). destruct Hin.
Qed.

Lemma before_incl l ls h : In h (before l ls) -> In h ls.
Proof.
  induction ls as [|x ls IH]; simpl; [tauto|].
  destruct (str_eqb x l); simpl; [tauto|]. intros [->|Hh]; auto.
Qed.

(** X4.  The heuristic returns the first of FATAL, ERROR, WARN, INFO,
    DEBUG, TRACE that occurs anywhere in the upper-cased text, and
    nothing when none occurs: its result is [l] exactly when [l] is one
    of the six names, occurs in the upper-cased text, and no name
    before it in that order occurs. *)
Theorem detectLogLevel_first_name text l :
  detectLogLevel text = Some l <->
  In l levels /\ occursIn l (toUpperCase text) /\
  forall h, In h (before l levels) -> ~ occursIn h (toUpperCase text).
Proof.
  unfold detectLogLevel. rewrite find_before. split.
  - intros (Hin & Hf & Hb). split; [exact Hin|].
    rewrite (levels_nonEmpty l Hin), andb_true_l in Hf.
    split; [apply includes_spec, Hf|].
    intros h Hh Ho. specialize (Hb h Hh).
    rewrite (levels_nonEmpty h (before_incl _ _ _ Hh)), andb_true_l in Hb.
    apply includes_spec in Ho. congruence.
  - intros (Hin & Ho & Hb). split; [exact Hin|].
    rewrite (levels_nonEmpty l Hin), andb_true_l.
    split; [apply includes_spec, Ho|].
    intros h Hh.
    rewrite (levels_nonEmpty h (before_incl _ _ _ Hh)), andb_true_l.
    destruct (includes (toUpperCase text) h) eqn:E; [|reflexivity].
    exfalso. apply (Hb h Hh). apply includes_spec, E.
Qed.

Lemma upperChar_idem c : upperChar (upperChar c) = upperChar c.
Proof. destruct c as [[] [] [] [] [] [] [] []]; reflexivity. Qed.

Lemma upperChar_lowerChar c : upperChar (lowerChar c) = upperChar c.
Proof. destruct c as [[] [] [] [] [] [] [] []]; reflexivity. Qed.

Lemma lowerChar_upperChar c : lowerChar (upperChar c) = lowerChar c.
Proof. destruct c as [[] [] [] [] [] [] [] []]; reflexivity. Qed.

Lemma isLower_upperChar c : isLower (upperChar c) = false.
Proof. destruct c as [[] [] [] [] [] [] [] []]; reflexivity. Qed.

Lemma toUpperCase_idem s : toUpperCase (toUpperCase s) = toUpperCase s.
Proof.
  unfold toUpperCase. rewrite map_map. apply map_ext, upperChar_idem.
Qed.

Lemma toUpperCase_toLowerCase s : toUpperCase (toLowerCase s) = toUpperCase s.
Proof.
  unfold toUpperCase, toLowerCase. rewrite map_map.
  apply map_ext, upperChar_lowerChar.
Qed.

Lemma toLowerCase_toUpperCase s : toLowerCase (toUpperCase s) = toLowerCase s.
Proof.
  unfold toUpperCase, toLowerCase. rewrite map_map.
  apply map_ext, lowerChar_upperChar.
Qed.

Lemma isAscii_upperChar c : isAscii c = true -> isAscii (upperChar c) = true.
Proof. destruct c as [[] [] [] [] [] [] [] []]; vm_compute; congruence. Qed.

Lemma isAscii_lowerChar c : isAscii c = true -> isAscii (lowerChar c) = true.
Proof. destruct c as [[] [] [] [] [] [] [] []]; vm_compute; congruence. Qed.

Lemma asciiText_case s :
  asciiText s -> asciiText (toUpperCase s) /\ asciiText (toLowerCase s).
Proof.
  unfold asciiText, toUpperCase, toLowerCase. intros Hs.
  split; apply Forall_map; (eapply Forall_impl; [|exact Hs]); cbv beta.
  - exact isAscii_upperChar.
  - exact isAscii_lowerChar.
Qed.

(** X5.  On a text of ASCII characters the heuristic does not depend
    on the letter case of the text, nor on where the name stands: the
    text in lower case and the text in upper case are texts of ASCII
    characters that get the level of the text, and a text in which
    [fatal] occurs, in any letter case and among any other words, gets
    FATAL. *)
Theorem detectLogLevel_ignores_case text :
  asciiText text ->
  (asciiText (toLowerCase text) /\
   detectLogLevel (toLowerCase text) = detectLogLevel text) /\
  (asciiText (toUpperCase text) /\
   detectLogLevel (toUpperCase text) = detectLogLevel text) /\
  (forall a w b, text = a ++ w ++ b -> toUpperCase w = lit "FATAL" ->
     detectLogLevel text = Some (lit "FATAL")).
Proof.
  intros Hascii. destruct (asciiText_case text Hascii) as [Hup Hlow].
  split; [split; [exact Hlow|]|split; [split; [exact Hup|]|]];
    unfold detectLogLevel;
    try (rewrite ?toUpperCase_toLowerCase, ?toUpperCase_idem; reflexivity).
  intros a w b -> Hw.
  assert (Hi : includes (toUpperCase (a ++ w ++ b)) (lit "FATAL") = true).
  { apply includes_spec. exists (toUpperCase a), (toUpperCase b).
    unfold toUpperCase in *. rewrite !map_app, Hw. reflexivity. }
  cbn [levels find nonEmpty lit list_ascii_of_string andb].
  cbn [lit list_ascii_of_string] in Hi. rewrite Hi. reflexivity.
Qed.

End LevelFacts.

(** The witness of X5. *)
Lemma detectLogLevel_ignores_case_witness :
  asciiText (lit "a Fatal error") /\
  lit "a Fatal error" = lit "a " ++ lit "Fatal" ++ lit " error" /\
  toUpperCase (lit "Fatal") = lit "FATAL" /\
  detectLogLevel (lit "a Fatal error") = Some (lit "FATAL") /\
  detectLogLevel (toLowerCase (lit "a Fatal error"))
  = detectLogLevel (lit "a Fatal error").
Proof.
  assert (H0 : asciiText (lit "a Fatal error"))
    by (repeat constructor).
  assert (H1 : lit "a Fatal error" = lit "a " ++ lit "Fatal" ++ lit " error")
    by reflexivity.
  assert (H2 : toUpperCase (lit "Fatal") = lit "FATAL") by reflexivity.
  split; [exact H0|]. split; [exact H1|]. split; [exact H2|].
  split.
  - exact (proj2 (proj2 (detectLogLevel_ignores_case (lit "a Fatal error")
                           H0)) _ _ _ H1 H2).
  - exact (proj2 (proj1 (detectLogLevel_ignores_case (lit "a Fatal error")
                           H0))).
Defined.

(* ================================================================== *)
(** * What the patterns capture *)

Section ClassFacts.

Lemma Forall_chars_app (P : ascii -> bool) w1 w2 :
  Forall (fun c => P c = true) w1 -> Forall (fun c => P c = true) w2 ->
  Forall (fun c => P c = true) (w1 ++ w2).
Proof. intros H1 H2. apply Forall_app. split; assumption. Qed.

Lemma Forall_bool_impl (P Q : ascii -> bool) w :
  (forall c, P c = true -> Q c = true) ->
  Forall (fun c => P c = true) w -> Forall (fun c => Q c = true) w.
Proof. intros HPQ. apply Forall_impl. exact HPQ. Qed.

Lemma capIn_impl (r r' : regex) new :
  (forall i c, groupChars i r c = true -> groupChars i r' c = true) ->
  Forall (capIn r) new -> Forall (capIn r') new.
Proof.
  intros Hg. apply Forall_impl. intros p. unfold capIn.
  apply Forall_impl. intros c. apply Hg.
Qed.

Lemma must_sound2 a lo hi once :
  sound2 a once ->
  forall n st k res, must once n st k = Some res ->
    exists st' w new,
      k st' = Some res /\ link w new st st' /\
      Forall (fun c => chars a c = true) w /\
      Forall (capIn (Quant lo hi a)) new /\
      (forall i, 1 <= n -> assigns i a = true -> In i (map fst new)).
Proof.
  intros Hs. induction n as [|n IH]; simpl; intros st k res Hm.
  - exists st, [], []. repeat split; auto. intros i Hn. lia.
  - apply Hs in Hm.
    destruct Hm as (st1 & w1 & n1 & Hk & L1 & C1 & F1 & A1).
    apply IH in Hk.
    destruct Hk as (st2 & w2 & n2 & Hk & L2 & C2 & F2 & A2).
    exists st2, (w1 ++ w2), (n2 ++ n1). split; [exact Hk|].
    split; [eapply link_trans; eauto|]. split; [|split].
    + apply Forall_chars_app; assumption.
    + apply Forall_app. split; [exact F2|exact F1].
    + intros i _ Hi. rewrite map_app. apply in_or_app. right.
      apply A1, Hi.
Qed.

Lemma more_sound2 a lo hi once :
  sound2 a once ->
  forall n st k res, more once n st k = Some res ->
    exists st' w new,
      k st' = Some res /\ link w new st st' /\
      Forall (fun c => chars a c = true) w /\
      Forall (capIn (Quant lo hi a)) new.
Proof.
  intros Hs. induction n as [|n IH]; simpl; intros st k res Hm.
  - exists st, [], []. repeat split; auto.
  - destruct (once st _) as [res0|] eqn:E.
    + inversion Hm; subst res0. clear Hm.
      apply Hs in E.
      destruct E as (st1 & w1 & n1 & Hk & L1 & C1 & F1 & A1).
      destruct (length (rest st1) <? length (rest st)); [|discriminate].
      apply IH in Hk.
      destruct Hk as (st2 & w2 & n2 & Hk & L2 & C2 & F2).
      exists st2, (w1 ++ w2), (n2 ++ n1). split; [exact Hk|].
      split; [eapply link_trans; eauto|]. split.
      * apply Forall_chars_app; assumption.
      * apply Forall_app. split; [exact F2|exact F1].
    + exists st, [], []. repeat split; auto.
Qed.

(** The matcher reads characters of the classes of the pattern, a group
    captures characters of its own classes, and a group that every
    match goes through is captured. *)
Lemma rmatch_sound2 r : sound2 r (rmatch r).
Proof.
  induction r as [|cs|a IHa b IHb|i a IHa|lo hi a IHa| |];
    intros st k res Hm; simpl in Hm.
  - exists st, [], []. repeat split; auto. intros i Hi. discriminate.
  - destruct st as [sn rs cp]. simpl in Hm.
    destruct rs as [|c t]; [discriminate|].
    destruct (cset_mem cs c) eqn:Ec; [|discriminate].
    exists (MState (c :: sn) t cp), [c], []. repeat split; auto.
    discriminate.
  - apply IHa in Hm.
    destruct Hm as (st1 & w1 & n1 & Hk & L1 & C1 & F1 & A1).
    apply IHb in Hk.
    destruct Hk as (st2 & w2 & n2 & Hk & L2 & C2 & F2 & A2).
    exists st2, (w1 ++ w2), (n2 ++ n1). split; [exact Hk|].
    split; [eapply link_trans; eauto|]. split; [|split].
    + apply Forall_chars_app.
      * eapply Forall_bool_impl; [|exact C1]. intros c Hc. simpl.
        rewrite Hc. reflexivity.
      * eapply Forall_bool_impl; [|exact C2]. intros c Hc. simpl.
        rewrite Hc. apply orb_true_r.
    + apply Forall_app. split.
      * eapply capIn_impl; [|exact F2]. intros i c Hc. simpl.
        rewrite Hc. apply orb_true_r.
      * eapply capIn_impl; [|exact F1]. intros i c Hc. simpl.
        rewrite Hc. reflexivity.
    + intros i Hi. simpl in Hi. rewrite map_app. apply in_or_app.
      apply orb_true_iff in Hi. destruct Hi as [Hi|Hi]; [right|left]; auto.
  - apply IHa in Hm.
    destruct Hm as (st1 & w1 & n1 & Hk & L1 & C1 & F1 & A1).
    exists (set_cap i (captured st st1) st1), w1,
      ((i, captured st st1) :: n1).
    split; [exact Hk|]. split; [apply link_set_cap; exact L1|].
    split; [exact C1|]. split.
    + constructor.
      * unfold capIn. cbn [fst snd]. rewrite (captured_link L1).
        eapply Forall_bool_impl; [|exact C1]. intros c Hc. simpl.
        rewrite Nat.eqb_refl, Hc. reflexivity.
      * eapply capIn_impl; [|exact F1]. intros j c Hc. simpl.
        rewrite Hc. apply orb_true_r.
    + intros j Hj. simpl in Hj. simpl.
      apply orb_true_iff in Hj. destruct Hj as [Hj|Hj].
      * left. apply Nat.eqb_eq in Hj. congruence.
      * right. apply A1, Hj.
  - apply (must_sound2 a lo hi _ IHa) in Hm.
    destruct Hm as (st1 & w1 & n1 & Hk & L1 & C1 & F1 & A1).
    apply (more_sound2 a lo hi _ IHa) in Hk.
    destruct Hk as (st2 & w2 & n2 & Hk & L2 & C2 & F2).
    exists st2, (w1 ++ w2), (n2 ++ n1). split; [exact Hk|].
    split; [eapply link_trans; eauto|]. split; [|split].
    + apply Forall_chars_app; assumption.
    + apply Forall_app. split; assumption.
    + intros i Hi. cbn [assigns] in Hi. apply andb_true_iff in Hi.
      destruct Hi as [Hlo Hi]. apply Nat.leb_le in Hlo.
      rewrite map_app. apply in_or_app. right. apply A1; assumption.
  - destruct (seen st) eqn:E; [|discriminate].
    exists st, [], []. repeat split; auto. discriminate.
  - destruct (rest st) eqn:E; [|discriminate].
    exists st, [], []. repeat split; auto. discriminate.
Qed.

Lemma exec_caps2 r line m :
  exec r line = Some m ->
  Forall (capIn (Group 0 r)) (caps m) /\
  (forall i, assigns i (Group 0 r) = true -> In i (map fst (caps m))).
Proof.
  unfold exec. intros Hm. apply exec_from_match_at in Hm.
  destruct Hm as (pre & post & Hm & _). unfold match_at in Hm.
  apply rmatch_sound2 in Hm.
  destruct Hm as (st' & w & new & Hk & (_ & _ & C) & _ & F & A).
  inversion Hk; subst. rewrite C. simpl. rewrite app_nil_r. auto.
Qed.

Lemma assoc_nat_Some i l : In i (map fst l) -> exists s, assoc_nat i l = Some s.
Proof.
  induction l as [|[j t] l IH]; simpl; [intros []|].
  destruct (Nat.eqb_spec i j) as [->|Hne].
  - intros _. exists t. reflexivity.
  - intros [E|Hin]; [congruence|]. apply IH, Hin.
Qed.

(** A group that every match goes through has a capture. *)
Lemma exec_group_assigned r line m i :
  exec r line = Some m -> assigns i (Group 0 r) = true ->
  exists s, group m i = Some s.
Proof.
  intros Hm Ha. apply exec_caps2 in Hm. destruct Hm as [_ A].
  apply assoc_nat_Some, A, Ha.
Qed.

(** A capture is made of characters that its group accepts. *)
Lemma exec_group_chars r line m i s :
  exec r line = Some m -> group m i = Some s ->
  Forall (fun c => groupChars i (Group 0 r) c = true) s.
Proof.
  intros Hm Hg. apply exec_caps2 in Hm. destruct Hm as [F _].
  apply assoc_nat_In in Hg. rewrite Forall_forall in F.
  exact (F _ Hg).
Qed.

Lemma assignedPattern_all : forallb assignedPattern LOG_PATTERNS = true.
Proof. reflexivity. Qed.

End ClassFacts.

(* ================================================================== *)
(** * The message and the level of a record *)

Section FieldFacts.

Context {H : Host}.

Lemma assignedPattern_message p m line :
  In p LOG_PATTERNS -> exec (regex_of p) line = Some m ->
  forall i, g_message (groups_of p) = Some i -> exists s, group m i = Some s.
Proof.
  intros Hin Hm i Hg. pose proof assignedPattern_all as Hall.
  rewrite forallb_forall in Hall. specialize (Hall p Hin).
  unfold assignedPattern in Hall. rewrite Hg in Hall.
  repeat (apply andb_true_iff in Hall; destruct Hall as [Hall ?]).
  eapply exec_group_assigned; eauto.
Qed.

Lemma classify_message line n e f :
  classify line n = (e, f) -> exists s, message e = Some s.
Proof.
  intros Hc. apply classify_cases in Hc.
  destruct Hc as [[Hj _]|[Hp|(_ & -> & _)]].
  - apply parseJsonLog_inv in Hj.
    destruct Hj as (j & _ & _ & _ & _ & _ & _ & s & _ & Hm). eauto.
  - apply tryPatterns_inv in Hp.
    destruct Hp as (p & m & Hin & Hm & -> & _). cbn [patternEntry message].
    destruct (g_message (groups_of p)) as [i|] eqn:G; [|eauto].
    eapply assignedPattern_message; eauto.
  - simpl. eauto.
Qed.

Lemma classify_metadata line n e f :
  classify line n = (e, f) -> isSome (metadata e) = true ->
  present (message e) = true.
Proof.
  intros Hc. apply classify_cases in Hc.
  destruct Hc as [[Hj _]|[Hp|(_ & -> & _)]].
  - apply parseJsonLog_inv in Hj.
    destruct Hj as (j & _ & _ & _ & _ & _ & _ & s & _ & Hm).
    intros _. rewrite Hm. simpl.
    destruct (nonEmpty s) eqn:N; [exact N|reflexivity].
  - apply tryPatterns_inv in Hp.
    destruct Hp as (p & m & _ & _ & -> & _). simpl. discriminate.
  - simpl. discriminate.
Qed.

(** X6.  Every record of a run has a message, and the message of a
    record that carries metadata is not empty. *)
Theorem records_have_message content fn r :
  parseLogFile content fn = Ok r ->
  Forall (fun e => (exists s, message e = Some s) /\
                   (isSome (metadata e) = true ->
                    present (message e) = true)) (entries r).
Proof.
  intros Hr. apply parseLogFile_produced in Hr. destruct Hr as [Hp _].
  apply Forall_forall. intros e Hin.
  destruct (@produced_In _ _ _ _ _ _ _ Hp Hin)
    as (l & n & e0 & f1 & _ & _ & Hc & He).
  apply enrich_cases in He. destruct He as [->|(_ & x & _ & Ha)].
  - split; [eapply classify_message; eauto|eapply classify_metadata; eauto].
  - apply applyExtracted_frame in Ha.
    destruct Ha as (_ & _ & _ & _ & _ & _ & _ & _ & Hm).
    split; [|intros _; exact Hm].
    destruct (message e) as [s|]; [eauto|discriminate].
Qed.

Lemma enrich_keeps_level e e' :
  enrich e = Ok e' -> present (level e) = true -> level e' = level e.
Proof.
  intros He Hl. apply enrich_cases in He.
  destruct He as [->|(_ & x & _ & Ha)]; [reflexivity|].
  apply applyExtracted_frame in Ha. apply Ha, Hl.
Qed.

Lemma capitals_only c :
  groupChars 2 (Group 0 re_iso) c = true \/
  groupChars 2 (Group 0 re_standard) c = true -> isUpper c = true.
Proof.
  destruct c as [[] [] [] [] [] [] [] []]; vm_compute;
    intros [E|E]; congruence.
Qed.

Lemma digits_only c :
  groupChars 4 (Group 0 re_apache) c = true -> isDigit c = true.
Proof.
  destruct c as [[] [] [] [] [] [] [] []]; vm_compute; congruence.
Qed.

Lemma isUpper_upperChar c : isUpper c = true -> upperChar c = c.
Proof. destruct c as [[] [] [] [] [] [] [] []]; vm_compute; congruence. Qed.

Lemma isDigit_upperChar c : isDigit c = true -> upperChar c = c.
Proof. destruct c as [[] [] [] [] [] [] [] []]; vm_compute; congruence. Qed.

Lemma toUpperCase_fixed (P : ascii -> bool) s :
  (forall c, P c = true -> upperChar c = c) ->
  Forall (fun c => P c = true) s -> toUpperCase s = s.
Proof.
  intros HP. induction 1 as [|c s Hc _ IH]; [reflexivity|].
  unfold toUpperCase in *. cbn [map]. rewrite (HP c Hc), IH.
  reflexivity.
Qed.

Lemma named_pattern p f :
  In p LOG_PATTERNS -> name p = f ->
  (f = lit "ISO with level" ->
   regex_of p = re_iso /\ g_level (groups_of p) = Some 2) /\
  (f = lit "Standard format" ->
   regex_of p = re_standard /\ g_level (groups_of p) = Some 2) /\
  (f = lit "Apache access" ->
   regex_of p = re_apache /\ g_level (groups_of p) = Some 4).
Proof.
  intros Hin <-. simpl in Hin.
  repeat (destruct Hin as [<-|Hin];
          [repeat split; simpl; try reflexivity; discriminate|]).
  destruct Hin.
Qed.

Lemma digits_not_level l :
  l <> [] -> Forall (fun c => isDigit c = true) l -> ~ In l levels.
Proof.
  intros Hne HF Hin. simpl in Hin.
  repeat (destruct Hin as [<-|Hin];
          [inversion HF as [|c s Hc _]; vm_compute in Hc; discriminate|]).
  destruct Hin.
Qed.

(** The level of an entry that the pattern [p] builds from its level
    group: the capture itself when the group has capitals or digits
    only. *)
Lemma captured_level p m line n i (P : ascii -> bool) :
  In p LOG_PATTERNS -> exec (regex_of p) line = Some m ->
  g_level (groups_of p) = Some i ->
  (forall c, groupChars i (Group 0 (regex_of p)) c = true -> P c = true) ->
  (forall c, P c = true -> upperChar c = c) ->
  exists l, group m i = Some l /\
            level (patternEntry (groups_of p) m line n) = Some l /\
            l <> [] /\ Forall (fun c => P c = true) l.
Proof.
  intros Hin Hm Hg HP Hup.
  pose proof assignedPattern_all as Hall.
  rewrite forallb_forall in Hall. specialize (Hall p Hin).
  unfold assignedPattern in Hall. rewrite Hg in Hall.
  repeat (apply andb_true_iff in Hall; destruct Hall as [Hall ?]).
  assert (Ha : assigns i (Group 0 (regex_of p)) = true).
  { cbn [assignedField] in *.
    match goal with HA : assigns i _ = true |- _ => exact HA end. }
  destruct (exec_group_assigned _ _ _ _ Hm Ha) as [s Hs].
  pose proof (exec_group_chars _ _ _ _ _ Hm Hs) as Hc.
  assert (HPs : Forall (fun c => P c = true) s).
  { eapply Forall_impl; [|exact Hc]. exact HP. }
  exists s. split; [exact Hs|].
  cbn [patternEntry level]. rewrite Hg, Hs. simpl.
  rewrite (toUpperCase_fixed P s Hup HPs).
  split; [reflexivity|]. split; [|exact HPs].
  destruct (@patternEntry_present _ p m line n Hin Hm) as [Hl _].
  cbn [patternEntry level] in Hl. rewrite Hg, Hs in Hl. simpl in Hl.
  rewrite (toUpperCase_fixed P s Hup HPs) in Hl. apply Hl. reflexivity.
Qed.

End FieldFacts.

(** The witness of X6. *)
Lemma records_have_message_witness :
  parseLogFile threeLines sampleName = Ok sampleRun /\
  Forall (fun e : LogEntry (H := RefHost) =>
            (exists s, message e = Some s) /\
            (isSome (metadata e) = true -> present (message e) = true))
         (entries sampleRun).
Proof.
  pose proof sampleRun_Ok as Hr. split; [exact Hr|].
  exact (@records_have_message RefHost threeLines sampleName sampleRun Hr).
Defined.

(* ================================================================== *)
(** * The vocabulary of levels *)

Section VocabularyFacts.

Context {H : Host}.

Lemma levels_upper l : In l levels -> toUpperCase l = l.
Proof.
  intros Hin. simpl in Hin.
  repeat (destruct Hin as [<-|Hin]; [reflexivity|]). destruct Hin.
Qed.

Lemma detectLogLevel_In text l : detectLogLevel text = Some l -> In l levels.
Proof.
  unfold detectLogLevel. intros Hf. apply find_some in Hf. apply Hf.
Qed.

Lemma coerceLevel_In v l : coerceLevel v = Ok (Some l) -> In l levels.
Proof.
  unfold coerceLevel. destruct (truthy_opt v); cbn [negb]; [|discriminate].
  intros Hb. bind_inv Hb.
  destruct (existsb (str_eqb (toUpperCase a)) levels) eqn:Ex;
    [|discriminate].
  apply existsb_exists in Ex. destruct Ex as (x & Hin & Hx).
  apply str_eqb_eq in Hx. replace l with x by congruence. exact Hin.
Qed.

Lemma applyExtracted_level e x e' :
  applyExtracted e x = Ok e' ->
  level e' = level e \/
  (present (level e) = false /\
   exists v l, pick (ex_json x) levelKeys = Ok v /\
               coerceLevel v = Ok (Some l) /\ level e' = Some l).
Proof.
  unfold applyExtracted. intros Hb. do 5 bind_inv Hb.
  inversion Hb; subst e'; simpl. clear Hb.
  destruct (present (level e)) eqn:P; simpl in E0.
  - inversion E0. left. reflexivity.
  - bind_inv E0. bind_inv E0. inversion E0.
    destruct (present a5) eqn:P5; [|left; reflexivity].
    right. split; [reflexivity|]. destruct a5 as [l|]; [|discriminate].
    exists a4, l. auto.
Qed.

(** X8.  The enrichment sets a level only where the entry has none, and
    only to one of the six names: the upper-cased text of the first of
    [level], [severity], [lvl] in the embedded object, when that is one
    of them; any other value leaves the entry without a level. *)
Theorem enrichment_level_in_vocabulary e0 e :
  enrich e0 = Ok e ->
  level e = level e0 \/
  (present (level e0) = false /\
   exists j v l, metadata e = Some j /\ pick j levelKeys = Ok v /\
                 coerceLevel v = Ok (Some l) /\
                 level e = Some l /\ In l levels).
Proof.
  intros He. apply enrich_cases in He.
  destruct He as [->|(_ & x & _ & Ha)]; [left; reflexivity|].
  pose proof (@applyExtracted_frame _ _ _ _ Ha)
    as (_ & _ & _ & _ & _ & _ & _ & Hm & _).
  apply applyExtracted_level in Ha.
  destruct Ha as [Hl|(P & v & l & Hp & Hc & Hl)]; [left; exact Hl|].
  right. split; [exact P|]. exists (ex_json x), v, l.
  repeat split; auto. eapply coerceLevel_In; eauto.
Qed.

Lemma enrichment_level_upper e0 e l :
  enrich e0 = Ok e ->
  (forall l0, level e0 = Some l0 -> toUpperCase l0 = l0) ->
  level e = Some l -> toUpperCase l = l.
Proof.
  intros He H0 Hl. apply enrich_cases in He.
  destruct He as [->|(_ & x & _ & Ha)]; [auto|].
  apply applyExtracted_level in Ha.
  destruct Ha as [E|(_ & v & l1 & _ & Hc & E)].
  - rewrite E in Hl. auto.
  - rewrite E in Hl. inversion Hl; subst l1.
    apply levels_upper. eapply coerceLevel_In; eauto.
Qed.

Lemma classify_level_upper line n e f l :
  classify line n = (e, f) -> level e = Some l -> toUpperCase l = l.
Proof.
  intros Hc Hl. apply classify_cases in Hc.
  destruct Hc as [[Hj _]|[Hp|(_ & -> & _)]].
  - apply parseJsonLog_inv in Hj.
    destruct Hj as (j & _ & _ & _ & _ & _ & Hlev & _).
    unfold levelOf in Hlev. bind_inv Hlev. rewrite Hl in Hlev.
    destruct a as [[]|]; inversion Hlev. apply toUpperCase_idem.
  - apply tryPatterns_inv in Hp.
    destruct Hp as (p & m & _ & _ & -> & _).
    cbn [patternEntry level] in Hl.
    destruct (g_level (groups_of p)) as [i|].
    + destruct (group m i) as [s|]; inversion Hl. apply toUpperCase_idem.
    + apply levels_upper. eapply detectLogLevel_In; eauto.
  - simpl in Hl. apply levels_upper. eapply detectLogLevel_In; eauto.
Qed.

(** X9.  Every level that a run stores is in upper case: whichever path
    made the record, upper-casing its level changes nothing, so no
    level contains a lower-case letter. *)
Theorem levels_are_upper_case content fn r :
  parseLogFile content fn = Ok r ->
  Forall (fun e => forall l, level e = Some l ->
                   toUpperCase l = l /\
                   Forall (fun c => isLower c = false) l) (entries r).
Proof.
  intros Hr. apply parseLogFile_produced in Hr. destruct Hr as [Hp _].
  apply Forall_forall. intros e Hin l Hl.
  assert (Hu : toUpperCase l = l).
  { destruct (@produced_In _ _ _ _ _ _ _ Hp Hin)
      as (l0 & n & e0 & f1 & _ & _ & Hc & He).
    apply enrichment_level_upper with (1 := He) (3 := Hl).
    intros l1. eapply classify_level_upper; eauto. }
  split; [exact Hu|]. rewrite <- Hu. unfold toUpperCase.
  apply Forall_forall. intros c Hc. apply in_map_iff in Hc.
  destruct Hc as (c0 & <- & _). apply isLower_upperChar.
Qed.

Lemma heuristic_pattern p :
  In p LOG_PATTERNS ->
  In (name p)
     [lit "Syslog format"; lit "Simple timestamp"; lit "Plain text"] ->
  g_level (groups_of p) = None.
Proof.
  intros Hin Hf. simpl in Hin.
  destruct Hin as [<-|[<-|[<-|[<-|[<-|[<-|[]]]]]]]; try reflexivity;
    exfalso; simpl in Hf; destruct Hf as [Hf|[Hf|[Hf|[]]]]; discriminate.
Qed.

(** X10.  Where no level is captured from the line, the level is one of
    the six names or absent: this holds for every record whose format
    is Syslog format, Simple timestamp or Plain text. *)
Theorem heuristic_formats_level_in_vocabulary line n e0 f e :
  classify line n = (e0, f) -> enrich e0 = Ok e ->
  In f [lit "Syslog format"; lit "Simple timestamp"; lit "Plain text"] ->
  forall l, level e = Some l -> In l levels.
Proof.
  intros Hc He Hf l Hl.
  assert (H0 : forall l0, level e0 = Some l0 -> In l0 levels).
  { intros l0 Hl0. apply classify_cases in Hc.
    destruct Hc as [[_ ->]|[Hp|(_ & -> & _)]].
    - simpl in Hf. repeat (destruct Hf as [Hf|Hf]; [discriminate|]).
      destruct Hf.
    - apply tryPatterns_inv in Hp.
      destruct Hp as (p & m & Hin & _ & -> & ->).
      cbn [patternEntry level] in Hl0.
      rewrite (heuristic_pattern p Hin Hf) in Hl0.
      eapply detectLogLevel_In; eauto.
    - simpl in Hl0. eapply detectLogLevel_In; eauto. }
  apply enrich_cases in He. destruct He as [->|(_ & x & _ & Ha)]; [auto|].
  apply applyExtracted_level in Ha.
  destruct Ha as [E|(_ & v & l1 & _ & Hcl & E)].
  - rewrite E in Hl. auto.
  - rewrite E in Hl. inversion Hl; subst l1. eapply coerceLevel_In; eauto.
Qed.

End VocabularyFacts.

(** The witness of X8. *)
Lemma enrichment_level_in_vocabulary_witness :
  enrich severityEntry = Ok severityEnriched /\
  (level severityEnriched = level severityEntry \/
   (present (level severityEntry) = false /\
    exists j v l, metadata severityEnriched = Some j /\
                  pick j levelKeys = Ok v /\
                  coerceLevel v = Ok (Some l) /\
                  level severityEnriched = Some l /\ In l levels)).
Proof.
  assert (He : enrich severityEntry = Ok severityEnriched)
    by (unfold severityEnriched; apply orElse_Ok; vm_compute; reflexivity).
  split; [exact He|].
  exact (@enrichment_level_in_vocabulary RefHost severityEntry
           severityEnriched He).
Defined.

(** The witness of X9. *)
Lemma levels_are_upper_case_witness :
  parseLogFile threeLines sampleName = Ok sampleRun /\
  Forall (fun e : LogEntry (H := RefHost) =>
            forall l, level e = Some l ->
            toUpperCase l = l /\ Forall (fun c => isLower c = false) l)
         (entries sampleRun).
Proof.
  pose proof sampleRun_Ok as Hr. split; [exact Hr|].
  exact (@levels_are_upper_case RefHost threeLines sampleName sampleRun Hr).
Defined.

(** The witness of X10. *)
Lemma heuristic_formats_level_in_vocabulary_witness :
  classify severityLine 1 = (severityEntry, lit "Plain text") /\
  enrich severityEntry = Ok severityEnriched /\
  level severityEnriched = Some (lit "ERROR") /\
  In (lit "ERROR") levels.
Proof.
  assert (Hc : classify severityLine 1 = (severityEntry, lit "Plain text"))
    by (unfold severityEntry; apply pair_snd; vm_compute; reflexivity).
  assert (He : enrich severityEntry = Ok severityEnriched)
    by (unfold severityEnriched; apply orElse_Ok; vm_compute; reflexivity).
  assert (Hl : level severityEnriched = Some (lit "ERROR"))
    by (vm_compute; reflexivity).
  split; [exact Hc|]. split; [exact He|]. split; [exact Hl|].
  exact (@heuristic_formats_level_in_vocabulary RefHost severityLine 1
           severityEntry (lit "Plain text") severityEnriched Hc He
           (or_intror (or_intror (or_introl eq_refl))) _ Hl).
Defined.

(* ================================================================== *)
(** * Where the captures stand *)

Section PartFacts.

Lemma occursIn_refl s : occursIn s s.
Proof. exists [], []. rewrite app_nil_r. reflexivity. Qed.

Lemma occursIn_trans a b c : occursIn a b -> occursIn b c -> occursIn a c.
Proof.
  intros (x & y & ->) (u & v & ->). exists (u ++ x), (y ++ v).
  rewrite <- !app_assoc. reflexivity.
Qed.

Lemma occursIn_app_l s w1 w2 : occursIn s w1 -> occursIn s (w1 ++ w2).
Proof.
  intros (x & y & ->). exists x, (y ++ w2). rewrite <- !app_assoc.
  reflexivity.
Qed.

Lemma occursIn_app_r s w1 w2 : occursIn s w2 -> occursIn s (w1 ++ w2).
Proof.
  intros (x & y & ->). exists (w1 ++ x), y. rewrite <- !app_assoc.
  reflexivity.
Qed.

Lemma occursIn_slice t a b : occursIn (slice t a b) t.
Proof.
  unfold slice. exists (firstn a t), (skipn (b - a) (skipn a t)).
  rewrite firstn_skipn, firstn_skipn. reflexivity.
Qed.

Lemma part_app w1 n1 w2 n2 :
  Forall (part w1) n1 -> Forall (part w2) n2 ->
  Forall (part (w1 ++ w2)) (n2 ++ n1).
Proof.
  intros H1 H2. apply Forall_app. split.
  - eapply Forall_impl; [|exact H2]. intros p. apply occursIn_app_r.
  - eapply Forall_impl; [|exact H1]. intros p. apply occursIn_app_l.
Qed.

Lemma must_part a once :
  sound3 a once ->
  forall n st k res, must once n st k = Some res ->
    exists st' w new,
      k st' = Some res /\ link w new st st' /\ Forall (part w) new.
Proof.
  intros Hs. induction n as [|n IH]; simpl; intros st k res Hm.
  - exists st, [], []. repeat split; auto.
  - apply Hs in Hm. destruct Hm as (st1 & w1 & n1 & Hk & L1 & P1 & _).
    apply IH in Hk. destruct Hk as (st2 & w2 & n2 & Hk & L2 & P2).
    exists st2, (w1 ++ w2), (n2 ++ n1). split; [exact Hk|].
    split; [eapply link_trans; eauto|]. apply part_app; assumption.
Qed.

Lemma more_part a once :
  sound3 a once ->
  forall n st k res, more once n st k = Some res ->
    exists st' w new,
      k st' = Some res /\ link w new st st' /\ Forall (part w) new.
Proof.
  intros Hs. induction n as [|n IH]; simpl; intros st k res Hm.
  - exists st, [], []. repeat split; auto.
  - destruct (once st _) as [res0|] eqn:E.
    + inversion Hm; subst res0. clear Hm.
      apply Hs in E. destruct E as (st1 & w1 & n1 & Hk & L1 & P1 & _).
      destruct (length (rest st1) <? length (rest st)); [|discriminate].
      apply IH in Hk. destruct Hk as (st2 & w2 & n2 & Hk & L2 & P2).
      exists st2, (w1 ++ w2), (n2 ++ n1). split; [exact Hk|].
      split; [eapply link_trans; eauto|]. apply part_app; assumption.
    + exists st, [], []. repeat split; auto.
Qed.

Lemma assoc_nat_app_Some i l1 l2 s :
  assoc_nat i l1 = Some s -> assoc_nat i (l1 ++ l2) = Some s.
Proof.
  induction l1 as [|[j t] l1 IH]; simpl; [discriminate|].
  destruct (Nat.eqb i j); auto.
Qed.

(** Every capture is a part of the text read, and a group that stands
    last before the anchor [$] reads up to the end. *)
Lemma rmatch_sound3 r : sound3 r (rmatch r).
Proof.
  induction r as [|cs|a IHa b IHb|i a IHa|lo hi a IHa| |];
    intros st k res Hm; simpl in Hm.
  - exists st, [], []. repeat split; auto; discriminate.
  - destruct st as [sn rs cp]. simpl in Hm.
    destruct rs as [|c t]; [discriminate|].
    destruct (cset_mem cs c); [|discriminate].
    exists (MState (c :: sn) t cp), [c], [].
    repeat split; auto; discriminate.
  - apply IHa in Hm.
    destruct Hm as (st1 & w1 & n1 & Hk & L1 & P1 & G1 & _ & _).
    apply IHb in Hk.
    destruct Hk as (st2 & w2 & n2 & Hk & L2 & P2 & _ & E2 & T2).
    exists st2, (w1 ++ w2), (n2 ++ n1). split; [exact Hk|].
    split; [eapply link_trans; eauto|].
    split; [apply part_app; assumption|].
    split; [discriminate|]. split; [discriminate|].
    intros i Hi. cbn [tailGroup] in Hi. apply orb_true_iff in Hi.
    destruct Hi as [Hi|Hi].
    + destruct (T2 i Hi) as (Hr & s & x & Hs & Hw). split; [exact Hr|].
      exists s, (w1 ++ x). split; [apply assoc_nat_app_Some, Hs|].
      rewrite Hw, app_assoc. reflexivity.
    + apply andb_true_iff in Hi. destruct Hi as [Hg He].
      destruct (E2 He) as (-> & -> & Hr). split; [exact Hr|].
      destruct (G1 i Hg) as [n' ->].
      exists w1, []. split; [|rewrite app_nil_r; reflexivity].
      simpl. rewrite Nat.eqb_refl. reflexivity.
  - apply IHa in Hm. destruct Hm as (st1 & w1 & n1 & Hk & L1 & P1 & _).
    exists (set_cap i (captured st st1) st1), w1,
      ((i, captured st st1) :: n1).
    split; [exact Hk|]. split; [apply link_set_cap; exact L1|].
    rewrite (captured_link L1).
    split; [constructor; [apply occursIn_refl|exact P1]|].
    split; [|split; discriminate].
    intros j Hj. cbn [isGroup] in Hj. apply Nat.eqb_eq in Hj. subst j.
    exists n1. reflexivity.
  - apply (must_part a _ IHa) in Hm.
    destruct Hm as (st1 & w1 & n1 & Hk & L1 & P1).
    apply (more_part a _ IHa) in Hk.
    destruct Hk as (st2 & w2 & n2 & Hk & L2 & P2).
    exists st2, (w1 ++ w2), (n2 ++ n1). split; [exact Hk|].
    split; [eapply link_trans; eauto|].
    split; [apply part_app; assumption|].
    split; [discriminate|]. split; discriminate.
  - destruct (seen st) eqn:E; [|discriminate].
    exists st, [], []. repeat split; auto; discriminate.
  - destruct (rest st) eqn:E; [|discriminate].
    exists st, [], []. repeat split; auto; discriminate.
Qed.

(** The groups of a successful [exec]: each is a part of the line, and
    the last group before the anchor [$] is the end of the line. *)
Lemma exec_parts r line m :
  exec r line = Some m ->
  (forall i s, group m i = Some s -> occursIn s line) /\
  (forall i, i <> 0 -> tailGroup i r = true ->
     exists s a, group m i = Some s /\ line = a ++ s).
Proof.
  unfold exec. intros Hm. apply exec_from_match_at in Hm.
  destruct Hm as (pre & post & Hm & Hline). simpl in Hline.
  unfold match_at in Hm. cbn [rmatch] in Hm. apply rmatch_sound3 in Hm.
  destruct Hm as (st' & w & new & Hk & L & P & _ & _ & T).
  inversion Hk; subst m. clear Hk. rewrite (captured_link L).
  destruct L as (_ & Hrest & Hcaps). cbn [rest caps] in Hrest, Hcaps.
  rewrite app_nil_r in Hcaps. unfold group. cbn [set_cap caps].
  rewrite Hcaps. rewrite <- Hline, Hrest. split.
  - intros i s Hg. apply occursIn_app_r, occursIn_app_l.
    apply assoc_nat_In in Hg. destruct Hg as [E|Hin].
    + inversion E. apply occursIn_refl.
    + rewrite Forall_forall in P. exact (P _ Hin).
  - intros i Hi Ht. destruct (T i Ht) as (Hr & s & a & Hs & Hw).
    exists s, (rev pre ++ a). split.
    + cbn [assoc_nat]. destruct (Nat.eqb_spec i 0); [contradiction|].
      exact Hs.
    + rewrite Hr, app_nil_r, Hw, app_assoc. reflexivity.
Qed.

Lemma tailMessage_all :
  forallb (fun p => str_eqb (name p) (lit "Apache access") || tailMessage p)
          LOG_PATTERNS = true.
Proof. reflexivity. Qed.

End PartFacts.

(* ================================================================== *)
(** * The level that a pattern captures *)

Section CapturedLevelFacts.

Context {H : Host}.

(** The entry of a line in one of the formats whose level group is
    [i]: the match of the pattern, the capture of the group, which is
    part of the line, and the level, which is that capture. *)
Lemma format_level line n e0 f e re i (P : ascii -> bool) :
  classify line n = (e0, f) -> enrich e0 = Ok e ->
  f <> lit "JSON format" -> f <> lit "Plain text" ->
  (forall p, In p LOG_PATTERNS -> name p = f ->
     regex_of p = re /\ g_level (groups_of p) = Some i) ->
  (forall c, groupChars i (Group 0 re) c = true -> P c = true) ->
  (forall c, P c = true -> upperChar c = c) ->
  exists m l, exec re line = Some m /\ group m i = Some l /\
    level e0 = Some l /\ level e = Some l /\ l <> [] /\
    Forall (fun c => P c = true) l /\ occursIn l line.
Proof.
  intros Hc He N1 N2 Hp HP Hup.
  apply classify_cases in Hc.
  destruct Hc as [[_ ->]|[Ht|(_ & _ & ->)]]; [congruence| |congruence].
  apply tryPatterns_inv in Ht.
  destruct Ht as (p & m & Hin & Hm & -> & Hn).
  destruct (Hp p Hin (eq_sym Hn)) as [Hre Hg]. subst re.
  destruct (captured_level p m line n i P Hin Hm Hg HP Hup)
    as (l & Hgl & Hl & Hne & HF).
  exists m, l. split; [exact Hm|]. split; [exact Hgl|].
  split; [exact Hl|]. split; [|split; [exact Hne|split; [exact HF|]]].
  - rewrite (enrich_keeps_level _ _ He); [exact Hl|].
    rewrite Hl. simpl. destruct l; [congruence|reflexivity].
  - exact (proj1 (exec_parts _ _ _ Hm) _ _ Hgl).
Qed.

(** X7.  The level of a record in the format ISO with level or Standard
    format is the second capture of the match of its pattern on the
    line: a part of the line, a non-empty run of capital letters, that
    neither the upper-casing nor the embedded object changes.  The
    level of a record in the format Apache access is the fourth
    capture of the match, the status code: a part of the line, a
    non-empty run of digits, and so none of the six level names. *)
Theorem pattern_level_is_the_capture line n e0 f e :
  classify line n = (e0, f) -> enrich e0 = Ok e ->
  (f = lit "ISO with level" ->
   exists m l, exec re_iso line = Some m /\ group m 2 = Some l /\
     level e0 = Some l /\ level e = Some l /\ l <> [] /\
     Forall (fun c => isUpper c = true) l /\ occursIn l line) /\
  (f = lit "Standard format" ->
   exists m l, exec re_standard line = Some m /\ group m 2 = Some l /\
     level e0 = Some l /\ level e = Some l /\ l <> [] /\
     Forall (fun c => isUpper c = true) l /\ occursIn l line) /\
  (f = lit "Apache access" ->
   exists m l, exec re_apache line = Some m /\ group m 4 = Some l /\
     level e0 = Some l /\ level e = Some l /\ l <> [] /\
     Forall (fun c => isDigit c = true) l /\ occursIn l line /\
     ~ In l levels).
Proof.
  intros Hc He. split; [|split]; intros Hf.
  - apply (format_level line n e0 f e re_iso 2 isUpper Hc He);
      try (subst f; discriminate).
    + intros p Hin Hn.
      exact (proj1 (named_pattern p f Hin Hn) Hf).
    + intros c Hg. apply capitals_only. left. exact Hg.
    + exact isUpper_upperChar.
  - apply (format_level line n e0 f e re_standard 2 isUpper Hc He);
      try (subst f; discriminate).
    + intros p Hin Hn.
      exact (proj1 (proj2 (named_pattern p f Hin Hn)) Hf).
    + intros c Hg. apply capitals_only. right. exact Hg.
    + exact isUpper_upperChar.
  - destruct (format_level line n e0 f e re_apache 4 isDigit Hc He)
      as (m & l & Hm & Hg & Hl0 & Hl & Hne & HF & Ho);
      try (subst f; discriminate).
    + intros p Hin Hn.
      exact (proj2 (proj2 (named_pattern p f Hin Hn)) Hf).
    + intros c Hg. apply digits_only. exact Hg.
    + exact isDigit_upperChar.
    + exists m, l. repeat (split; [assumption|]).
      apply digits_not_level; assumption.
Qed.

End CapturedLevelFacts.

(** The witness of X7. *)
Lemma pattern_level_is_the_capture_witness :
  classify levelledLine 1 = (levelledEntry, lit "ISO with level") /\
  enrich levelledEntry = Ok levelledEnriched /\
  exists m l, exec re_iso levelledLine = Some m /\ group m 2 = Some l /\
    level levelledEntry = Some l /\ level levelledEnriched = Some l /\
    l <> [] /\ Forall (fun c => isUpper c = true) l /\
    occursIn l levelledLine.
Proof.
  assert (Hc : classify levelledLine 1
               = (levelledEntry, lit "ISO with level"))
    by (unfold levelledEntry; apply pair_snd; vm_compute; reflexivity).
  assert (He : enrich levelledEntry = Ok levelledEnriched)
    by (unfold levelledEnriched; apply orElse_Ok; vm_compute; reflexivity).
  split; [exact Hc|]. split; [exact He|].
  exact (proj1 (@pattern_level_is_the_capture RefHost levelledLine 1
                  levelledEntry (lit "ISO with level") levelledEnriched
                  Hc He) eq_refl).
Defined.

(* ================================================================== *)
(** * Embedded objects *)

Section ObjectFacts.

Context {H : Host}.

Lemma reduce_inObject v f stk :
  inObject (reduce v (f :: stk)) = outerObj (isObjFrame f) stk.
Proof. destruct f; reflexivity. Qed.

Lemma start_value_inObject t f stk st :
  start_value t (f :: stk) = Some st ->
  inObject st = outerObj (isObjFrame f) stk.
Proof.
  destruct t; cbn [start_value]; try discriminate.
  - intros E; inversion E. reflexivity.
  - intros E; inversion E. reflexivity.
  - intros E; inversion E. apply reduce_inObject.
  - destruct (validNumber l); [|discriminate].
    intros E; inversion E. apply reduce_inObject.
  - destruct (word_value w); [|discriminate].
    intros E; inversion E. apply reduce_inObject.
Qed.

Lemma reduce_top v stk top :
  isObj v = top -> inObject (reduce v stk) = outerObj top stk.
Proof.
  intros Hv. destruct stk as [|f stk]; [exact Hv|apply reduce_inObject].
Qed.

(** A step of the parser stays inside the outermost object. *)
Lemma pstep_inObject st t st' :
  pstep st t = Some st' -> inObject st = true -> inObject st' = true.
Proof.
  destruct st as [stk|stk|acc stk|stk|acc stk|acc k stk|acc stk|v];
    cbn [pstep inObject].
  - destruct stk as [|f stk]; [discriminate|].
    intros Hs <-. eapply start_value_inObject; eauto.
  - intros Hs <-. destruct t;
      try (apply (start_value_inObject _ (FArr []) stk) in Hs; exact Hs).
    inversion Hs. apply reduce_top. reflexivity.
  - intros Hs <-. destruct t; try discriminate; inversion Hs.
    + apply reduce_top. reflexivity.
    + reflexivity.
  - intros Hs <-. destruct t; try discriminate; inversion Hs.
    + apply reduce_top. reflexivity.
    + reflexivity.
  - intros Hs <-. destruct t; try discriminate; inversion Hs. reflexivity.
  - intros Hs <-. destruct t; try discriminate; inversion Hs. reflexivity.
  - intros Hs <-. destruct t; try discriminate; inversion Hs.
    + apply reduce_top. reflexivity.
    + reflexivity.
  - discriminate.
Qed.

Lemma prun_inObject ts : forall st v,
  prun st ts = Some v -> inObject st = true -> isObj v = true.
Proof.
  induction ts as [|t ts IH]; intros st v; cbn [prun].
  - destruct st; try discriminate. intros E; inversion E. auto.
  - destruct (pstep st t) as [st'|] eqn:Es; [|discriminate].
    intros Hr Hi. eapply IH; eauto. eapply pstep_inObject; eauto.
Qed.

(** A text that begins with an opening brace parses to an object, if it
    parses. *)
Lemma JSON_parse_object s j :
  startsWith s (lit "{") = true -> JSON_parse s = Some j ->
  exists m, j = JObj m.
Proof.
  intros Hs. destruct s as [|c s]; [discriminate|].
  cbn [startsWith lit list_ascii_of_string] in Hs.
  apply andb_true_iff in Hs. destruct Hs as [Hc _].
  apply Ascii.eqb_eq in Hc. subst c.
  unfold JSON_parse. cbn [lex].
  change (lex_step LMain "{"%char) with (Some ([TLBrace], LMain)).
  cbv beta iota.
  destruct (lex LMain s) as [ts|]; cbn [option_map app]; [|discriminate].
  cbn [prun pstep start_value]. intros Hr.
  apply prun_inObject in Hr; [|reflexivity].
  destruct j; try discriminate. eauto.
Qed.

Lemma code_eq c n : (code c =? n) = true -> c = ascii_of_nat n.
Proof.
  intros E. apply Nat.eqb_eq in E. rewrite <- E. unfold code.
  symmetry. apply ascii_nat_embedding.
Qed.

Lemma scan_bounds s : forall i a b d j,
  scan s i a b d = Some j ->
  i <= j /\ j < i + length s /\ charAt s (j - i) = Some "}"%char.
Proof.
  unfold charAt.
  assert (Step : forall (s' : str) ch i j,
            S i <= j /\ j < S i + length s' /\
            nth_error s' (j - S i) = Some "}"%char ->
            i <= j /\ j < i + length (ch :: s') /\
            nth_error (ch :: s') (j - i) = Some "}"%char).
  { intros s' ch i j (B1 & B2 & B3). split; [lia|]. split; [simpl; lia|].
    replace (j - i) with (S (j - S i)) by lia. exact B3. }
  induction s as [|ch s IH]; intros i a b d j; cbn [scan]; [discriminate|].
  destruct a.
  - destruct b; [intros Hs; apply Step, (IH _ _ _ _ _ Hs)|].
    destruct (code ch =? 92); [intros Hs; apply Step, (IH _ _ _ _ _ Hs)|].
    destruct (code ch =? 34); intros Hs; apply Step, (IH _ _ _ _ _ Hs).
  - destruct (code ch =? 34); [intros Hs; apply Step, (IH _ _ _ _ _ Hs)|].
    destruct (code ch =? 125) eqn:E125;
      [|intros Hs; apply Step, (IH _ _ _ _ _ Hs)].
    cbv zeta.
    destruct (_ =? 0)%Z; [|intros Hs; apply Step, (IH _ _ _ _ _ Hs)].
    intros Hs. inversion Hs; subst j. split; [lia|]. split; [simpl; lia|].
    rewrite Nat.sub_diag. simpl. apply code_eq in E125. rewrite E125.
    reflexivity.
Qed.

(** A string literal without escapes is passed over, whatever braces
    it holds. *)
Lemma scan_literal w : forall s i b d,
  Forall (fun c => (code c =? 34) || (code c =? 92) = false) w ->
  scan (w ++ dquote :: s) i true false d
  = scan s (i + length w + 1) false b d \/ b = true.
Proof.
  induction w as [|c w IH]; intros s i b d HF.
  - destruct b; [right; reflexivity|left].
    cbn [app scan length]. change (code dquote =? 92) with false.
    change (code dquote =? 34) with true. cbv iota.
    rewrite Nat.add_0_r, Nat.add_1_r. reflexivity.
  - destruct b; [right; reflexivity|left].
    inversion HF as [|c' w' Hc Hw]; subst.
    apply orb_false_iff in Hc. destruct Hc as [H34 H92].
    cbn [app scan length]. rewrite H92, H34.
    destruct (IH s (S i) false d Hw) as [E|E]; [|discriminate].
    rewrite E. f_equal. lia.
Qed.

Lemma indexOf_Some s c : forall k,
  indexOf s c = Some k ->
  charAt s k = Some c /\ ~ In c (firstn k s) /\ k < length s.
Proof.
  unfold charAt. induction s as [|x s IH]; intros k; cbn [indexOf];
    [discriminate|].
  destruct (Ascii.eqb x c) eqn:E.
  - intros Hk. inversion Hk. apply Ascii.eqb_eq in E. subst x.
    simpl. split; [reflexivity|]. split; [tauto|lia].
  - destruct (indexOf s c) as [k'|]; [|discriminate].
    intros Hk. inversion Hk. destruct (IH k' eq_refl) as (B1 & B2 & B3).
    simpl. split; [exact B1|]. split; [|lia].
    intros [->|Hin]; [|tauto].
    rewrite Ascii.eqb_refl in E. discriminate.
Qed.

Lemma extract_inv text x :
  extractFirstJsonObject (Some text) = Some x ->
  indexOf text "{"%char = Some (ex_start x) /\
  scan (skipn (ex_start x) text) (ex_start x) false false 0%Z
    = Some (ex_end x) /\
  JSON_parse (slice text (ex_start x) (ex_end x + 1)) = Some (ex_json x).
Proof.
  unfold extractFirstJsonObject.
  destruct (negb (present (Some text))); [discriminate|].
  destruct (indexOf text "{"%char) as [k|] eqn:Ek; [|discriminate].
  destruct (scan (skipn k text) k false false 0%Z) as [i|] eqn:Ei;
    [|discriminate].
  destruct (JSON_parse (slice text k (i + 1))) as [j|] eqn:Ej;
    [|discriminate].
  intros E. inversion E; subst x. cbn [ex_start ex_end ex_json]. auto.
Qed.

Lemma startsWith_firstn c t k : startsWith (firstn (S k) (c :: t)) [c] = true.
Proof.
  cbn [firstn startsWith]. rewrite Ascii.eqb_refl.
  destruct (firstn k t); reflexivity.
Qed.

Lemma slice_brace t a b :
  a < b -> charAt t a = Some "{"%char ->
  startsWith (slice t a (b + 1)) (lit "{") = true.
Proof.
  unfold slice, charAt. intros Hlt Hc.
  pose proof (nth_error_skipn a t 0) as Hh.
  rewrite Nat.add_0_r, Hc in Hh.
  destruct (skipn a t) as [|c t']; [discriminate|].
  simpl in Hh. inversion Hh; subst c.
  replace (b + 1 - a) with (S (b - a)) by lia.
  apply startsWith_firstn.
Qed.

Lemma extract_bounds text x :
  extractFirstJsonObject (Some text) = Some x ->
  ex_start x < ex_end x /\ ex_end x < length text /\
  charAt text (ex_start x) = Some "{"%char /\
  charAt text (ex_end x) = Some "}"%char /\
  ~ In "{"%char (firstn (ex_start x) text).
Proof.
  intros Hx. apply extract_inv in Hx. destruct Hx as (Hi & Hs & Hj).
  apply indexOf_Some in Hi. destruct Hi as (Hc & Hfirst & Hlen).
  apply scan_bounds in Hs. destruct Hs as (Hle & Hlt & Hend).
  unfold charAt in *. rewrite nth_error_skipn in Hend.
  replace (ex_start x + (ex_end x - ex_start x)) with (ex_end x) in Hend
    by lia.
  rewrite length_skipn in Hlt.
  assert (Hne : ex_start x <> ex_end x).
  { intros E. rewrite E in Hc. rewrite Hc in Hend. discriminate. }
  split; [lia|]. split; [lia|]. auto.
Qed.

Lemma extract_object text x :
  extractFirstJsonObject (Some text) = Some x ->
  JSON_parse (slice text (ex_start x) (ex_end x + 1)) = Some (ex_json x) /\
  exists m, ex_json x = JObj m.
Proof.
  intros Hx. destruct (extract_bounds text x Hx) as (Hlt & Hlen & Hc & _).
  apply extract_inv in Hx. destruct Hx as (_ & _ & Hj).
  split; [exact Hj|]. eapply JSON_parse_object; [|exact Hj].
  apply slice_brace; assumption.
Qed.

(** X12.  What [extractFirstJsonObject] returns: the text from the
    first opening brace of the message to a closing brace after it
    parses to the value returned, which is an object; no brace stands
    before the start, and both ends lie within the text.  While it
    looks for the closing brace, a string literal without escapes is
    passed over, whatever braces it holds. *)
Theorem extraction_is_first_object text x :
  extractFirstJsonObject (Some text) = Some x ->
  (ex_start x < ex_end x /\ ex_end x < length text /\
   charAt text (ex_start x) = Some "{"%char /\
   charAt text (ex_end x) = Some "}"%char /\
   ~ In "{"%char (firstn (ex_start x) text)) /\
  (JSON_parse (slice text (ex_start x) (ex_end x + 1)) = Some (ex_json x) /\
   exists m, ex_json x = JObj m) /\
  (forall w s i d,
     Forall (fun c => (code c =? 34) || (code c =? 92) = false) w ->
     scan (dquote :: w ++ dquote :: s) i false false d
     = scan s (i + length w + 2) false false d).
Proof.
  intros Hx. split; [apply extract_bounds, Hx|].
  split; [apply extract_object, Hx|].
  intros w s i d Hw. cbn [scan]. change (code dquote =? 34) with true.
  cbv iota. destruct (scan_literal w s (S i) false d Hw) as [E|E];
    [|discriminate].
  rewrite E. f_equal. lia.
Qed.

Lemma classify_metadata_json line n e f j :
  classify line n = (e, f) -> metadata e = Some j ->
  startsWith line (lit "{") = true /\ JSON_parse line = Some j.
Proof.
  unfold classify.
  destruct (startsWith line (lit "{")) eqn:Es.
  - destruct (parseJsonLog line n) as [e1|] eqn:Ep.
    + intros E Hm. inversion E; subst e1 f.
      apply parseJsonLog_inv in Ep.
      destruct Ep as (j1 & Hj & _ & _ & _ & Hmeta & _). split; [reflexivity|].
      congruence.
    + destruct (tryPatterns LOG_PATTERNS line n) as [[e1 f1]|] eqn:Et.
      * intros E. inversion E; subst e1 f1. apply tryPatterns_inv in Et.
        destruct Et as (p & m & _ & _ & -> & _). discriminate.
      * intros E. inversion E. discriminate.
  - destruct (tryPatterns LOG_PATTERNS line n) as [[e1 f1]|] eqn:Et.
    + intros E. inversion E; subst e1 f1. apply tryPatterns_inv in Et.
      destruct Et as (p & m & _ & _ & -> & _). discriminate.
    + intros E. inversion E. discriminate.
Qed.

(** The message of an entry without metadata is a part of its line, and
    the end of the line unless the format is Apache access. *)
Lemma classify_message_part line n e f t :
  classify line n = (e, f) -> truthy_opt (metadata e) = false ->
  message e = Some t ->
  occursIn t line /\
  (f <> lit "Apache access" -> exists a, line = a ++ t).
Proof.
  intros Hc Hno Hm.
  destruct (metadata e) as [j|] eqn:Emeta.
  { destruct (classify_metadata_json _ _ _ _ _ Hc Emeta) as [Hs Hj].
    destruct (JSON_parse_object _ _ Hs Hj) as [mm ->]. discriminate. }
  apply classify_cases in Hc.
  destruct Hc as [[Hj _]|[Hp|(_ & -> & _)]].
  - apply parseJsonLog_inv in Hj.
    destruct Hj as (j & _ & _ & _ & _ & Hmeta & _). congruence.
  - apply tryPatterns_inv in Hp.
    destruct Hp as (p & m & Hin & Hex & -> & ->).
    cbn [patternEntry message] in Hm.
    destruct (exec_parts _ _ _ Hex) as [Hparts Htail].
    pose proof tailMessage_all as Hall.
    rewrite forallb_forall in Hall. specialize (Hall p Hin).
    unfold tailMessage in Hall.
    destruct (g_message (groups_of p)) as [i|].
    + split; [eapply Hparts; eauto|]. intros Hne.
      apply orb_true_iff in Hall. destruct Hall as [Hall|Hall].
      * apply str_eqb_eq in Hall. contradiction.
      * apply andb_true_iff in Hall. destruct Hall as [Hi Ht].
        apply negb_true_iff, Nat.eqb_neq in Hi.
        destruct (Htail i Hi Ht) as (s & a & Hs & Hl).
        exists a. congruence.
    + inversion Hm; subst t. split; [apply occursIn_refl|].
      intros _. exists []. reflexivity.
  - simpl in Hm. inversion Hm; subst t. split; [apply occursIn_refl|].
    intros _. exists []. reflexivity.
Qed.

(** X11.  The metadata of a record is an object whenever it is there:
    the value of the whole line, or the value of a part of the line,
    the one that [extractFirstJsonObject] cut out of the message. *)
Theorem metadata_is_an_object content fn r :
  parseLogFile content fn = Ok r ->
  Forall (fun e => forall j, metadata e = Some j ->
                   (exists m, j = JObj m) /\
                   exists t, occursIn t (rawLine e) /\
                             startsWith t (lit "{") = true /\
                             JSON_parse t = Some j) (entries r).
Proof.
  intros Hr. apply parseLogFile_produced in Hr. destruct Hr as [Hp _].
  apply Forall_forall. intros e Hin j Hm.
  destruct (@produced_In _ _ _ _ _ _ _ Hp Hin)
    as (l & n & e0 & f1 & _ & _ & Hc & He).
  pose proof (@classify_frame _ _ _ _ _ Hc) as (_ & Hraw & _).
  pose proof (@enrich_frame _ _ _ He) as (_ & Hraw' & _).
  apply enrich_cases in He. destruct He as [->|(Hno & x & Hx & Ha)].
  - destruct (classify_metadata_json _ _ _ _ _ Hc Hm) as [Hs Hj].
    split; [eapply JSON_parse_object; eauto|].
    exists (trim l). rewrite Hraw. split; [apply occursIn_refl|]. auto.
  - pose proof (@applyExtracted_frame _ _ _ _ Ha)
      as (_ & _ & _ & _ & _ & _ & _ & Hmeta & _).
    rewrite Hm in Hmeta. inversion Hmeta; subst j.
    destruct (message e0) as [t|] eqn:Emsg;
      [|unfold extractFirstJsonObject in Hx; discriminate].
    destruct (extract_object t x Hx) as [Hj Hobj].
    split; [exact Hobj|].
    exists (slice t (ex_start x) (ex_end x + 1)).
    split; [|split; [|exact Hj]].
    + rewrite Hraw', Hraw. eapply occursIn_trans; [apply occursIn_slice|].
      eapply classify_message_part; eauto.
    + destruct (extract_bounds t x Hx) as (Hlt & Hlen & Hc0 & _).
      apply slice_brace; assumption.
Qed.

(** X13.  Before the enrichment, the message of an entry that is not
    made from a whole-line object is a part of the line as it stands:
    the line itself for Plain text, the end of the line for every
    pattern anchored at the end, and the request between the quotes
    for Apache access. *)
Theorem message_is_part_of_line line n e f t :
  classify line n = (e, f) -> metadata e = None -> message e = Some t ->
  occursIn t line /\
  (f <> lit "Apache access" -> exists a, line = a ++ t) /\
  (f = lit "Plain text" -> t = line).
Proof.
  intros Hc Hmeta Hm.
  assert (Hno : truthy_opt (metadata e) = false) by (rewrite Hmeta; auto).
  destruct (classify_message_part _ _ _ _ _ Hc Hno Hm) as [Ho Ht].
  split; [exact Ho|]. split; [exact Ht|].
  intros ->. apply classify_cases in Hc.
  destruct Hc as [[_ Hf]|[Hp|(_ & -> & _)]].
  - discriminate.
  - apply tryPatterns_inv in Hp.
    destruct Hp as (p & m & Hin & _ & _ & Hn). exfalso.
    simpl in Hin.
    destruct Hin as [<-|[<-|[<-|[<-|[<-|[<-|[]]]]]]]; discriminate.
  - simpl in Hm. congruence.
Qed.

End ObjectFacts.

(** The witness of X11. *)
Lemma metadata_is_an_object_witness :
  parseLogFile threeLines sampleName = Ok sampleRun /\
  Forall (fun e : LogEntry (H := RefHost) =>
            forall j, metadata e = Some j ->
            (exists m, j = JObj m) /\
            exists t, occursIn t (rawLine e) /\
                      startsWith t (lit "{") = true /\
                      JSON_parse t = Some j) (entries sampleRun).
Proof.
  pose proof sampleRun_Ok as Hr. split; [exact Hr|].
  exact (@metadata_is_an_object RefHost threeLines sampleName sampleRun Hr).
Defined.

Lemma orDefault_Some {A : Type} (o : option A) (d : A) :
  isSome o = true -> o = Some (orDefault o d).
Proof. destruct o; [reflexivity|discriminate]. Qed.

(** The witness of X12. *)
Lemma extraction_is_first_object_witness :
  extractFirstJsonObject (Some embeddedLine) = Some sampleExtraction /\
  ex_start sampleExtraction = 4 /\ ex_end sampleExtraction = 18 /\
  charAt embeddedLine 4 = Some "{"%char /\
  charAt embeddedLine 18 = Some "}"%char /\
  exists m, ex_json sampleExtraction = JObj m.
Proof.
  assert (Hx : extractFirstJsonObject (Some embeddedLine)
               = Some sampleExtraction)
    by (unfold sampleExtraction; apply orDefault_Some; vm_compute;
        reflexivity).
  assert (Hs : ex_start sampleExtraction = 4) by (vm_compute; reflexivity).
  assert (He : ex_end sampleExtraction = 18) by (vm_compute; reflexivity).
  split; [exact Hx|]. split; [exact Hs|]. split; [exact He|].
  pose proof (@extraction_is_first_object RefHost embeddedLine
                sampleExtraction Hx) as ((_ & _ & Hc & Hd & _) & (_ & Ho) & _).
  rewrite Hs in Hc. rewrite He in Hd.
  split; [exact Hc|]. split; [exact Hd|exact Ho].
Defined.

(** The witness of X13. *)
Lemma message_is_part_of_line_witness :
  classify levelledLine 1 = (levelledEntry, lit "ISO with level") /\
  metadata levelledEntry = None /\
  message levelledEntry
    = Some (js "started {'level':'error','thread':'t1'}") /\
  exists a,
    levelledLine = a ++ js "started {'level':'error','thread':'t1'}".
Proof.
  assert (Hc : classify levelledLine 1
               = (levelledEntry, lit "ISO with level"))
    by (unfold levelledEntry; apply pair_snd; vm_compute; reflexivity).
  assert (Hm : metadata levelledEntry = None)
    by (apply isSome_None; vm_compute; reflexivity).
  assert (Ht : message levelledEntry
               = Some (js "started {'level':'error','thread':'t1'}"))
    by (vm_compute; reflexivity).
  split; [exact Hc|]. split; [exact Hm|]. split; [exact Ht|].
  apply (proj1 (proj2 (@message_is_part_of_line RefHost levelledLine 1
                         levelledEntry (lit "ISO with level") _ Hc Hm Ht))).
  discriminate.
Defined.

(* ================================================================== *)
(** * The two summaries *)

Section SummaryFacts.

Context {H : Host}.

Lemma toLowerCase_nil s : toLowerCase s = [] -> s = [].
Proof. destruct s; [reflexivity|discriminate]. Qed.

(** The summary of [derive] against the one of [buildSummary]. *)
Lemma derive_buildSummary j d :
  derive j = Ok d ->
  exists s, buildSummary j = Ok s /\
    (s = orDefault d (lit "Log entry") /\
     (forall t, d = Some t -> nonEmpty t = true)
     \/
     exists v, pick j ["message"; "msg"; "text"]%string = Ok v /\
       truthy_opt v = true /\ String_ v = Ok [] /\
       ((exists h, d = Some h /\ nonEmpty h = true /\ s = h ++ dash) \/
        (d = Some [] /\ s = []))).
Proof.
  intros Hd. unfold derive in Hd.
  apply bind_Ok in Hd. destruct Hd as (msg & Emsg & Hd).
  apply bind_Ok in Hd. destruct Hd as (summary & Esum & Hd).
  apply bind_Ok in Hd. destruct Hd as (mo & Emo & Hd).
  apply bind_Ok in Hd. destruct Hd as (fe & Efe & Hd).
  apply bind_Ok in Hd. destruct Hd as (ty & Ety & Hd).
  apply bind_Ok in Hd. destruct Hd as (st & Est & Hd).
  apply bind_Ok in Hd. destruct Hd as (p1 & Ep1 & Hd).
  apply bind_Ok in Hd. destruct Hd as (p2 & Ep2 & Hd).
  apply bind_Ok in Hd. destruct Hd as (p3 & Ep3 & Hd).
  apply bind_Ok in Hd. destruct Hd as (p4 & Ep4 & Hd).
  cbv zeta in Hd.
  unfold buildSummary. rewrite Emo, Efe, Ety, Est, Emsg. cbn [bind].
  rewrite Ep1, Ep2. cbn [bind].
  destruct (truthy_opt msg) eqn:Tm.
  - apply bind_Ok in Esum. destruct Esum as (sm & Esm & Esum).
    inversion Esum; subst summary. clear Esum. cbn [negb].
    rewrite Esm. cbn [bind].
    destruct (nonEmpty sm) eqn:Nsm.
    + assert (E3 : (if truthy_opt ty
                    then differs <- (a <- String_ ty ;;
                                     Ok (negb (str_eqb (toLowerCase a)
                                                       (toLowerCase sm)))) ;;
                         (if (differs : bool)
                          then s <- String_ ty ;; Ok [s] else Ok [])
                    else Ok []) = Ok p3) by exact Ep3.
      rewrite E3. cbn [bind]. rewrite Ep4. cbn [bind]. cbv zeta.
      cbn [andb] in Hd.
      destruct (nonEmpty (join bullet (filter nonEmpty
                                         (p1 ++ p2 ++ p3 ++ p4)))) eqn:Nh.
      * cbn [andb]. inversion Hd; subst d. eexists. split; [reflexivity|].
        left. split; [reflexivity|]. intros t Et. inversion Et.
        destruct (join bullet _); [discriminate|reflexivity].
      * cbn [andb]. inversion Hd; subst d. exists sm. split; [reflexivity|].
        left. split; [reflexivity|]. intros t Et. inversion Et; subst t.
        exact Nsm.
    + apply nonEmpty_false in Nsm. subst sm. cbn [andb] in Hd.
      assert (E3 : exists p3',
                (if truthy_opt ty
                 then differs <- (a <- String_ ty ;;
                                  Ok (negb (str_eqb (toLowerCase a)
                                                    (toLowerCase [])))) ;;
                      (if (differs : bool)
                       then s <- String_ ty ;; Ok [s] else Ok [])
                 else Ok []) = Ok p3' /\
                filter nonEmpty (p1 ++ p2 ++ p3' ++ p4)
                = filter nonEmpty (p1 ++ p2 ++ p3 ++ p4)).
      { destruct (truthy_opt ty).
        - cbn [bind] in Ep3. apply bind_Ok in Ep3.
          destruct Ep3 as (t3 & Et3 & Ep3). inversion Ep3; subst p3.
          rewrite Et3. cbn [bind].
          destruct (str_eqb (toLowerCase t3) (toLowerCase [])) eqn:Eq.
          + apply str_eqb_eq in Eq. apply toLowerCase_nil in Eq. subst t3.
            cbn [negb]. exists []. split; [reflexivity|].
            rewrite !filter_app. reflexivity.
          + cbn [negb bind]. exists [t3]. auto.
        - inversion Ep3; subst p3. exists []. auto. }
      destruct E3 as (p3' & E3 & Ef). rewrite E3. cbn [bind].
      rewrite Ep4. cbn [bind]. cbv zeta. rewrite Ef. cbn [andb].
      destruct (nonEmpty (join bullet (filter nonEmpty
                                         (p1 ++ p2 ++ p3 ++ p4)))) eqn:Nh.
      * inversion Hd; subst d. eexists. split; [reflexivity|].
        right. exists msg. repeat split; auto. left.
        eexists. split; [reflexivity|]. split; [exact Nh|].
        rewrite app_nil_r. reflexivity.
      * inversion Hd; subst d. exists []. split; [reflexivity|].
        right. exists msg. repeat split; auto.
  - inversion Esum; subst summary. clear Esum. cbn [negb].
    assert (E3 : (if truthy_opt ty
                  then differs <- Ok true ;;
                       (if (differs : bool)
                        then s <- String_ ty ;; Ok [s] else Ok [])
                  else Ok []) = Ok p3) by exact Ep3.
    rewrite E3. cbn [bind]. rewrite Ep4. cbn [bind]. cbv zeta. cbn [andb].
    destruct (nonEmpty (join bullet (filter nonEmpty
                                       (p1 ++ p2 ++ p3 ++ p4)))) eqn:Nh.
    + inversion Hd; subst d. eexists. split; [reflexivity|].
      left. split; [reflexivity|]. intros t Et. inversion Et; subst t.
      exact Nh.
    + inversion Hd; subst d. eexists. split; [reflexivity|].
      left. split; [reflexivity|]. discriminate.
Qed.

Lemma applyExtracted_message_eq e x e' :
  applyExtracted e x = Ok e' ->
  exists d, derive (ex_json x) = Ok d /\
    message e' = if present d then d else Some (textAround e x).
Proof.
  unfold applyExtracted. intros Hb. do 5 bind_inv Hb.
  inversion Hb; subst e'. cbn [message]. clear Hb.
  exists a3. split; [assumption|reflexivity].
Qed.

(** X14.  The summary that the enrichment derives from an embedded
    object follows the rules of [buildSummary]: whenever it is computed,
    [buildSummary] returns on the same object, and what it returns is
    the derived summary, or [Log entry] when there is none.  The one
    exception among the summaries is a message value that is truthy
    and prints as the empty string: there [buildSummary] ends the head
    with a dash where the derived summary is the head alone, and
    returns the empty string where there is no head.  So a line with
    an embedded object gets the message that the object alone on a
    line gets, the derived summary, with two exceptions.  When nothing
    is derived the object alone gets [Log entry] and the line gets the
    text before the object, else the text after it, else [Log entry].
    When the message value is of that kind the object alone gets the
    head with the dash and the line the head alone, or, without a
    head, the object alone gets [Log entry] and the line the text
    around the object. *)
Theorem summary_rules_agree j d :
  derive j = Ok d ->
  (exists s, buildSummary j = Ok s /\
     (s = orDefault d (lit "Log entry") /\
      (forall t, d = Some t -> nonEmpty t = true)
      \/
      exists v, pick j ["message"; "msg"; "text"]%string = Ok v /\
        truthy_opt v = true /\ String_ v = Ok [] /\
        ((exists h, d = Some h /\ nonEmpty h = true /\ s = h ++ dash) \/
         (d = Some [] /\ s = [])))) /\
  (forall e x e' line n q,
     ex_json x = j -> applyExtracted e x = Ok e' ->
     jsonEntry j line n = Ok q ->
     (message e' = message q /\
      exists t, d = Some t /\ nonEmpty t = true /\ message q = Some t) \/
     (d = None /\ message q = Some (lit "Log entry") /\
      message e' = Some (textAround e x)) \/
     (exists v, pick j ["message"; "msg"; "text"]%string = Ok v /\
        truthy_opt v = true /\ String_ v = Ok [] /\
        ((exists h, d = Some h /\ nonEmpty h = true /\
                    message e' = Some h /\ message q = Some (h ++ dash)) \/
         (d = Some [] /\ message e' = Some (textAround e x) /\
          message q = Some (lit "Log entry"))))).
Proof.
  intros Hd. pose proof (derive_buildSummary j d Hd) as Hs.
  split; [exact Hs|].
  intros e x e' line n q Hx Ha Hq. subst j.
  apply applyExtracted_message_eq in Ha.
  destruct Ha as (d' & Hd' & Hme).
  rewrite Hd in Hd'. inversion Hd'; subst d'. clear Hd'.
  apply jsonEntry_inv in Hq.
  destruct Hq as (_ & _ & _ & _ & _ & s' & Hs' & Hmq).
  destruct Hs as (s & Hbs & [[Hs Hne]|Hdeg]); [|right; right].
  - rewrite Hbs in Hs'. inversion Hs'; subst s'. clear Hs'.
    destruct d as [t|].
    + left. specialize (Hne t eq_refl).
      assert (Hq : message q = Some t).
      { rewrite Hmq, Hs. cbn [orDefault]. rewrite Hne. reflexivity. }
      split; [|exists t; auto].
      rewrite Hme, Hq. cbn [present]. rewrite Hne. reflexivity.
    + right. left. split; [reflexivity|].
      split; [rewrite Hmq, Hs; reflexivity|exact Hme].
  - destruct Hdeg as (v & Hv & Tv & Sv & Hcase). exists v.
    split; [exact Hv|]. split; [exact Tv|]. split; [exact Sv|].
    rewrite Hbs in Hs'. inversion Hs'; subst s'. clear Hs'.
    destruct Hcase as [(h & -> & Nh & ->)|[-> ->]].
    + left. exists h. split; [reflexivity|]. split; [exact Nh|].
      split; [rewrite Hme; cbn [present]; rewrite Nh; reflexivity|].
      rewrite Hmq. destruct h; [discriminate|reflexivity].
    + right. split; [reflexivity|]. split; [exact Hme|exact Hmq].
Qed.

End SummaryFacts.

(** The witness of X14. *)
Lemma summary_rules_agree_witness :
  derive emptyMessageObject = Ok (Some (lit "m")) /\
  buildSummary emptyMessageObject = Ok (lit "m" ++ dash) /\
  exists s, buildSummary emptyMessageObject = Ok s /\
    (s = orDefault (Some (lit "m")) (lit "Log entry") /\
     (forall t, Some (lit "m") = Some t -> nonEmpty t = true)
     \/
     exists v,
       pick emptyMessageObject ["message"; "msg"; "text"]%string = Ok v /\
       truthy_opt v = true /\ String_ v = Ok [] /\
       ((exists h, Some (lit "m") = Some h /\ nonEmpty h = true /\
                   s = h ++ dash) \/
        (Some (lit "m") = Some [] /\ s = []))).
Proof.
  assert (Hd : derive emptyMessageObject = Ok (Some (lit "m")))
    by (vm_compute; reflexivity).
  split; [exact Hd|]. split; [vm_compute; reflexivity|].
  exact (proj1 (@summary_rules_agree RefHost emptyMessageObject _ Hd)).
Defined.

(** Text around an object from which nothing is derived: the line gets
    the text before the object as message, the object alone on a line
    gets [Log entry]. *)
Lemma text_around_object :
  message aroundRecord = Some (lit "before") /\
  isSome (metadata aroundRecord) = true /\
  message aloneRecord = Some (lit "Log entry") /\
  isSome (metadata aloneRecord) = true.
Proof.
  repeat split; vm_compute; reflexivity.
Qed.

(** The witness of X4. *)
Lemma detectLogLevel_first_name_witness :
  detectLogLevel (lit "warn: fatal error") = Some (lit "FATAL") /\
  In (lit "FATAL") levels /\
  occursIn (lit "FATAL") (toUpperCase (lit "warn: fatal error")).
Proof.
  assert (Hd : detectLogLevel (lit "warn: fatal error") = Some (lit "FATAL"))
    by reflexivity.
  split; [exact Hd|].
  destruct (proj1 (detectLogLevel_first_name (lit "warn: fatal error")
                     (lit "FATAL")) Hd) as (Hi & Ho & _).
  split; [exact Hi|exact Ho].
Defined.

(* ================================================================== *)
(** * The viewer *)

Section ViewerFacts.

Context {H : Host}.

Variable endOfDay : Z -> Z.

Lemma filterM_pure {A : Type} (f : A -> result bool) l :
  Forall (fun x => isOk (f x) = true) l ->
  filterM f l = Ok (filter (fun x => orElse (f x) false) l).
Proof.
  induction 1 as [|x l Hx _ IH]; [reflexivity|].
  cbn [filterM filter]. destruct (f x) as [b|]; [|discriminate].
  cbn [bind orElse]. rewrite IH. reflexivity.
Qed.

Lemma keeps_returns filters e :
  (exists s, message e = Some s) -> isOk (keeps endOfDay filters e) = true.
Proof.
  intros [s Hs]. unfold keeps. rewrite Hs.
  destruct (nonEmpty (f_search filters)); cbn [bind];
    repeat match goal with
           | |- isOk (if ?b then _ else _) = true => destruct b
           end; reflexivity.
Qed.

Lemma record_message lines i es f f' :
  produced lines i es f f' -> Forall (fun e => exists s, message e = Some s) es.
Proof.
  intros Hp. apply Forall_forall. intros e Hin.
  destruct (@produced_In _ _ _ _ _ _ _ Hp Hin)
    as (l & n & e0 & f1 & _ & _ & Hc & He).
  apply enrich_cases in He. destruct He as [->|(_ & x & _ & Ha)].
  - eapply classify_message; eauto.
  - apply applyExtracted_frame in Ha.
    destruct Ha as (_ & _ & _ & _ & _ & _ & _ & _ & Hm).
    destruct (message e) as [s|]; [eauto|discriminate].
Qed.

(** X15.  On the records of a run the filters never fail, whatever
    they are: [filteredEntries] returns the records that the predicate
    keeps, in their order. *)
Theorem filteredEntries_on_a_run content fn r filters :
  parseLogFile content fn = Ok r ->
  Forall (fun e => isOk (keeps endOfDay filters e) = true) (entries r) /\
  filteredEntries endOfDay (entries r) filters
  = Ok (filter (fun e => orElse (keeps endOfDay filters e) false)
               (entries r)).
Proof.
  intros Hr. apply parseLogFile_produced in Hr. destruct Hr as [Hp _].
  assert (HF : Forall (fun e => isOk (keeps endOfDay filters e) = true)
                      (entries r)).
  { eapply Forall_impl; [|eapply record_message; exact Hp].
    intros e. apply keeps_returns. }
  split; [exact HF|]. apply filterM_pure, HF.
Qed.

Lemma keeps_clear e : keeps endOfDay clearFilters e = Ok true.
Proof. reflexivity. Qed.

Lemma filterM_all {A : Type} (f : A -> result bool) l :
  (forall x, f x = Ok true) -> filterM f l = Ok l.
Proof.
  intros Hf. induction l as [|x l IH]; [reflexivity|].
  cbn [filterM]. rewrite Hf, IH. reflexivity.
Qed.

(** X16.  With the filters cleared every entry is shown, whatever the
    entries are; and the search does not depend on the letter case of
    the text searched for when that is a text of ASCII characters: the
    filters with the search text in upper case, or in lower case, keep
    the entries that the filters keep. *)
Theorem clearFilters_shows_everything entries :
  filteredEntries endOfDay entries clearFilters = Ok entries /\
  (forall filters e,
     asciiText (f_search filters) ->
     keeps endOfDay (withSearch (toUpperCase (f_search filters)) filters) e
     = keeps endOfDay filters e /\
     keeps endOfDay (withSearch (toLowerCase (f_search filters)) filters) e
     = keeps endOfDay filters e).
Proof.
  split; [apply filterM_all, keeps_clear|].
  intros filters e _. unfold keeps, withSearch.
  cbn [f_search f_level f_dateFrom f_dateTo f_module f_feature f_user].
  rewrite toLowerCase_toUpperCase.
  assert (Hl : toLowerCase (toLowerCase (f_search filters))
               = toLowerCase (f_search filters)).
  { rewrite <- (toLowerCase_toUpperCase (toLowerCase _)).
    rewrite toUpperCase_toLowerCase. apply toLowerCase_toUpperCase. }
  rewrite Hl.
  assert (Hu : nonEmpty (toUpperCase (f_search filters))
               = nonEmpty (f_search filters))
    by (destruct (f_search filters); reflexivity).
  assert (Hd : nonEmpty (toLowerCase (f_search filters))
               = nonEmpty (f_search filters))
    by (destruct (f_search filters); reflexivity).
  rewrite Hu, Hd. split; reflexivity.
Qed.

(** X17.  The date bounds never hide an entry without timestamp, and
    a bound that is no date hides nothing: such an entry, or such
    filters, pass exactly as with the bounds cleared. *)
Theorem date_filters_skip_undated filters e :
  (timestamp e = None ->
   keeps endOfDay filters e = keeps endOfDay (withDates [] [] filters) e) /\
  (Date_parse (f_dateFrom filters) = None ->
   Date_parse (f_dateTo filters) = None ->
   keeps endOfDay filters e = keeps endOfDay (withDates [] [] filters) e).
Proof.
  unfold keeps, withDates.
  cbn [f_search f_level f_dateFrom f_dateTo f_module f_feature f_user
       nonEmpty andb].
  split.
  - intros ->. rewrite !andb_false_r. reflexivity.
  - intros -> ->. destruct (timestamp e); rewrite !andb_false_r;
      reflexivity.
Qed.

Lemma count_increment k l c :
  In k (map fst c) ->
  count k (increment l c) = count k c + (if str_eqb l k then 1 else 0).
Proof.
  induction c as [|[k' n] c IH]; cbn [map fst In]; [intros []|].
  intros Hin. cbn [increment map fst snd count].
  destruct (str_eqb k' l) eqn:El; cbn [count fst snd];
    destruct (str_eqb k' k) eqn:Ek.
  - apply str_eqb_eq in El. apply str_eqb_eq in Ek. subst.
    assert (E : str_eqb k k = true) by (apply str_eqb_eq; reflexivity).
    rewrite E. lia.
  - apply IH. destruct Hin as [<-|Hin]; [|exact Hin].
    assert (E : str_eqb k' k' = true) by (apply str_eqb_eq; reflexivity).
    congruence.
  - apply str_eqb_eq in Ek. subst k'.
    destruct (str_eqb l k) eqn:Elk; [|lia].
    apply str_eqb_eq in Elk. subst l.
    assert (E : str_eqb k k = true) by (apply str_eqb_eq; reflexivity).
    congruence.
  - apply IH. destruct Hin as [<-|Hin]; [|exact Hin].
    assert (E : str_eqb k' k' = true) by (apply str_eqb_eq; reflexivity).
    congruence.
Qed.

Lemma increment_keys l c : map fst (increment l c) = map fst c.
Proof.
  unfold increment. rewrite map_map. apply map_ext.
  intros [k n]. cbn [fst snd]. destruct (str_eqb k l); reflexivity.
Qed.

Lemma hasOwnProperty_In c k : hasOwnProperty c k = true <-> In k (map fst c).
Proof.
  unfold hasOwnProperty. rewrite existsb_exists, in_map_iff. split.
  - intros ([k' n] & Hin & E). apply str_eqb_eq in E. cbn [fst] in E.
    subst k'. exists (k, n). auto.
  - intros ([k' n] & E & Hin). cbn [fst] in E. subst k'.
    exists (k, n). split; [exact Hin|]. apply str_eqb_eq. reflexivity.
Qed.

Lemma countEntry_spec c e :
  map fst (countEntry c e) = map fst c /\
  (forall k, In k (map fst c) -> nonEmpty k = true ->
     count k (countEntry c e)
     = count k c + (if levelIs k e then 1 else 0)).
Proof.
  unfold countEntry, levelIs. destruct (level e) as [l|].
  - destruct (nonEmpty l) eqn:Nl; cbn [andb].
    + destruct (hasOwnProperty c l) eqn:Hl.
      * split; [apply increment_keys|]. intros k Hk _.
        apply count_increment, Hk.
      * split; [reflexivity|]. intros k Hk _.
        destruct (str_eqb l k) eqn:E; [|lia].
        apply str_eqb_eq in E. subst l.
        apply hasOwnProperty_In in Hk. congruence.
    + split; [reflexivity|]. intros k Hk Nk.
      destruct (str_eqb l k) eqn:E; [|lia].
      apply str_eqb_eq in E. subst l. congruence.
  - split; [reflexivity|]. intros. lia.
Qed.

Lemma fold_countEntry es : forall c,
  map fst (fold_left countEntry es c) = map fst c /\
  (forall k, In k (map fst c) -> nonEmpty k = true ->
     count k (fold_left countEntry es c) = count k c + withLevel k es).
Proof.
  unfold withLevel.
  induction es as [|e es IH]; intros c; cbn [fold_left filter].
  - split; [reflexivity|]. intros. cbn [length]. lia.
  - destruct (countEntry_spec c e) as [Hk Hc].
    destruct (IH (countEntry c e)) as [Hk' Hc'].
    split; [congruence|]. intros k Hin Nk.
    rewrite Hc'; [|rewrite Hk; exact Hin|exact Nk].
    rewrite Hc; [|exact Hin|exact Nk].
    destruct (levelIs k e); cbn [length]; lia.
Qed.

Lemma levelCounts_fold entries :
  levelCounts entries
  = fold_left countEntry entries (counts0 (length entries)).
Proof. reflexivity. Qed.

Lemma level_once e :
  list_sum (map (fun l => if levelIs l e then 1 else 0) levels)
  = if hasKnownLevel e then 1 else 0.
Proof.
  unfold hasKnownLevel, levelIs. destruct (level e) as [l|]; [|reflexivity].
  cbn [levels map list_sum existsb fold_right].
  destruct (str_eqb l (lit "FATAL")) eqn:E1;
    [apply str_eqb_eq in E1; subst l; reflexivity|].
  destruct (str_eqb l (lit "ERROR")) eqn:E2;
    [apply str_eqb_eq in E2; subst l; reflexivity|].
  destruct (str_eqb l (lit "WARN")) eqn:E3;
    [apply str_eqb_eq in E3; subst l; reflexivity|].
  destruct (str_eqb l (lit "INFO")) eqn:E4;
    [apply str_eqb_eq in E4; subst l; reflexivity|].
  destruct (str_eqb l (lit "DEBUG")) eqn:E5;
    [apply str_eqb_eq in E5; subst l; reflexivity|].
  destruct (str_eqb l (lit "TRACE")) eqn:E6;
    [apply str_eqb_eq in E6; subst l; reflexivity|].
  reflexivity.
Qed.

Lemma withLevel_sum es :
  list_sum (map (fun l => withLevel l es) levels)
  = length (filter hasKnownLevel es).
Proof.
  induction es as [|e es IH]; [reflexivity|].
  pose proof (level_once e) as He.
  cbn [filter]. unfold withLevel in *. cbn [filter].
  cbn [levels map list_sum fold_right] in *.
  destruct (hasKnownLevel e); cbn [length];
    repeat match goal with
           | |- context [levelIs ?l e] => destruct (levelIs l e)
           end; cbn [length] in *; lia.
Qed.

Lemma levelCounts_level entries l :
  In l levels -> count l (levelCounts entries) = withLevel l entries.
Proof.
  rewrite levelCounts_fold.
  destruct (fold_countEntry entries (counts0 (length entries))) as [_ Hc].
  intros Hin. rewrite Hc.
  - cbn [levels In] in Hin.
    repeat (destruct Hin as [<-|Hin]; [reflexivity|]). destruct Hin.
  - cbn [levels In] in Hin. cbn [counts0 map fst In].
    repeat (destruct Hin as [<-|Hin]; [tauto|]). destruct Hin.
  - cbn [levels In] in Hin.
    repeat (destruct Hin as [<-|Hin]; [reflexivity|]). destruct Hin.
Qed.

Lemma levelCounts_six entries :
  sixCounters (levelCounts entries) = length (filter hasKnownLevel entries).
Proof.
  unfold sixCounters. rewrite <- withLevel_sum. f_equal.
  apply map_ext_in. apply levelCounts_level.
Qed.

Lemma levelCounts_total_any entries :
  count (lit "total") (levelCounts entries)
  = length entries + withLevel (lit "total") entries.
Proof.
  rewrite levelCounts_fold.
  destruct (fold_countEntry entries (counts0 (length entries))) as [_ Hc].
  rewrite Hc; [reflexivity|cbn; tauto|reflexivity].
Qed.

(** X18.  The object of [levelCounts] keeps its seven properties, and
    each of the six level counters is the number of entries with that
    level exactly, so they add up to the number of entries with one of
    the six levels.  The property [total] starts as the number of
    entries and is itself counted up by an entry whose level is the
    text [total]. *)
Theorem levelCounts_counts entries :
  map fst (levelCounts entries)
  = [lit "total"; lit "ERROR"; lit "WARN"; lit "INFO"; lit "DEBUG";
     lit "TRACE"; lit "FATAL"] /\
  (forall l, In l levels ->
     count l (levelCounts entries) = withLevel l entries) /\
  sixCounters (levelCounts entries) = length (filter hasKnownLevel entries) /\
  sixCounters (levelCounts entries) <= length entries /\
  count (lit "total") (levelCounts entries)
  = length entries + withLevel (lit "total") entries.
Proof.
  split.
  { rewrite levelCounts_fold.
    apply (fold_countEntry entries (counts0 (length entries))). }
  split; [apply levelCounts_level|]. split; [apply levelCounts_six|].
  split; [rewrite levelCounts_six; apply filter_length_le|].
  apply levelCounts_total_any.
Qed.

Lemma record_level_upper lines i es f f' :
  produced lines i es f f' ->
  Forall (fun e => forall l, level e = Some l -> toUpperCase l = l) es.
Proof.
  intros Hp. apply Forall_forall. intros e Hin l Hl.
  destruct (@produced_In _ _ _ _ _ _ _ Hp Hin)
    as (l0 & n & e0 & f1 & _ & _ & Hc & He).
  apply enrichment_level_upper with (1 := He) (3 := Hl).
  intros l1. eapply classify_level_upper; eauto.
Qed.

Lemma upper_not_total es :
  Forall (fun e => forall l, level e = Some l -> toUpperCase l = l) es ->
  withLevel (lit "total") es = 0.
Proof.
  unfold withLevel. induction 1 as [|e es He _ IH]; [reflexivity|].
  cbn [filter]. unfold levelIs at 1.
  destruct (level e) as [l|] eqn:El; [|exact IH].
  destruct (str_eqb l (lit "total")) eqn:E; [|exact IH].
  apply str_eqb_eq in E. subst l. specialize (He _ eq_refl).
  discriminate.
Qed.

(** X19.  On the records of a run [total] is the number of records,
    which with the blank lines makes the lines of the file, and the six
    level counters together do not exceed it. *)
Theorem levelCounts_total_on_a_run content fn r :
  parseLogFile content fn = Ok r ->
  count (lit "total") (levelCounts (entries r)) = length (entries r) /\
  count (lit "total") (levelCounts (entries r))
  + blankLineCount (split_lines content) = totalLines r /\
  sixCounters (levelCounts (entries r))
  <= count (lit "total") (levelCounts (entries r)).
Proof.
  intros Hr. apply parseLogFile_produced in Hr.
  destruct Hr as (Hp & Ht & _).
  assert (Etot : count (lit "total") (levelCounts (entries r))
                 = length (entries r)).
  { rewrite levelCounts_total_any, upper_not_total; [lia|].
    eapply record_level_upper; eauto. }
  split; [exact Etot|]. split.
  - rewrite Etot, Ht. apply produced_count in Hp. apply Hp.
  - rewrite Etot, levelCounts_six. apply filter_length_le.
Qed.

Lemma split_lines_app l s :
  noNewline l -> split_lines (l ++ newline :: s) = l :: split_lines s.
Proof.
  induction l as [|c l IH]; intros Hn.
  - reflexivity.
  - cbn [app split_lines]. rewrite (Hn c (or_introl eq_refl)).
    rewrite IH; [reflexivity|].
    intros x Hx. apply Hn. right. exact Hx.
Qed.

Lemma split_lines_join ls :
  ls <> [] -> Forall noNewline ls -> split_lines (join [newline] ls) = ls.
Proof.
  induction ls as [|l ls IH]; [congruence|]. intros _ HF.
  inversion HF as [|? ? Hl Hls]; subst.
  destruct ls as [|l2 ls].
  - cbn [join]. apply split_lines_single, Hl.
  - change (join [newline] (l :: l2 :: ls))
      with (l ++ [newline] ++ join [newline] (l2 :: ls)).
    cbn [app]. rewrite (split_lines_app _ _ Hl), IH;
      [reflexivity|discriminate|exact Hls].
Qed.

(** What a record of a run says of its raw line. *)
Lemma record_line lines i es f f' e :
  Forall noNewline lines -> produced lines i es f f' -> In e es ->
  nonEmpty (rawLine e) = true /\ trim (rawLine e) = rawLine e /\
  noNewline (rawLine e) /\
  exists n e0 f1, classify (rawLine e) n = (e0, f1) /\ enrich e0 = Ok e.
Proof.
  intros Hnl Hp Hin.
  destruct (@produced_In _ _ _ _ _ _ _ Hp Hin)
    as (l & n & e0 & f1 & Hl & Hne & Hc & He).
  assert (Hraw : rawLine e = trim l).
  { pose proof (@enrich_frame _ _ _ He) as (_ & Hr & _).
    pose proof (@classify_frame _ _ _ _ _ Hc) as (_ & Hr0 & _).
    congruence. }
  rewrite Hraw. split; [exact Hne|]. split; [apply trim_idempotent|].
  split.
  - apply trim_noNewline. rewrite Forall_forall in Hnl. apply Hnl, Hl.
  - exists n, e0, f1. auto.
Qed.

Lemma produced_export shown : forall i f0,
  Forall (fun e => nonEmpty (rawLine e) = true /\
                   trim (rawLine e) = rawLine e /\
                   exists n e0 f1, classify (rawLine e) n = (e0, f1) /\
                                   enrich e0 = Ok e) shown ->
  exists f', produced (map rawLine shown) i (renumberFrom i shown) f0 f'.
Proof.
  induction shown as [|e es IH]; intros i f0 HF.
  - exists f0. constructor.
  - inversion HF as [|? ? (Hne & Ht & n & e0 & f1 & Hc & He) Hes]; subst.
    destruct (IH (S i) f1 Hes) as [f' Hp]. exists f'.
    cbn [map renumberFrom].
    apply produced_line with (e0 := renumber (i + 1) e0) (f1 := f1).
    + rewrite Ht. exact Hne.
    + rewrite Ht, (classify_renumber (rawLine e) n (i + 1)), Hc.
      reflexivity.
    + rewrite enrich_renumber, He. reflexivity.
    + exact Hp.
Qed.

(** X20.  Export and parse again on the same host with the same
    clock: the file that [exportLogs] makes of any selection of the
    records of a run parses, under any name, to those records in their
    order, renumbered from 1; it has as many lines as records
    selected, none blank; the empty selection gives the empty file,
    which counts one line.  The clock matters: a timestamp read from a
    time of day, or from a date without year, is completed from the
    current date, so at a later clock such a record gets another
    timestamp. *)
Theorem export_parses_back content fn r shown fn' :
  parseLogFile content fn = Ok r -> incl shown (entries r) ->
  exists f,
    parseLogFile (exportLogs shown) fn'
    = Ok (Parsed (renumberFrom 0 shown) (Nat.max 1 (length shown)) fn' f) /\
    (shown <> [] -> split_lines (exportLogs shown) = map rawLine shown) /\
    map rawLine (renumberFrom 0 shown) = map rawLine shown.
Proof.
  intros Hr Hincl. apply parseLogFile_produced in Hr. destruct Hr as [Hp _].
  assert (HF : Forall (fun e => nonEmpty (rawLine e) = true /\
                         trim (rawLine e) = rawLine e /\
                         noNewline (rawLine e) /\
                         exists n e0 f1,
                           classify (rawLine e) n = (e0, f1) /\
                           enrich e0 = Ok e) shown).
  { apply Forall_forall. intros e He.
    eapply record_line; [apply split_lines_noNewline|exact Hp|].
    apply Hincl, He. }
  assert (Hraw : forall (es : list LogEntry) i,
            map rawLine (renumberFrom i es) = map rawLine es).
  { induction es as [|e es IH]; intros i; [reflexivity|].
    cbn [renumberFrom map]. rewrite IH. reflexivity. }
  destruct shown as [|e0 es].
  - exists (lit "Unknown"). split; [reflexivity|]. split; [congruence|].
    reflexivity.
  - assert (Hsplit : split_lines (exportLogs (e0 :: es))
                     = map rawLine (e0 :: es)).
    { unfold exportLogs. apply split_lines_join; [discriminate|].
      rewrite Forall_map. eapply Forall_impl; [|exact HF].
      intros e He. apply He. }
    destruct (produced_export (e0 :: es) 0 (lit "Unknown")) as [f' Hpe].
    { eapply Forall_impl; [|exact HF]. intros e (A & B & _ & C). auto. }
    exists f'. split; [|split; [intros _; exact Hsplit|apply Hraw]].
    rewrite <- Hsplit in Hpe.
    rewrite (produced_parseLogFile _ fn' Hpe), Hsplit, length_map.
    reflexivity.
Qed.

End ViewerFacts.

(* ================================================================== *)
(** * Loading a file *)

Section UploadFacts.

Context {H : Host}.

Lemma endsWith_spec s p : endsWith s p = true <-> exists a, s = a ++ p.
Proof.
  unfold endsWith. rewrite startsWith_spec. split.
  - intros [b Hb]. exists (rev b).
    rewrite <- (rev_involutive s), Hb, rev_app_distr, rev_involutive.
    reflexivity.
  - intros [a ->]. exists (rev a). apply rev_app_distr.
Qed.

(** X21.  Which files are loaded and what a failure looks like.  A
    file is refused, with an alert and nothing else changed, exactly
    when its type does not contain [text] and its name does not end in
    [.log]; so any name ending in [.log] is accepted whatever the type.
    An accepted file is left selected and never loading.  When it is
    read and the parser returns, the result is shown and no alert is
    raised: this is the case of every content without an opening
    brace.  When the parser throws, the alert says that reading
    failed, and the log shown before stays. *)
Theorem handleFile_outcome file st :
  (includes (file_type file) (lit "text") = false ->
   endsWith (file_name file) (lit ".log") = false ->
   handleFile file st
   = MkState (parsedLog st) (selectedFile st) (isLoading st)
             (alerts st ++ [lit "Please select a text or log file"])) /\
  ((occursIn (lit "text") (file_type file) \/
    exists a, file_name file = a ++ lit ".log") ->
   selectedFile (handleFile file st) = Some file /\
   isLoading (handleFile file st) = false /\
   (forall content r,
      file_text file = Some content ->
      parseLogFile content (file_name file) = Ok r ->
      parsedLog (handleFile file st) = Some r /\
      alerts (handleFile file st) = alerts st) /\
   (forall content,
      file_text file = Some content -> noBrace content ->
      exists r, parsedLog (handleFile file st) = Some r /\
                filename r = file_name file /\
                totalLines r = S (countNewlines content)) /\
   (forall content e,
      file_text file = Some content ->
      parseLogFile content (file_name file) = Throw e ->
      parsedLog (handleFile file st) = parsedLog st /\
      alerts (handleFile file st)
      = alerts st ++ [lit "Error reading file"])).
Proof.
  split.
  - intros Ht Hn. unfold handleFile. rewrite Ht, Hn. reflexivity.
  - intros Hacc.
    assert (Hb : negb (includes (file_type file) (lit "text"))
                 && negb (endsWith (file_name file) (lit ".log")) = false).
    { destruct Hacc as [Ho|He].
      - apply includes_spec in Ho. rewrite Ho. reflexivity.
      - apply endsWith_spec in He. rewrite He. apply andb_false_r. }
    unfold handleFile. rewrite Hb.
    split; [destruct (file_text file) as [c|];
            [destruct (parseLogFile c (file_name file))|];
            reflexivity|].
    split; [destruct (file_text file) as [c|];
            [destruct (parseLogFile c (file_name file))|];
            reflexivity|].
    split; [|split].
    + intros content r -> ->. split; reflexivity.
    + intros content -> Hnb.
      destruct (parseLogFile_returns_noBrace (file_name file) Hnb) as [r Hr].
      rewrite Hr. exists r. split; [reflexivity|].
      pose proof (@parseLogFile_produced _ _ _ _ Hr) as (_ & Ht & Hf).
      split; [exact Hf|]. rewrite Ht. apply split_lines_length.
    + intros content e -> ->. split; reflexivity.
Qed.

End UploadFacts.

(** The witness of X15. *)
Lemma filteredEntries_on_a_run_witness :
  parseLogFile threeLines sampleName = Ok sampleRun /\
  filteredEntries utcEndOfDay (entries sampleRun) sampleFilters
  = Ok (filter (fun e => orElse (keeps utcEndOfDay sampleFilters e) false)
               (entries sampleRun)).
Proof.
  pose proof sampleRun_Ok as Hr. split; [exact Hr|].
  exact (proj2 (@filteredEntries_on_a_run RefHost utcEndOfDay threeLines
                  sampleName sampleRun sampleFilters Hr)).
Defined.

(** The witness of X16. *)
Lemma clearFilters_shows_everything_witness :
  asciiText (f_search sampleFilters) /\
  keeps utcEndOfDay
        (withSearch (toLowerCase (f_search sampleFilters)) sampleFilters)
        bareEntry
  = keeps utcEndOfDay sampleFilters bareEntry.
Proof.
  assert (Ha : asciiText (f_search sampleFilters)) by (repeat constructor).
  split; [exact Ha|].
  exact (proj2 (proj2 (@clearFilters_shows_everything RefHost utcEndOfDay [])
                  sampleFilters bareEntry Ha)).
Defined.

(** The witness of X17. *)
Lemma date_filters_skip_undated_witness :
  timestamp bareEntry = None /\
  keeps utcEndOfDay dateFilters bareEntry
  = keeps utcEndOfDay (withDates [] [] dateFilters) bareEntry.
Proof.
  assert (Ht : timestamp bareEntry = None) by reflexivity.
  split; [exact Ht|].
  exact (proj1 (@date_filters_skip_undated RefHost utcEndOfDay dateFilters
                  bareEntry) Ht).
Defined.

(** The witness of X18. *)
Lemma levelCounts_counts_witness :
  In (lit "WARN") levels /\
  count (lit "WARN") (levelCounts (entries sampleRun))
  = withLevel (lit "WARN") (entries sampleRun).
Proof.
  assert (Hin : In (lit "WARN") levels) by (simpl; tauto).
  split; [exact Hin|].
  exact (proj1 (proj2 (@levelCounts_counts RefHost (entries sampleRun)))
           _ Hin).
Defined.

(** The witness of X19. *)
Lemma levelCounts_total_on_a_run_witness :
  parseLogFile threeLines sampleName = Ok sampleRun /\
  count (lit "total") (levelCounts (entries sampleRun))
  = length (entries sampleRun).
Proof.
  pose proof sampleRun_Ok as Hr. split; [exact Hr|].
  exact (proj1 (@levelCounts_total_on_a_run RefHost threeLines sampleName
                  sampleRun Hr)).
Defined.

(** The witness of X20. *)
Lemma export_parses_back_witness :
  parseLogFile threeLines sampleName = Ok sampleRun /\
  incl [sampleRecord] (entries sampleRun) /\
  exists f,
    parseLogFile (exportLogs [sampleRecord]) sampleName
    = Ok (Parsed (renumberFrom 0 [sampleRecord])
                 (Nat.max 1 (length [sampleRecord])) sampleName f) /\
    ([sampleRecord] <> [] ->
     split_lines (exportLogs [sampleRecord]) = map rawLine [sampleRecord]) /\
    map rawLine (renumberFrom 0 [sampleRecord]) = map rawLine [sampleRecord].
Proof.
  pose proof sampleRun_Ok as Hr.
  assert (Hi : incl [sampleRecord] (entries sampleRun)).
  { intros e [<-|[]]. exact sampleRecord_In. }
  split; [exact Hr|]. split; [exact Hi|].
  exact (@export_parses_back RefHost threeLines sampleName sampleRun
           [sampleRecord] sampleName Hr Hi).
Defined.

(** The witness of X21. *)
Lemma handleFile_outcome_witness :
  file_name (sampleFile (lit "first line")) = lit "app" ++ lit ".log" /\
  noBrace (lit "first line") /\
  exists r,
    parsedLog (handleFile (sampleFile (lit "first line")) emptyState)
    = Some r /\
    filename r = lit "app.log" /\
    totalLines r = S (countNewlines (lit "first line")).
Proof.
  assert (Hn : file_name (sampleFile (lit "first line"))
               = lit "app" ++ lit ".log") by reflexivity.
  assert (Hb : noBrace (lit "first line")).
  { intros Hin. simpl in Hin.
    repeat (destruct Hin as [Hin|Hin]; [discriminate|]). exact Hin. }
  split; [exact Hn|]. split; [exact Hb|].
  exact (proj1 (proj2 (proj2 (proj2
           (proj2 (@handleFile_outcome RefHost
                     (sampleFile (lit "first line")) emptyState)
              (or_intror (ex_intro _ (lit "app") Hn))))))
           (lit "first line") eq_refl Hb).
Defined.

(* ================================================================== *)
(** * The Apache date *)

Section ApacheDateFacts.

Lemma rmatch_chr cs st k res :
  rmatch (Chr cs) st k = Some res ->
  exists c t, rest st = c :: t /\ cset_mem cs c = true /\
              k (MState (c :: seen st) t (caps st)) = Some res.
Proof.
  cbn [rmatch]. destruct (rest st) as [|c t]; [discriminate|].
  destruct (cset_mem cs c) eqn:E; [|discriminate].
  intros Hk. exists c, t. auto.
Qed.

Lemma must_chr cs n : forall st k res,
  must (rmatch (Chr cs)) n st k = Some res ->
  exists w t, rest st = w ++ t /\ length w = n /\
              Forall (fun c => cset_mem cs c = true) w /\
              k (MState (rev w ++ seen st) t (caps st)) = Some res.
Proof.
  induction n as [|n IH]; intros st k res; cbn [must].
  - intros Hk. exists [], (rest st). destruct st. auto.
  - intros Hm. apply rmatch_chr in Hm.
    destruct Hm as (c & t & Hr & Hc & Hm).
    apply IH in Hm. destruct Hm as (w & t' & Hr' & Hl & HF & Hk).
    cbn [rest seen caps] in *. subst t.
    exists (c :: w), t'. split; [exact Hr|]. split; [simpl; lia|].
    split; [constructor; assumption|].
    cbn [rev]. rewrite <- app_assoc. exact Hk.
Qed.

Lemma rmatch_times cs n st k res :
  rmatch (times n (Chr cs)) st k = Some res ->
  exists w t, rest st = w ++ t /\ length w = n /\
              Forall (fun c => cset_mem cs c = true) w /\
              k (MState (rev w ++ seen st) t (caps st)) = Some res.
Proof.
  unfold times. cbn [rmatch]. intros Hm. apply must_chr in Hm.
  destruct Hm as (w & t & Hr & Hl & HF & Hk).
  exists w, t. split; [exact Hr|]. split; [exact Hl|]. split; [exact HF|].
  unfold rounds in Hk. rewrite Nat.sub_diag in Hk. exact Hk.
Qed.

Lemma captured_seen st st' w :
  seen st' = rev w ++ seen st -> captured st st' = w.
Proof.
  intros E. unfold captured. rewrite E, length_app, length_rev.
  replace (length w + length (seen st) - length (seen st)) with (length w)
    by lia.
  rewrite <- (length_rev w) at 1.
  rewrite firstn_app, firstn_all, Nat.sub_diag. cbn [firstn].
  rewrite app_nil_r. apply rev_involutive.
Qed.

Lemma lit_mem c x : cset_mem (Lit x) c = true -> c = x.
Proof. cbn [cset_mem]. apply Ascii.eqb_eq. Qed.

(** A match of the Apache date: two digits, a capital and two small
    letters, four digits, between slashes and before a colon. *)
Lemma match_at_apache_date pre post m :
  match_at re_apache_date pre post = Some m ->
  exists dd u ll yyyy post',
    post = dd ++ "/"%char :: u :: ll ++ "/"%char :: yyyy ++ ":"%char :: post' /\
    length dd = 2 /\ Forall (fun c => isDigit c = true) dd /\
    isUpper u = true /\
    length ll = 2 /\ Forall (fun c => isLower c = true) ll /\
    length yyyy = 4 /\ Forall (fun c => isDigit c = true) yyyy /\
    rest m = post' /\
    length (seen m) = length pre + 12 /\
    group m 0 = Some (dd ++ "/"%char :: u :: ll ++ "/"%char :: yyyy ++ [":"%char]) /\
    group m 1 = Some dd /\ group m 2 = Some (u :: ll) /\
    group m 3 = Some yyyy.
Proof.
  unfold match_at, re_apache_date.
  cbn [seq d ch lit list_ascii_of_string map rng].
  cbn [rmatch]. intros Hm.
  apply rmatch_times in Hm. destruct Hm as (dd & t1 & R1 & L1 & F1 & Hm).
  cbn [rest seen caps set_cap] in *.
  destruct t1 as [|c1 t1]; [discriminate|].
  destruct (cset_mem (Lit "/") c1) eqn:C1; [|discriminate].
  apply lit_mem in C1. subst c1.
  destruct t1 as [|u t1]; [discriminate|].
  destruct (cset_mem (Range "A" "Z") u) eqn:CU; [|discriminate].
  apply rmatch_times in Hm. destruct Hm as (ll & t2 & R2 & L2 & F2 & Hm).
  cbn [rest seen caps set_cap] in *.
  destruct t2 as [|c2 t2]; [discriminate|].
  destruct (cset_mem (Lit "/") c2) eqn:C2; [|discriminate].
  apply lit_mem in C2. subst c2.
  apply rmatch_times in Hm. destruct Hm as (yyyy & t3 & R3 & L3 & F3 & Hm).
  cbn [rest seen caps set_cap] in *.
  destruct t3 as [|c3 t3]; [discriminate|].
  destruct (cset_mem (Lit ":") c3) eqn:C3; [|discriminate].
  apply lit_mem in C3. subst c3.
  inversion Hm; subst m. clear Hm.
  exists dd, u, ll, yyyy, t3. subst post t1 t2.
  split; [reflexivity|]. split; [exact L1|]. split; [exact F1|].
  split; [exact CU|]. split; [exact L2|]. split; [exact F2|].
  split; [exact L3|]. split; [exact F3|]. split; [reflexivity|].
  split.
  { cbn [seen set_cap length]. rewrite !length_app. cbn [length].
    rewrite !length_app. cbn [length]. rewrite !length_app, !length_rev.
    lia. }
  unfold group. cbn [caps set_cap assoc_nat Nat.eqb].
  split; [|split; [|split]]; f_equal; apply captured_seen; cbn [seen];
    repeat (first [rewrite rev_app_distr | rewrite <- app_assoc
                  | progress cbn [rev app]]); reflexivity.
Qed.

(** A text that begins with an Apache date is matched where it
    begins. *)
Lemma match_at_apache_date_complete pre post :
  dateAt post -> exists m, match_at re_apache_date pre post = Some m.
Proof.
  intros (dd & mon & yyyy & post' & (L1 & F1 & (u & ll & -> & U & L2 & F2)
                                     & L3 & F3) & ->).
  destruct dd as [|d1 [|d2 [|]]]; try discriminate.
  destruct ll as [|l1 [|l2 [|]]]; try discriminate.
  destruct yyyy as [|y1 [|y2 [|y3 [|y4 [|]]]]]; try discriminate.
  inversion F1 as [|? ? D1 F1a]; subst. inversion F1a as [|? ? D2 _]; subst.
  inversion F2 as [|? ? M1 F2a]; subst. inversion F2a as [|? ? M2 _]; subst.
  inversion F3 as [|? ? Y1 F3a]; subst. inversion F3a as [|? ? Y2 F3b]; subst.
  inversion F3b as [|? ? Y3 F3c]; subst.
  inversion F3c as [|? ? Y4 _]; subst.
  cbv [match_at re_apache_date seq d ch lit list_ascii_of_string map rng
       times rmatch must more rounds rest seen caps set_cap app Nat.sub
       Nat.min cset_mem].
  change (in_range (code "A") (code "Z") u) with (isUpper u).
  change (in_range (code "a") (code "z") l1) with (isLower l1).
  change (in_range (code "a") (code "z") l2) with (isLower l2).
  rewrite D1, D2, U, M1, M2, Y1, Y2, Y3, Y4.
  cbn [Ascii.eqb Bool.eqb].
  eexists. reflexivity.
Qed.

(** [exec_from] returns the match at the first position that has
    one. *)
Lemma exec_from_first r : forall post pre m,
  exec_from r pre post = Some m ->
  exists a b, post = a ++ b /\ match_at r (rev a ++ pre) b = Some m /\
    forall a1 a2, a = a1 ++ a2 -> a2 <> [] ->
                  match_at r (rev a1 ++ pre) (a2 ++ b) = None.
Proof.
  induction post as [|c post IH]; intros pre m; cbn [exec_from].
  - destruct (match_at r pre []) eqn:E; [|discriminate].
    intros Hm. inversion Hm; subst. exists [], [].
    split; [reflexivity|]. split; [exact E|].
    intros a1 a2 Ha Hne. symmetry in Ha. apply app_eq_nil in Ha.
    destruct Ha. contradiction.
  - destruct (match_at r pre (c :: post)) eqn:E.
    + intros Hm. inversion Hm; subst. exists [], (c :: post).
      split; [reflexivity|]. split; [exact E|].
      intros a1 a2 Ha Hne. symmetry in Ha. apply app_eq_nil in Ha.
      destruct Ha. contradiction.
    + intros Hm. apply IH in Hm. destruct Hm as (a & b & -> & Hm & Hfirst).
      exists (c :: a), b. split; [reflexivity|].
      split; [cbn [rev]; rewrite <- app_assoc; exact Hm|].
      intros a1 a2 Ha Hne. destruct a1 as [|c1 a1].
      * cbn [app] in Ha. subst a2. exact E.
      * cbn [app] in Ha. inversion Ha; subst c1 a.
        cbn [rev]. rewrite <- app_assoc. apply Hfirst; [reflexivity|exact Hne].
Qed.

Lemma exec_from_None r : forall post pre,
  exec_from r pre post = None ->
  forall a b, post = a ++ b -> match_at r (rev a ++ pre) b = None.
Proof.
  induction post as [|c post IH]; intros pre; cbn [exec_from].
  - destruct (match_at r pre []) eqn:E; [discriminate|].
    intros _ a b Hab. symmetry in Hab. apply app_eq_nil in Hab.
    destruct Hab; subst. exact E.
  - destruct (match_at r pre (c :: post)) eqn:E; [discriminate|].
    intros Hm a b Hab. destruct a as [|c1 a].
    + cbn [app] in Hab. subst b. exact E.
    + cbn [app] in Hab. inversion Hab; subst c1 post.
      cbn [rev]. rewrite <- app_assoc. apply (IH _ Hm). reflexivity.
Qed.

(** X23.  The Apache interpreter of [parseTimestamp] rewrites the first
    date of the form dd/Mon/yyyy: of the text, two digits, a capital
    and two small letters and four digits between slashes and before a
    colon, into yyyy-Mon-dd and a blank; no such date begins before the
    one rewritten, and the text before and after it is left as it is.
    A text in which no such date begins anywhere is not changed.  The
    length of the text is kept. *)
Theorem replace_apache_date_reorders ts :
  length (replace_apache_date ts) = length ts /\
  (((forall a b, ts = a ++ b -> ~ dateAt b) /\
    replace_apache_date ts = ts) \/
   exists pre dd mon yyyy post,
     ts = pre ++ dd ++ lit "/" ++ mon ++ lit "/" ++ yyyy ++ lit ":" ++ post /\
     apacheDate dd mon yyyy /\
     (forall a b, pre = a ++ b -> b <> [] ->
        ~ dateAt (b ++ dd ++ lit "/" ++ mon ++ lit "/" ++ yyyy
                    ++ lit ":" ++ post)) /\
     replace_apache_date ts
     = pre ++ yyyy ++ lit "-" ++ mon ++ lit "-" ++ dd ++ lit " " ++ post).
Proof.
  unfold replace_apache_date.
  destruct (exec re_apache_date ts) as [m|] eqn:Em.
  2:{ split; [reflexivity|]. left. split; [|reflexivity].
      intros a b Hab Hd.
      pose proof (exec_from_None _ _ _ Em a b Hab) as Hn.
      destruct (match_at_apache_date_complete (rev a ++ []) b Hd) as [m Hm].
      congruence. }
  unfold exec in Em. apply exec_from_first in Em.
  destruct Em as (pre & post & Hts & Hm & Hfirst).
  pose proof Hm as Hm'. apply match_at_apache_date in Hm'.
  destruct Hm' as (dd & u & ll & yyyy & post' & Hp & L1 & F1 & U & L2 & F2
                   & L3 & F3 & Hr & Hs & G0 & G1 & G2 & G3).
  unfold groupOr. rewrite G0, G1, G2, G3, Hr, Hs.
  assert (Hw : length (dd ++ "/"%char :: u :: ll ++ "/"%char
                          :: yyyy ++ [":"%char]) = 12).
  { rewrite length_app. cbn [length]. rewrite length_app. cbn [length].
    rewrite length_app. cbn [length]. lia. }
  rewrite Hw.
  replace (length (rev pre ++ []) + 12 - 12) with (length pre)
    by (rewrite app_nil_r, length_rev; lia).
  rewrite Hts, firstn_app, firstn_all, Nat.sub_diag. cbn [firstn].
  rewrite app_nil_r. subst post.
  assert (Heq : pre ++ dd ++ "/"%char :: u :: ll ++ "/"%char
                  :: yyyy ++ ":"%char :: post'
                = pre ++ dd ++ lit "/" ++ (u :: ll) ++ lit "/"
                  ++ yyyy ++ lit ":" ++ post') by reflexivity.
  split.
  - rewrite !length_app. cbn [length lit list_ascii_of_string].
    rewrite !length_app. cbn [length]. rewrite !length_app.
    cbn [length]. lia.
  - right. exists pre, dd, (u :: ll), yyyy, post'.
    split; [exact Heq|].
    split; [repeat split; try assumption; exists u, ll; auto|].
    split; [|reflexivity].
    intros a b Hab Hne Hd.
    destruct (match_at_apache_date_complete (rev a ++ []) _ Hd) as [m' Hm'].
    pose proof (Hfirst a b Hab Hne) as Hn.
    change (match_at re_apache_date (rev a ++ [])
              (b ++ dd ++ lit "/" ++ (u :: ll) ++ lit "/" ++ yyyy
                 ++ lit ":" ++ post') = None) in Hn.
    rewrite Hn in Hm'. discriminate.
Qed.

End ApacheDateFacts.

(** The witness of X23: of two dates the first is rewritten. *)
Lemma replace_apache_date_reorders_witness :
  replace_apache_date twoDates
    = lit "at 2000-Oct-10 13:55:36 and 11/Nov/2001:" /\
  length (replace_apache_date twoDates) = length twoDates.
Proof.
  split; [vm_compute; reflexivity|].
  exact (proj1 (replace_apache_date_reorders twoDates)).
Defined.

(* ================================================================== *)
(** * When a run throws *)

Section ThrowFacts.

Context {H : Host}.

Lemma bind_Throw {A B : Type} (m : result A) (f : A -> result B) e :
  bind m f = Throw e -> m = Throw e \/ exists a, m = Ok a /\ f a = Throw e.
Proof.
  destruct m as [a|e']; cbn [bind]; [eauto|].
  intros E. inversion E. left. reflexivity.
Qed.

(** A conversion to a string throws nothing but a [TypeError]. *)
Lemma toStr_TypeError : forall v e, toStr v = Throw e -> e = TypeError.
Proof.
  fix IH 1. intros v e. destruct v as [|b|n|s|l|m]; cbn [toStr];
    try discriminate.
  - intros Hb. apply bind_Throw in Hb.
    destruct Hb as [Hb|(a & _ & Hb)]; [|discriminate].
    revert Hb. revert l. fix IHl 1. intros l.
    destruct l as [|x l]; [discriminate|].
    intros Hb. apply bind_Throw in Hb. destruct Hb as [Hb|(s & _ & Hb)].
    + assert (Hx : toStr x = Throw e)
        by (destruct x; try discriminate; exact Hb).
      exact (IH x e Hx).
    + apply bind_Throw in Hb. destruct Hb as [Hb|(r & _ & Hb)];
        [apply (IHl _ Hb)|discriminate].
  - destruct (assoc (lit "toString") m); [|discriminate].
    intros E. inversion E. reflexivity.
Qed.

Lemma pick_object m keys :
  exists v, pick (JObj m) keys = Ok v /\
    (v = None \/ exists k, In k keys /\ assoc (lit k) m = v).
Proof.
  induction keys as [|k keys IH]; cbn [pick get bind].
  - exists None. auto.
  - destruct IH as (v & Hv & Hk).
    destruct (assoc (lit k) m) as [j|] eqn:Ea.
    + destruct j; try (eexists; split; [reflexivity|];
                       right; exists k; split; [left; reflexivity|exact Ea]).
      exists v. split; [exact Hv|].
      destruct Hk as [->|(k' & Hin & Hk')]; [auto|].
      right. exists k'. split; [right; exact Hin|exact Hk'].
    + exists v. split; [exact Hv|].
      destruct Hk as [->|(k' & Hin & Hk')]; [auto|].
      right. exists k'. split; [right; exact Hin|exact Hk'].
Qed.

Lemma pick_object_Ok m keys e : pick (JObj m) keys <> Throw e.
Proof.
  destruct (pick_object m keys) as (v & Hv & _). rewrite Hv. discriminate.
Qed.

(** A conversion that throws on a value picked from an object: the
    value stands under one of the keys. *)
Lemma throws_in keys m v e :
  incl keys printedKeys ->
  pick (JObj m) keys = Ok v -> String_ v = Throw e ->
  exists k j, In k printedKeys /\ assoc (lit k) m = Some j /\
              toStr j = Throw e.
Proof.
  intros Hincl Hp Hs. destruct (pick_object m keys) as (v' & Hv & Hk).
  rewrite Hp in Hv. inversion Hv; subst v'. clear Hv.
  destruct v as [j|]; [|discriminate].
  destruct Hk as [Hk|(k & Hin & Hk)]; [discriminate|].
  exists k, j. split; [apply Hincl, Hin|]. split; [exact Hk|exact Hs].
Qed.

Lemma push_if_throws v e : push_if v = Throw e -> String_ v = Throw e.
Proof.
  unfold push_if. destruct (truthy_opt v); [|discriminate].
  intros Hb. apply bind_Throw in Hb.
  destruct Hb as [Hb|(s & _ & Hb)]; [exact Hb|discriminate].
Qed.

Lemma coerceLevel_throws v e : coerceLevel v = Throw e -> String_ v = Throw e.
Proof.
  unfold coerceLevel. destruct (negb (truthy_opt v)); [discriminate|].
  intros Hb. apply bind_Throw in Hb.
  destruct Hb as [Hb|(s & _ & Hb)]; [exact Hb|discriminate].
Qed.

Ltac keys_incl :=
  let k := fresh "k" in
  let Hk := fresh "Hk" in
  intros k Hk; cbn [In printedKeys] in *; tauto.

Lemma derive_throws m e :
  derive (JObj m) = Throw e ->
  exists k j, In k printedKeys /\ assoc (lit k) m = Some j /\
              toStr j = Throw e.
Proof.
  unfold derive. intros Hd.
  apply bind_Throw in Hd. destruct Hd as [Hd|(msg & Emsg & Hd)];
    [exfalso; eapply pick_object_Ok; eauto|].
  apply bind_Throw in Hd. destruct Hd as [Hd|(summary & Esum & Hd)].
  { destruct (truthy_opt msg); [|discriminate].
    apply bind_Throw in Hd. destruct Hd as [Hd|(s & _ & Hd)];
      [|discriminate].
    eapply throws_in; [|exact Emsg|exact Hd]. keys_incl. }
  apply bind_Throw in Hd. destruct Hd as [Hd|(mo & Emo & Hd)];
    [exfalso; eapply pick_object_Ok; eauto|].
  apply bind_Throw in Hd. destruct Hd as [Hd|(fe & Efe & Hd)];
    [exfalso; eapply pick_object_Ok; eauto|].
  apply bind_Throw in Hd. destruct Hd as [Hd|(ty & Ety & Hd)];
    [exfalso; eapply pick_object_Ok; eauto|].
  apply bind_Throw in Hd. destruct Hd as [Hd|(st & Est & Hd)];
    [exfalso; eapply pick_object_Ok; eauto|].
  apply bind_Throw in Hd. destruct Hd as [Hd|(p1 & Ep1 & Hd)].
  { apply push_if_throws in Hd.
    eapply throws_in; [|exact Emo|exact Hd]. keys_incl. }
  apply bind_Throw in Hd. destruct Hd as [Hd|(p2 & Ep2 & Hd)].
  { apply push_if_throws in Hd.
    eapply throws_in; [|exact Efe|exact Hd]. keys_incl. }
  apply bind_Throw in Hd. destruct Hd as [Hd|(p3 & Ep3 & Hd)].
  { assert (Hty : String_ ty = Throw e).
    { destruct (truthy_opt ty); [|discriminate].
      apply bind_Throw in Hd. destruct Hd as [Hd|(df & Edf & Hd)].
      - destruct summary as [sm|]; [|discriminate].
        destruct (nonEmpty sm); [|discriminate].
        apply bind_Throw in Hd.
        destruct Hd as [Hd|(a & _ & Hd)]; [exact Hd|discriminate].
      - destruct df; [|discriminate].
        apply bind_Throw in Hd.
        destruct Hd as [Hd|(a & _ & Hd)]; [exact Hd|discriminate]. }
    eapply throws_in; [|exact Ety|exact Hty]. keys_incl. }
  apply bind_Throw in Hd. destruct Hd as [Hd|(p4 & Ep4 & Hd)].
  { apply push_if_throws in Hd.
    eapply throws_in; [|exact Est|exact Hd]. keys_incl. }
  exfalso. cbv zeta in Hd.
  destruct summary as [sm|];
    repeat match type of Hd with
           | (if ?b then _ else _) = _ => destruct b
           end; discriminate.
Qed.

Lemma applyExtracted_throws e0 x m e :
  ex_json x = JObj m -> applyExtracted e0 x = Throw e ->
  exists k j, In k printedKeys /\ assoc (lit k) m = Some j /\
              toStr j = Throw e.
Proof.
  unfold applyExtracted. intros Hj Hb. rewrite Hj in Hb.
  apply bind_Throw in Hb. destruct Hb as [Hb|(ts & Ets & Hb)].
  { exfalso. destruct (negb (isSome (timestamp e0))); [|discriminate].
    apply bind_Throw in Hb. destruct Hb as [Hb|(v & Ev & Hb)];
      [eapply pick_object_Ok; eauto|].
    destruct v as [[]|]; discriminate. }
  apply bind_Throw in Hb. destruct Hb as [Hb|(lv & Elv & Hb)].
  { destruct (negb (present (level e0))); [|discriminate].
    apply bind_Throw in Hb. destruct Hb as [Hb|(v & Ev & Hb)];
      [exfalso; eapply pick_object_Ok; eauto|].
    apply bind_Throw in Hb. destruct Hb as [Hb|(l & _ & Hb)];
      [|discriminate].
    apply coerceLevel_throws in Hb.
    eapply throws_in; [|exact Ev|exact Hb]. keys_incl. }
  apply bind_Throw in Hb. destruct Hb as [Hb|(so & Eso & Hb)].
  { exfalso. destruct (negb (present (source e0))); [|discriminate].
    apply bind_Throw in Hb. destruct Hb as [Hb|(v & Ev & Hb)];
      [eapply pick_object_Ok; eauto|discriminate]. }
  apply bind_Throw in Hb. destruct Hb as [Hb|(th & Eth & Hb)].
  { exfalso. destruct (negb (present (thread e0))); [|discriminate].
    apply bind_Throw in Hb. destruct Hb as [Hb|(v & Ev & Hb)];
      [eapply pick_object_Ok; eauto|discriminate]. }
  apply bind_Throw in Hb. destruct Hb as [Hb|(dv & Edv & Hb)];
    [|discriminate].
  apply derive_throws, Hb.
Qed.

Lemma loop_throws lines : forall i ents f e,
  loop lines i ents f = Throw e ->
  exists l n e0 f1, In l lines /\ nonEmpty (trim l) = true /\
    classify (trim l) n = (e0, f1) /\ enrich e0 = Throw e.
Proof.
  induction lines as [|l lines IH]; intros i ents f e; cbn [loop];
    [discriminate|].
  destruct (nonEmpty (trim l)) eqn:Hne; cbn [negb].
  - destruct (classify (trim l) (i + 1)) as [e0 f1] eqn:Hc.
    intros Hb. apply bind_Throw in Hb. destruct Hb as [Hb|(en & _ & Hb)].
    + exists l, (i + 1), e0, f1. repeat split; auto. left. reflexivity.
    + apply IH in Hb. destruct Hb as (l' & n & e1 & f2 & Hin & Hr).
      exists l', n, e1, f2. split; [right; exact Hin|exact Hr].
  - intros Hb. apply IH in Hb.
    destruct Hb as (l' & n & e1 & f2 & Hin & Hr).
    exists l', n, e1, f2. split; [right; exact Hin|exact Hr].
Qed.

(** X24.  A run throws in one way only.  The exception is a
    [TypeError]; it comes from the enrichment of a non-blank line
    whose entry has no metadata and whose message holds an object; and
    in that object one of the keys whose values the enrichment prints
    has a value that cannot be converted to a string.  Nothing else
    makes [parseLogFile] throw. *)
Theorem parseLogFile_throws_only_in_enrichment content fn e :
  parseLogFile content fn = Throw e ->
  e = TypeError /\
  exists l n e0 f x m k j,
    In l (split_lines content) /\ nonEmpty (trim l) = true /\
    classify (trim l) n = (e0, f) /\ metadata e0 = None /\
    extractFirstJsonObject (message e0) = Some x /\
    ex_json x = JObj m /\
    In k printedKeys /\ assoc (lit k) m = Some j /\
    toStr j = Throw TypeError.
Proof.
  unfold parseLogFile. intros Hb. apply bind_Throw in Hb.
  destruct Hb as [Hb|(r & _ & Hb)]; [|discriminate].
  apply loop_throws in Hb.
  destruct Hb as (l & n & e0 & f & Hin & Hne & Hc & He).
  unfold enrich in He.
  destruct (negb (truthy_opt (metadata e0))) eqn:Hm; [|discriminate].
  destruct (extractFirstJsonObject (message e0)) as [x|] eqn:Hx;
    [|discriminate].
  assert (Hnone : metadata e0 = None).
  { destruct (metadata e0) as [j0|] eqn:Emeta; [|reflexivity].
    destruct (classify_metadata_json _ _ _ _ _ Hc Emeta) as [Hs Hj].
    destruct (JSON_parse_object _ _ Hs Hj) as [mm ->]. discriminate. }
  destruct (message e0) as [t|] eqn:Emsg;
    [|unfold extractFirstJsonObject in Hx; discriminate].
  destruct (extract_object t x Hx) as [_ [m Hobj]].
  destruct (applyExtracted_throws e0 x m e Hobj He) as (k & j & Hk & Ha & Ht).
  assert (Ee : e = TypeError) by (eapply toStr_TypeError; eauto).
  split; [exact Ee|]. subst e.
  exists l, n, e0, f, x, m, k, j. rewrite Emsg. auto 10.
Qed.

End ThrowFacts.

Lemma toStringLine_throws {H : Host} :
  parseLogFile toStringLine sampleName = Throw TypeError.
Proof. vm_compute. reflexivity. Qed.

(** The witness of X24. *)
Lemma parseLogFile_throws_only_in_enrichment_witness :
  parseLogFile (H := RefHost) toStringLine sampleName = Throw TypeError /\
  exists l n (e0 : LogEntry (H := RefHost)) f x m k j,
    In l (split_lines toStringLine) /\ nonEmpty (trim l) = true /\
    classify (H := RefHost) (trim l) n = (e0, f) /\ metadata e0 = None /\
    extractFirstJsonObject (message e0) = Some x /\
    ex_json x = JObj m /\
    In k printedKeys /\ assoc (lit k) m = Some j /\
    toStr (H := RefHost) j = Throw TypeError.
Proof.
  pose proof (@toStringLine_throws RefHost) as Ht. split; [exact Ht|].
  exact (proj2 (@parseLogFile_throws_only_in_enrichment RefHost
                  toStringLine sampleName TypeError Ht)).
Defined.

(* ================================================================== *)
(** * What a run depends on *)

Section DependenceFacts.

Context {H : Host}.

Lemma loop_trim ls : forall ls' i es f,
  map trim ls = map trim ls' -> loop ls i es f = loop ls' i es f.
Proof.
  induction ls as [|l ls IH]; intros [|l' ls'] i es f Hm;
    try discriminate; [reflexivity|].
  cbn [map] in Hm. inversion Hm as [[Hl Hls]].
  cbn [loop]. rewrite Hl.
  destruct (negb (nonEmpty (trim l'))); [apply IH, Hls|].
  destruct (classify (trim l') (i + 1)) as [e0 f'].
  destruct (enrich e0) as [e|]; cbn [bind]; [apply IH, Hls|reflexivity].
Qed.

Lemma trimStart_app_space l c :
  isSpace c = true ->
  trimStart (l ++ [c]) = [] /\ trimStart l = [] \/
  trimStart (l ++ [c]) = trimStart l ++ [c] /\ trimStart l <> [].
Proof.
  intros Hc. induction l as [|x l IH]; cbn [app trimStart].
  - rewrite Hc. left. auto.
  - destruct (isSpace x); [exact IH|].
    right. split; [reflexivity|discriminate].
Qed.

(** White space at the end of a line does not count. *)
Lemma trim_app_space l c : isSpace c = true -> trim (l ++ [c]) = trim l.
Proof.
  intros Hc. unfold trim.
  destruct (trimStart_app_space l c Hc) as [[-> ->]|[-> _]]; [reflexivity|].
  unfold trimEnd. rewrite rev_app_distr. cbn [rev app trimStart].
  rewrite Hc. reflexivity.
Qed.

Lemma split_lines_crlf ls :
  ls <> [] -> Forall noNewline ls ->
  map trim (split_lines (join [cr; newline] ls)) = map trim ls.
Proof.
  induction ls as [|l ls IH]; [congruence|]. intros _ HF.
  inversion HF as [|? ? Hl Hls]; subst.
  destruct ls as [|l2 ls].
  - cbn [join]. rewrite (split_lines_single Hl). reflexivity.
  - change (join [cr; newline] (l :: l2 :: ls))
      with (l ++ [cr; newline] ++ join [cr; newline] (l2 :: ls)).
    replace (l ++ [cr; newline] ++ join [cr; newline] (l2 :: ls))
      with ((l ++ [cr]) ++ newline :: join [cr; newline] (l2 :: ls))
      by (rewrite <- app_assoc; reflexivity).
    rewrite split_lines_app.
    + cbn [map]. rewrite IH; [|discriminate|exact Hls].
      rewrite trim_app_space; reflexivity.
    + intros c Hc. apply in_app_or in Hc. destruct Hc as [Hc|[<-|[]]];
        [apply Hl, Hc|reflexivity].
Qed.

(** X25.  A run depends on the content only through its trimmed
    lines: two contents whose lines are the same once trimmed give the
    same result, records, line count and format, or throw alike.  So
    indentation and trailing blanks do not matter, and a file with
    carriage returns before its newlines parses as the file without
    them. *)
Theorem parse_depends_on_trimmed_lines fn :
  (forall c1 c2,
     map trim (split_lines c1) = map trim (split_lines c2) ->
     parseLogFile c1 fn = parseLogFile c2 fn) /\
  (forall ls, ls <> [] -> Forall noNewline ls ->
     parseLogFile (join [cr; newline] ls) fn
     = parseLogFile (join [newline] ls) fn).
Proof.
  assert (Hgen : forall c1 c2,
            map trim (split_lines c1) = map trim (split_lines c2) ->
            parseLogFile c1 fn = parseLogFile c2 fn).
  { intros c1 c2 Hm. unfold parseLogFile.
    rewrite (loop_trim _ _ 0 [] (lit "Unknown") Hm).
    assert (Hl : length (split_lines c1) = length (split_lines c2)).
    { rewrite <- (length_map trim (split_lines c1)), Hm. apply length_map. }
    rewrite Hl. reflexivity. }
  split; [exact Hgen|].
  intros ls Hne HF. apply Hgen.
  rewrite (split_lines_crlf ls Hne HF), (split_lines_join ls Hne HF).
  reflexivity.
Qed.

(** X26.  The enrichment is idempotent: an entry that it returns is
    returned unchanged when enriched again, because its metadata, if
    the first pass set it, is an object. *)
Theorem enrich_idempotent e0 e :
  enrich e0 = Ok e -> enrich e = Ok e.
Proof.
  intros He. pose proof He as He'. apply enrich_cases in He'.
  destruct He' as [->|(_ & x & Hx & Ha)]; [exact He|].
  pose proof (@applyExtracted_frame _ _ _ _ Ha)
    as (_ & _ & _ & _ & _ & _ & _ & Hmeta & _).
  destruct (message e0) as [t|] eqn:Emsg;
    [|unfold extractFirstJsonObject in Hx; discriminate].
  destruct (extract_object t x Hx) as [_ [m Hobj]].
  unfold enrich. rewrite Hmeta, Hobj. reflexivity.
Qed.

End DependenceFacts.

(** The witness of X25. *)
Lemma parse_depends_on_trimmed_lines_witness :
  map trim (split_lines crlfLines) = map trim (split_lines lfLines) /\
  parseLogFile (H := RefHost) crlfLines sampleName
  = parseLogFile lfLines sampleName.
Proof.
  assert (Hm : map trim (split_lines crlfLines)
               = map trim (split_lines lfLines)) by reflexivity.
  split; [exact Hm|].
  exact (proj1 (@parse_depends_on_trimmed_lines RefHost sampleName)
           crlfLines lfLines Hm).
Defined.

(** The witness of X26. *)
Lemma enrich_idempotent_witness :
  enrich severityEntry = Ok severityEnriched /\
  enrich severityEnriched = Ok severityEnriched.
Proof.
  assert (He : enrich severityEntry = Ok severityEnriched)
    by (unfold severityEnriched; apply orElse_Ok; vm_compute; reflexivity).
  split; [exact He|].
  exact (@enrich_idempotent RefHost severityEntry severityEnriched He).
Defined.

(* ================================================================== *)
(** * The fields of the formats *)

Section FormatFacts.

Context {H : Host}.

Lemma pattern_by_name p :
  In p LOG_PATTERNS ->
  (name p = lit "Syslog format" ->
   regex_of p = re_syslog /\
   groups_of p = Groups (Some 1) None (Some 4) (Some 2) (Some 3)) /\
  (name p = lit "Apache access" ->
   regex_of p = re_apache /\
   groups_of p = Groups (Some 2) (Some 4) (Some 3) (Some 1) None) /\
  (name p = lit "ISO with level" \/ name p = lit "Standard format" \/
   name p = lit "Simple timestamp" \/ name p = lit "JSON format" ->
   g_source (groups_of p) = None /\ g_thread (groups_of p) = None).
Proof.
  intros Hin. simpl in Hin.
  destruct Hin as [<-|[<-|[<-|[<-|[<-|[<-|[]]]]]]];
    (split; [|split]); intros Hn;
    try discriminate; try (split; reflexivity);
    repeat (destruct Hn as [Hn|Hn]; try discriminate).
Qed.

Lemma syslog_classes c :
  (groupChars 2 (Group 0 re_syslog) c = true -> isWord c = true) /\
  (groupChars 3 (Group 0 re_syslog) c = true -> c <> ":"%char).
Proof.
  destruct c as [[] [] [] [] [] [] [] []]; vm_compute;
    split; intros; congruence.
Qed.

Lemma apache_classes c :
  (groupChars 1 (Group 0 re_apache) c = true -> isSpace c = false) /\
  (groupChars 3 (Group 0 re_apache) c = true -> c <> dquote).
Proof.
  destruct c as [[] [] [] [] [] [] [] []]; vm_compute;
    split; intros; congruence.
Qed.

(** A group of the pattern that every match goes through, with what it
    captured. *)
Lemma assigned_group p m line i :
  exec (regex_of p) line = Some m ->
  assigns i (Group 0 (regex_of p)) = true ->
  exists s, group m i = Some s /\
            Forall (fun c => groupChars i (Group 0 (regex_of p)) c = true) s /\
            (strict i (Group 0 (regex_of p)) = true -> s <> []).
Proof.
  intros Hm Ha. destruct (exec_group_assigned _ _ _ _ Hm Ha) as [s Hs].
  exists s. split; [exact Hs|]. split; [eapply exec_group_chars; eauto|].
  intros Hst. eapply exec_group_nonEmpty; eauto.
Qed.

(** The fields that the patterns capture, by the name of the pattern. *)
Lemma pattern_fields line n e f :
  tryPatterns LOG_PATTERNS line n = Some (e, f) ->
  (f = lit "Syslog format" ->
   (exists s, source e = Some s /\ s <> [] /\
              Forall (fun c => isWord c = true) s) /\
   (exists t, thread e = Some t /\ t <> [] /\ ~ In ":"%char t) /\
   level e = detectLogLevel line) /\
  (f = lit "Apache access" ->
   (exists s, source e = Some s /\ s <> [] /\
              Forall (fun c => isSpace c = false) s) /\
   (exists t, message e = Some t /\ ~ In dquote t) /\
   thread e = None) /\
  (f = lit "ISO with level" \/ f = lit "Standard format" \/
   f = lit "Simple timestamp" \/ f = lit "JSON format" ->
   source e = None /\ thread e = None).
Proof.
  intros Hp. apply tryPatterns_inv in Hp.
  destruct Hp as (p & m & Hin & Hm & -> & ->).
  destruct (pattern_by_name p Hin) as (Hsys & Hap & Hoth).
  split; [|split].
  - intros Hn. destruct (Hsys Hn) as [Hre Hg].
    cbn [patternEntry source thread level]. rewrite Hg.
    cbn [g_source g_thread g_level field].
    destruct (assigned_group p m line 2 Hm) as (s & Hs & Cs & Ns);
      [rewrite Hre; reflexivity|].
    destruct (assigned_group p m line 3 Hm) as (t & Ht & Ct & Nt);
      [rewrite Hre; reflexivity|].
    rewrite Hre in Cs, Ns, Ct, Nt.
    split; [|split; [|reflexivity]].
    + exists s. split; [exact Hs|]. split; [apply Ns; reflexivity|].
      eapply Forall_impl; [|exact Cs]. intros c.
      exact (proj1 (syslog_classes c)).
    + exists t. split; [exact Ht|]. split; [apply Nt; reflexivity|].
      intros Hc. rewrite Forall_forall in Ct.
      apply (proj2 (syslog_classes ":"%char) (Ct _ Hc)). reflexivity.
  - intros Hn. destruct (Hap Hn) as [Hre Hg].
    cbn [patternEntry source thread message]. rewrite Hg.
    cbn [g_source g_thread g_message field].
    destruct (assigned_group p m line 1 Hm) as (s & Hs & Cs & Ns);
      [rewrite Hre; reflexivity|].
    destruct (assigned_group p m line 3 Hm) as (t & Ht & Ct & _);
      [rewrite Hre; reflexivity|].
    rewrite Hre in Cs, Ns, Ct.
    split; [|split; [|reflexivity]].
    + exists s. split; [exact Hs|]. split; [apply Ns; reflexivity|].
      eapply Forall_impl; [|exact Cs]. intros c.
      exact (proj1 (apache_classes c)).
    + exists t. split; [exact Ht|].
      intros Hc. rewrite Forall_forall in Ct.
      apply (proj2 (apache_classes dquote) (Ct _ Hc)). reflexivity.
  - intros Hn. destruct (Hoth Hn) as [Hs Ht].
    cbn [patternEntry source thread]. rewrite Hs, Ht. split; reflexivity.
Qed.

(** X27.  The source and the thread by format.  In Syslog format the
    source is the host, a non-empty word, the thread is the non-empty
    text before the first colon after it, and the level is the one the
    heuristic finds in the whole line.  In Apache access the source is
    the first token of the line, without white space, the message is
    the request, without double quote, and there is no thread.  In the
    other pattern formats there is neither source nor thread. *)
Theorem source_and_thread_by_format line n e f :
  classify line n = (e, f) ->
  (f = lit "Syslog format" ->
   (exists s, source e = Some s /\ s <> [] /\
              Forall (fun c => isWord c = true) s) /\
   (exists t, thread e = Some t /\ t <> [] /\ ~ In ":"%char t) /\
   level e = detectLogLevel line) /\
  (f = lit "Apache access" ->
   (exists s, source e = Some s /\ s <> [] /\
              Forall (fun c => isSpace c = false) s) /\
   (exists t, message e = Some t /\ ~ In dquote t) /\
   thread e = None) /\
  (f = lit "ISO with level" \/ f = lit "Standard format" \/
   f = lit "Simple timestamp" \/ f = lit "Plain text" ->
   source e = None /\ thread e = None).
Proof.
  intros Hc. apply classify_cases in Hc.
  destruct Hc as [[_ ->]|[Hp|(_ & -> & ->)]].
  - split; [|split]; intros Hn; try discriminate.
    repeat (destruct Hn as [Hn|Hn]; try discriminate).
  - destruct (pattern_fields line n e f Hp) as (Hsys & Hap & Hoth).
    split; [exact Hsys|]. split; [exact Hap|].
    intros Hn. apply Hoth.
    destruct Hn as [Hn|[Hn|[Hn|Hn]]]; auto.
    exfalso. apply tryPatterns_inv in Hp.
    destruct Hp as (p & m & Hin & _ & _ & Hf). subst f.
    simpl in Hin.
    destruct Hin as [<-|[<-|[<-|[<-|[<-|[<-|[]]]]]]]; discriminate.
  - split; [|split]; intros Hn; try discriminate.
    split; reflexivity.
Qed.

End FormatFacts.

(** The witness of X27. *)
Lemma source_and_thread_by_format_witness :
  classify syslogLine 1 = (syslogEntry, lit "Syslog format") /\
  source syslogEntry = Some (lit "web01") /\
  thread syslogEntry = Some (lit "sshd[42]") /\
  (exists t, thread syslogEntry = Some t /\ t <> [] /\ ~ In ":"%char t).
Proof.
  assert (Hc : classify syslogLine 1 = (syslogEntry, lit "Syslog format"))
    by (unfold syslogEntry; apply pair_snd; vm_compute; reflexivity).
  split; [exact Hc|]. split; [vm_compute; reflexivity|].
  split; [vm_compute; reflexivity|].
  exact (proj1 (proj2 (proj1 (@source_and_thread_by_format RefHost
                                syslogLine 1 syslogEntry
                                (lit "Syslog format") Hc) eq_refl))).
Defined.

(* ================================================================== *)
(** * The choice among candidate keys *)

Section CandidateFacts.

Context {H : Host}.

Lemma or_assoc (a b c : result value) : or_ (or_ a b) c = or_ a (or_ b c).
Proof.
  destruct a as [x|e]; [|reflexivity].
  unfold or_. cbn [bind].
  destruct (truthy_opt x) eqn:T; cbn [bind]; [|reflexivity].
  rewrite T. reflexivity.
Qed.

(** The first truthy candidate is the first candidate that is neither
    absent nor [null], as far as strings go, when no candidate is
    there and falsy. *)
Lemma orChain_pick j keys :
  noFalsyCandidate j keys ->
  forall v v', orChain j keys = Ok v -> pick j keys = Ok v' ->
               ifString v = ifString v'.
Proof.
  induction keys as [|k keys IH]; intros Hno v v'.
  - cbn [orChain pick]. intros E E'. inversion E. inversion E'.
    reflexivity.
  - assert (Hno' : noFalsyCandidate j keys).
    { intros k0 v0 Hin. apply Hno. right. exact Hin. }
    assert (Hk : forall v0, get j k = Ok (Some v0) ->
                 v0 = JNull \/ truthy v0 = true).
    { intros v0. apply Hno. left. reflexivity. }
    cbn [pick]. destruct keys as [|k2 keys].
    + cbn [orChain pick]. intros E. rewrite E. cbn [bind].
      destruct v as [v0|].
      * destruct v0; intros E'; inversion E'; reflexivity.
      * intros E'. inversion E'. reflexivity.
    + change (orChain j (k :: k2 :: keys))
        with (or_ (get j k) (orChain j (k2 :: keys))).
      unfold or_. destruct (get j k) as [v0|] eqn:Eg; [|discriminate].
      cbn [bind]. destruct (truthy_opt v0) eqn:T.
      * intros E. inversion E; subst v0. clear E.
        destruct v as [x|]; [|discriminate].
        destruct x; try discriminate; intros E'; inversion E';
          reflexivity.
      * intros E E'. apply (IH Hno' v v' E).
        destruct v0 as [x|]; [|exact E'].
        destruct (Hk x eq_refl) as [->|Tx]; [exact E'|].
        cbn [truthy_opt] in T. congruence.
Qed.

Lemma jsonEntry_source j line n q :
  jsonEntry j line n = Ok q ->
  (exists v, orChain j sourceKeys = Ok v /\ source q = ifString v) /\
  (exists v, orChain j threadKeys = Ok v /\ thread q = ifString v).
Proof.
  unfold jsonEntry. intros Hb. do 5 bind_inv Hb.
  inversion Hb; subst q. cbn [source thread]. clear Hb.
  split.
  - exists a2. split; [|reflexivity].
    cbn [orChain sourceKeys]. rewrite <- !or_assoc. assumption.
  - exists a3. split; [|reflexivity].
    cbn [orChain threadKeys]. rewrite <- !or_assoc. assumption.
Qed.

Lemma applyExtracted_source e x e' :
  applyExtracted e x = Ok e' ->
  (present (source e) = false ->
   exists v, pick (ex_json x) sourceKeys = Ok v /\
     source e' = match ifString v with
                 | Some s => Some s
                 | None => source e
                 end) /\
  (present (thread e) = false ->
   exists v, pick (ex_json x) threadKeys = Ok v /\
     thread e' = match ifString v with
                 | Some s => Some s
                 | None => thread e
                 end).
Proof.
  unfold applyExtracted. intros Hb. do 5 bind_inv Hb.
  inversion Hb; subst e'. cbn [source thread]. clear Hb.
  split; intros P.
  - rewrite P in E1. cbn [negb] in E1. bind_inv E1.
    exists a4. split; [assumption|]. inversion E1.
    destruct a4 as [[]|]; reflexivity.
  - rewrite P in E2. cbn [negb] in E2. bind_inv E2.
    exists a4. split; [assumption|]. inversion E2.
    destruct a4 as [[]|]; reflexivity.
Qed.

(** X28.  The two paths choose among the same candidate keys in the
    same order, but not by the same test: [parseJsonLog] takes the
    first truthy value, the enrichment the first that is neither
    absent nor [null].  On an object none of whose candidates is there
    and falsy they agree: the enrichment gives an entry without source
    the source that the object alone on a line gets, and likewise the
    thread.  An empty string as first candidate parts them: the
    full-line path goes on to the next candidate, the enrichment
    stores the empty string. *)
Theorem candidate_choice j line n q e x e' :
  jsonEntry j line n = Ok q -> ex_json x = j ->
  applyExtracted e x = Ok e' ->
  (present (source e) = false -> noFalsyCandidate j sourceKeys ->
   source e' = match source q with Some s => Some s | None => source e end)
  /\
  (present (thread e) = false -> noFalsyCandidate j threadKeys ->
   thread e' = match thread q with Some s => Some s | None => thread e end)
  /\
  option_map source
    (match jsonEntry emptySourceObject line n with
     | Ok q' => Some q'
     | Throw _ => None
     end) = Some (Some (lit "app")) /\
  option_map source
    (match applyExtracted (plainEntry (lit "x") 1)
                          (Extraction_ emptySourceObject 0 0) with
     | Ok e'' => Some e''
     | Throw _ => None
     end) = Some (Some []).
Proof.
  intros Hq Hx Ha. subst j.
  destruct (jsonEntry_source _ _ _ _ Hq) as [(vs & Hvs & Es) (vt & Hvt & Et)].
  destruct (applyExtracted_source _ _ _ Ha) as [Hs Ht].
  split; [|split; [|split]].
  - intros P Hno. destruct (Hs P) as (v & Hv & ->).
    rewrite Es, (orChain_pick _ _ Hno _ _ Hvs Hv). reflexivity.
  - intros P Hno. destruct (Ht P) as (v & Hv & ->).
    rewrite Et, (orChain_pick _ _ Hno _ _ Hvt Hv). reflexivity.
  - reflexivity.
  - reflexivity.
Qed.

End CandidateFacts.

(** The witness of X28. *)
Lemma candidate_choice_witness :
  jsonEntry loggerObject (lit "x") 1 = Ok loggerEntry /\
  applyExtracted bareEntry (Extraction_ loggerObject 0 0)
  = Ok (backfilled loggerObject) /\
  present (source bareEntry) = false /\
  noFalsyCandidate loggerObject sourceKeys /\
  source (backfilled loggerObject)
  = match source loggerEntry with
    | Some s => Some s
    | None => source bareEntry
    end.
Proof.
  assert (Hq : jsonEntry loggerObject (lit "x") 1 = Ok loggerEntry)
    by (unfold loggerEntry; apply orElse_Ok; vm_compute; reflexivity).
  assert (Ha : applyExtracted bareEntry (Extraction_ loggerObject 0 0)
               = Ok (backfilled loggerObject))
    by (unfold backfilled; apply orElse_Ok; vm_compute; reflexivity).
  assert (Hp : present (source bareEntry) = false) by reflexivity.
  assert (Hno : noFalsyCandidate loggerObject sourceKeys).
  { intros k v Hin Hg. right. cbn [sourceKeys In] in Hin.
    unfold loggerObject in Hg. cbn [get] in Hg.
    destruct Hin as [<-|[<-|[<-|[<-|[]]]]];
      cbn in Hg; inversion Hg; reflexivity. }
  split; [exact Hq|]. split; [exact Ha|]. split; [exact Hp|].
  split; [exact Hno|].
  exact (proj1 (@candidate_choice RefHost loggerObject (lit "x") 1
                  loggerEntry bareEntry (Extraction_ loggerObject 0 0)
                  (backfilled loggerObject) Hq eq_refl Ha) Hp Hno).
Defined.

(* ================================================================== *)
(** * The candidate keys of the four fields *)

Section BackfillFacts.

Context {H : Host}.

(** [pick] returns the value of the first key that has one. *)
Lemma pick_first m pre k post v :
  Forall (unset m) pre -> assoc (lit k) m = Some v -> v <> JNull ->
  pick (JObj m) (pre ++ k :: post) = Ok (Some v).
Proof.
  intros Hpre Hk Hv. induction Hpre as [|k' pre Hk' _ IH].
  - cbn [app pick get bind]. rewrite Hk.
    destruct v; try reflexivity. exfalso. apply Hv. reflexivity.
  - cbn [app pick get bind]. destruct Hk' as [-> | ->]; exact IH.
Qed.

(** The chain of [||] returns the first value that is truthy; a key
    without value is passed over. *)
Lemma orChain_first m pre k post v :
  Forall (unset m) pre -> assoc (lit k) m = Some v -> truthy v = true ->
  orChain (JObj m) (pre ++ k :: post) = Ok (Some v).
Proof.
  intros Hpre Hk Hv. induction Hpre as [|k' pre Hk' _ IH].
  - cbn [app]. destruct post as [|k2 post].
    + cbn [orChain get]. rewrite Hk. reflexivity.
    + change (orChain (JObj m) (k :: k2 :: post))
        with (or_ (get (JObj m) k) (orChain (JObj m) (k2 :: post))).
      unfold or_. cbn [get bind]. rewrite Hk. cbn [truthy_opt].
      rewrite Hv. reflexivity.
  - cbn [app]. destruct (pre ++ k :: post) as [|k2 rest] eqn:E.
    + destruct pre; discriminate.
    + change (orChain (JObj m) (k' :: k2 :: rest))
        with (or_ (get (JObj m) k') (orChain (JObj m) (k2 :: rest))).
      unfold or_. cbn [get bind].
      destruct Hk' as [-> | ->]; cbn [truthy_opt truthy]; exact IH.
Qed.

Lemma jsonEntry_timestamp j line n q :
  jsonEntry j line n = Ok q ->
  (exists v, orChain j timestampKeys = Ok v /\
             timestamp q = if truthy_opt v then parseTimestamp v else None) /\
  levelOf j = Ok (level q).
Proof.
  unfold jsonEntry. intros Hb. do 5 bind_inv Hb.
  inversion Hb; subst q. cbn [timestamp level]. clear Hb.
  split; [|assumption].
  exists a. split; [|reflexivity].
  cbn [orChain timestampKeys]. rewrite <- !or_assoc. assumption.
Qed.

Lemma applyExtracted_timestamp e x e' :
  applyExtracted e x = Ok e' -> isSome (timestamp e) = false ->
  exists v, pick (ex_json x) timestampKeys = Ok v /\
    match v with
    | Some (JStr s) => timestamp e' = parseTimestamp (Some (JStr s))
    | Some (JNum n) =>
        timestamp e' = parseTimestamp (Some (JStr (number_toString n)))
    | _ => timestamp e' = timestamp e
    end.
Proof.
  unfold applyExtracted. intros Hb P. do 5 bind_inv Hb.
  inversion Hb; subst e'. cbn [timestamp]. clear Hb.
  rewrite P in E. cbn [negb] in E. bind_inv E.
  exists a4. split; [assumption|].
  destruct a4 as [[]|]; cbn [String_ toStr bind] in E; inversion E;
    reflexivity.
Qed.

Lemma applyExtracted_level_eq e x e' :
  applyExtracted e x = Ok e' -> present (level e) = false ->
  exists v lvl, pick (ex_json x) levelKeys = Ok v /\
    coerceLevel v = Ok lvl /\
    level e' = if present lvl then lvl else level e.
Proof.
  unfold applyExtracted. intros Hb P. do 5 bind_inv Hb.
  inversion Hb; subst e'. cbn [level]. clear Hb.
  rewrite P in E0. cbn [negb] in E0. bind_inv E0. bind_inv E0.
  exists a4, a5. split; [assumption|]. split; [assumption|].
  inversion E0. reflexivity.
Qed.

Lemma coerceLevel_string s :
  coerceLevel (Some (JStr s))
  = Ok (if existsb (str_eqb (toUpperCase s)) levels
        then Some (toUpperCase s) else None).
Proof.
  unfold coerceLevel. cbn [truthy_opt truthy].
  destruct s as [|c s]; [reflexivity|]. reflexivity.
Qed.

Lemma existsb_levels l :
  existsb (str_eqb l) levels = true <-> In l levels.
Proof.
  rewrite existsb_exists. split.
  - intros (x & Hin & Hx). apply str_eqb_eq in Hx. subst x. exact Hin.
  - intros Hin. exists l. split; [exact Hin|]. apply str_eqb_eq.
    reflexivity.
Qed.

(** C4, as amended.  The enrichment backfills each of the four fields
    from its own candidate keys and from no other key of the embedded
    object: the timestamp from [timestamp], [@timestamp], [time], [ts];
    the level from [level], [severity], [lvl]; the source from
    [source], [logger], [module], [service]; the thread from [thread],
    [process], [correlationId].  No other key is consulted: two
    embedded objects that agree on the keys of a field give that field
    the same value.  Every key of a list is consulted: a field that
    the entry lacks is filled from the string under a key of its list
    when the keys before it in the list have no value, the source and
    the thread with the string, the timestamp with its date, the level
    with its upper-casing if that is one of the six names and not at
    all otherwise.  The full-line interpreter reads the same keys for
    timestamp, source and thread, and only [level] for the level. *)
Theorem backfill_reads_candidate_keys e x1 x2 r1 r2 :
  applyExtracted e x1 = Ok r1 -> applyExtracted e x2 = Ok r2 ->
  ((agree timestampKeys (ex_json x1) (ex_json x2) ->
    timestamp r1 = timestamp r2) /\
   (agree levelKeys (ex_json x1) (ex_json x2) -> level r1 = level r2) /\
   (agree sourceKeys (ex_json x1) (ex_json x2) -> source r1 = source r2) /\
   (agree threadKeys (ex_json x1) (ex_json x2) -> thread r1 = thread r2)) /\
  (forall line n q1 q2,
     jsonEntry (ex_json x1) line n = Ok q1 ->
     jsonEntry (ex_json x2) line n = Ok q2 ->
     (agree timestampKeys (ex_json x1) (ex_json x2) ->
      timestamp q1 = timestamp q2) /\
     (agree ["level"%string] (ex_json x1) (ex_json x2) ->
      level q1 = level q2) /\
     (agree sourceKeys (ex_json x1) (ex_json x2) -> source q1 = source q2) /\
     (agree threadKeys (ex_json x1) (ex_json x2) -> thread q1 = thread q2)) /\
  (forall m pre k post s,
     ex_json x1 = JObj m -> Forall (unset m) pre ->
     assoc (lit k) m = Some (JStr s) ->
     (timestampKeys = pre ++ k :: post -> isSome (timestamp e) = false ->
      timestamp r1 = parseTimestamp (Some (JStr s))) /\
     (levelKeys = pre ++ k :: post -> present (level e) = false ->
      (In (toUpperCase s) levels -> level r1 = Some (toUpperCase s)) /\
      (~ In (toUpperCase s) levels -> level r1 = level e)) /\
     (sourceKeys = pre ++ k :: post -> present (source e) = false ->
      source r1 = Some s) /\
     (threadKeys = pre ++ k :: post -> present (thread e) = false ->
      thread r1 = Some s)) /\
  (forall m pre k post s line n q1,
     ex_json x1 = JObj m -> jsonEntry (JObj m) line n = Ok q1 ->
     Forall (unset m) pre -> assoc (lit k) m = Some (JStr s) -> s <> [] ->
     (timestampKeys = pre ++ k :: post ->
      timestamp q1 = parseTimestamp (Some (JStr s))) /\
     (k = "level"%string -> level q1 = Some (toUpperCase s)) /\
     (sourceKeys = pre ++ k :: post -> source q1 = Some s) /\
     (threadKeys = pre ++ k :: post -> thread q1 = Some s)).
Proof.
  intros H1 H2. split; [|split; [|split]].
  - unfold applyExtracted in H1, H2.
    do 5 bind_inv H1. do 5 bind_inv H2.
    inversion H1; subst r1. inversion H2; subst r2. simpl.
    clear H1 H2. repeat split; intros Ha; apply pick_agree in Ha.
    + unfold timestampKeys in Ha. rewrite Ha in E. congruence.
    + unfold levelKeys in Ha. rewrite Ha in E0. congruence.
    + unfold sourceKeys in Ha. rewrite Ha in E1. congruence.
    + unfold threadKeys in Ha. rewrite Ha in E2. congruence.
  - clear H1 H2. intros line n q1 q2 H1 H2.
    unfold jsonEntry in H1, H2.
    do 5 bind_inv H1. do 5 bind_inv H2.
    inversion H1; subst q1. inversion H2; subst q2. simpl.
    clear H1 H2. repeat split; intros Ha.
    + rewrite (Ha "timestamp"%string), (Ha "@timestamp"%string),
        (Ha "time"%string), (Ha "ts"%string) in E
        by (unfold timestampKeys; simpl; tauto).
      rewrite E in E4. inversion E4. reflexivity.
    + unfold levelOf in E1, E6.
      rewrite (Ha "level"%string) in E1 by (simpl; tauto).
      rewrite E1 in E6. inversion E6. reflexivity.
    + rewrite (Ha "source"%string), (Ha "logger"%string),
        (Ha "module"%string), (Ha "service"%string) in E2
        by (unfold sourceKeys; simpl; tauto).
      rewrite E2 in E7. inversion E7. reflexivity.
    + rewrite (Ha "thread"%string), (Ha "process"%string),
        (Ha "correlationId"%string) in E3
        by (unfold threadKeys; simpl; tauto).
      rewrite E3 in E8. inversion E8. reflexivity.
  - clear H2. intros m pre k post s Hj Hpre Hk.
    assert (Hpick : forall keys, keys = pre ++ k :: post ->
              pick (ex_json x1) keys = Ok (Some (JStr s))).
    { intros keys ->. rewrite Hj. apply pick_first; [assumption..|].
      discriminate. }
    split; [|split; [|split]].
    + intros Hkeys P.
      destruct (applyExtracted_timestamp _ _ _ H1 P) as (v & Hv & Ht).
      rewrite (Hpick _ Hkeys) in Hv. inversion Hv; subst v. exact Ht.
    + intros Hkeys P.
      destruct (applyExtracted_level_eq _ _ _ H1 P) as (v & lvl & Hv & Hc & Hl).
      rewrite (Hpick _ Hkeys) in Hv. inversion Hv; subst v.
      rewrite coerceLevel_string in Hc.
      destruct (existsb (str_eqb (toUpperCase s)) levels) eqn:Ex;
        inversion Hc; subst lvl; clear Hc.
      * split; [intros _|intros Hn; exfalso; apply Hn, existsb_levels, Ex].
        rewrite Hl. destruct (toUpperCase s) eqn:Eu; [|reflexivity].
        cbn in Ex. discriminate Ex.
      * split; [|intros _; exact Hl].
        intros Hin. apply existsb_levels in Hin. congruence.
    + intros Hkeys P.
      destruct (proj1 (applyExtracted_source _ _ _ H1) P) as (v & Hv & Hs).
      rewrite (Hpick _ Hkeys) in Hv. inversion Hv; subst v. exact Hs.
    + intros Hkeys P.
      destruct (proj2 (applyExtracted_source _ _ _ H1) P) as (v & Hv & Hs).
      rewrite (Hpick _ Hkeys) in Hv. inversion Hv; subst v. exact Hs.
  - clear H1 H2. intros m pre k post s line n q1 Hj Hq Hpre Hk Hs.
    assert (Ht : truthy (JStr s) = true)
      by (destruct s; [congruence|reflexivity]).
    assert (Hor : forall keys, keys = pre ++ k :: post ->
              orChain (JObj m) keys = Ok (Some (JStr s))).
    { intros keys ->. apply orChain_first; assumption. }
    destruct (jsonEntry_timestamp _ _ _ _ Hq) as [(vt & Hvt & Et) Hlev].
    destruct (jsonEntry_source _ _ _ _ Hq) as [(vs & Hvs & Es) (vh & Hvh & Eh)].
    split; [|split; [|split]].
    + intros Hkeys. rewrite (Hor _ Hkeys) in Hvt. inversion Hvt; subst vt.
      rewrite Et. cbn [truthy_opt]. rewrite Ht. reflexivity.
    + intros ->. unfold levelOf in Hlev. cbn [get bind] in Hlev.
      rewrite Hk in Hlev. inversion Hlev. reflexivity.
    + intros Hkeys. rewrite (Hor _ Hkeys) in Hvs. inversion Hvs; subst vs.
      exact Es.
    + intros Hkeys. rewrite (Hor _ Hkeys) in Hvh. inversion Hvh; subst vh.
      exact Eh.
Qed.

End BackfillFacts.

(** The witness of C4. *)
Lemma backfill_reads_candidate_keys_witness :
  applyExtracted bareEntry (Extraction_ (hostObject "alpha") 0 0)
    = Ok (backfilled (hostObject "alpha")) /\
  applyExtracted bareEntry (Extraction_ (hostObject "beta") 0 0)
    = Ok (backfilled (hostObject "beta")) /\
  agree levelKeys (hostObject "alpha") (hostObject "beta") /\
  level (backfilled (hostObject "alpha"))
    = level (backfilled (hostObject "beta")) /\
  levelKeys = ["level"; "severity"]%string ++ "lvl"%string :: [] /\
  level (backfilled (hostObject "alpha")) = Some (lit "WARN").
Proof.
  assert (H1 : applyExtracted bareEntry (Extraction_ (hostObject "alpha") 0 0)
               = Ok (backfilled (hostObject "alpha")))
    by (unfold backfilled; apply orElse_Ok; vm_compute; reflexivity).
  assert (H2 : applyExtracted bareEntry (Extraction_ (hostObject "beta") 0 0)
               = Ok (backfilled (hostObject "beta")))
    by (unfold backfilled; apply orElse_Ok; vm_compute; reflexivity).
  assert (Ha : agree levelKeys (hostObject "alpha") (hostObject "beta")).
  { intros k Hk. simpl in Hk.
    repeat (destruct Hk as [<-|Hk]; [reflexivity|]). destruct Hk. }
  assert (Hkeys : levelKeys = ["level"; "severity"]%string
                              ++ "lvl"%string :: []) by reflexivity.
  pose proof (@backfill_reads_candidate_keys RefHost bareEntry _ _ _ _ H1 H2)
    as (HA & _ & HC & _).
  split; [exact H1|]. split; [exact H2|]. split; [exact Ha|].
  split; [exact (proj1 (proj2 HA) Ha)|]. split; [exact Hkeys|].
  refine (proj1 (proj1 (proj2 (HC _ ["level"; "severity"]%string "lvl"%string
                                  [] (lit "warn") eq_refl _ eq_refl))
                   Hkeys eq_refl) _).
  - constructor; [left; reflexivity|].
    constructor; [left; reflexivity|constructor].
  - cbn. tauto.
Defined.

(* ================================================================== *)
(** * The timestamp of an object, alone and embedded *)

Section TimestampFacts.

Context {H : Host}.

(** When no candidate is there and falsy, the first truthy candidate
    is the first candidate that is neither absent nor [null]; without
    such a candidate the chain of [||] ends on a falsy value and
    [pick] on [undefined]. *)
Lemma orChain_pick_value j keys :
  noFalsyCandidate j keys ->
  forall v v', orChain j keys = Ok v -> pick j keys = Ok v' ->
    (truthy_opt v = true /\ v' = v) \/ (truthy_opt v = false /\ v' = None).
Proof.
  induction keys as [|k keys IH]; intros Hno v v'.
  - cbn [orChain pick]. intros E E'. inversion E. inversion E'.
    right. split; reflexivity.
  - assert (Hno' : noFalsyCandidate j keys).
    { intros k0 v0 Hin. apply Hno. right. exact Hin. }
    assert (Hk : forall v0, get j k = Ok (Some v0) ->
                 v0 = JNull \/ truthy v0 = true).
    { intros v0. apply Hno. left. reflexivity. }
    cbn [pick]. destruct keys as [|k2 keys].
    + cbn [orChain pick]. intros E. rewrite E. cbn [bind].
      destruct v as [x|].
      * destruct (Hk x E) as [->|Tx].
        -- intros E'. inversion E'. right. split; reflexivity.
        -- intros E'. left. split; [exact Tx|].
           destruct x; inversion E'; try reflexivity. discriminate Tx.
      * intros E'. inversion E'. right. split; reflexivity.
    + change (orChain j (k :: k2 :: keys))
        with (or_ (get j k) (orChain j (k2 :: keys))).
      unfold or_. destruct (get j k) as [v0|] eqn:Eg; [|discriminate].
      cbn [bind]. destruct (truthy_opt v0) eqn:T.
      * intros E. inversion E; subst v0. clear E.
        destruct v as [x|]; [|discriminate].
        intros E'. left. split; [exact T|].
        destruct x; inversion E'; try reflexivity. discriminate T.
      * intros E E'. apply (IH Hno' v v' E).
        destruct v0 as [x|]; [|exact E'].
        destruct (Hk x eq_refl) as [->|Tx]; [exact E'|].
        cbn [truthy_opt] in T. congruence.
Qed.

(** X22.  The timestamp that an embedded object gives to a record
    without one, against the timestamp of the object alone on a line,
    when none of the candidate keys [timestamp], [@timestamp], [time],
    [ts] holds a falsy value other than [null].  Both paths then read
    the same value, the first candidate that is neither absent nor
    [null], and what they make of it goes by its kind.  Without such a
    value neither path gives a timestamp.  A string is read by
    [parseTimestamp] on both paths, which give the same timestamp.  Of
    a number the full-line path reads the number and the enrichment
    its decimal text.  The value [true] gives the first millisecond of
    1970 on the full-line path and nothing in the enrichment; an array
    or an object is read by the full-line path and gives nothing in
    the enrichment. *)
Theorem timestamp_choice j line n q e x e' :
  jsonEntry j line n = Ok q -> ex_json x = j ->
  applyExtracted e x = Ok e' ->
  isSome (timestamp e) = false -> noFalsyCandidate j timestampKeys ->
  exists v, pick j timestampKeys = Ok v /\
    match v with
    | None => timestamp q = None /\ timestamp e' = None
    | Some JNull => False
    | Some (JStr s) =>
        timestamp q = parseTimestamp (Some (JStr s)) /\
        timestamp e' = timestamp q
    | Some (JNum m) =>
        timestamp q = parseTimestamp (Some (JNum m)) /\
        timestamp e' = parseTimestamp (Some (JStr (number_toString m)))
    | Some (JBool b) =>
        b = true /\ timestamp q = Some 1%Z /\ timestamp e' = None
    | Some w =>
        timestamp q = parseTimestamp (Some w) /\ timestamp e' = None
    end.
Proof.
  intros Hq Hx Ha P Hno. subst j.
  destruct (jsonEntry_timestamp _ _ _ _ Hq) as [(v0 & Hv0 & Et) _].
  destruct (applyExtracted_timestamp _ _ _ Ha P) as (v & Hv & Hm).
  assert (Hnone : timestamp e = None)
    by (destruct (timestamp e); [discriminate P|reflexivity]).
  exists v. split; [exact Hv|].
  destruct (orChain_pick_value _ _ Hno _ _ Hv0 Hv) as [[T ->]|[T ->]].
  - rewrite T in Et.
    destruct v0 as [[|b|m|s|l|o]|]; cbn [truthy_opt truthy] in T.
    + discriminate T.
    + subst b. split; [reflexivity|]. split; [exact Et|].
      rewrite Hm. exact Hnone.
    + split; [exact Et|exact Hm].
    + split; [exact Et|]. rewrite Hm, Et. reflexivity.
    + split; [exact Et|]. rewrite Hm. exact Hnone.
    + split; [exact Et|]. rewrite Hm. exact Hnone.
    + discriminate T.
  - rewrite T in Et. split; [exact Et|]. rewrite Hm. exact Hnone.
Qed.

End TimestampFacts.

(** The witness of X22. *)
Lemma timestamp_choice_witness :
  jsonEntry timeObject (lit "x") 1 = Ok timeAlone /\
  applyExtracted bareEntry (Extraction_ timeObject 0 0)
    = Ok (backfilled timeObject) /\
  isSome (timestamp bareEntry) = false /\
  noFalsyCandidate timeObject timestampKeys /\
  timestamp (backfilled timeObject) = timestamp timeAlone.
Proof.
  assert (Hq : jsonEntry timeObject (lit "x") 1 = Ok timeAlone)
    by (unfold timeAlone; apply orElse_Ok; vm_compute; reflexivity).
  assert (Ha : applyExtracted bareEntry (Extraction_ timeObject 0 0)
               = Ok (backfilled timeObject))
    by (unfold backfilled; apply orElse_Ok; vm_compute; reflexivity).
  assert (P : isSome (timestamp bareEntry) = false) by reflexivity.
  assert (Hno : noFalsyCandidate timeObject timestampKeys).
  { intros k v Hk Hg. right. unfold timestampKeys in Hk. simpl in Hk.
    unfold timeObject in Hg. cbn [get] in Hg.
    repeat (destruct Hk as [<-|Hk];
            [cbn in Hg; inversion Hg; reflexivity|]).
    destruct Hk. }
  split; [exact Hq|]. split; [exact Ha|]. split; [exact P|].
  split; [exact Hno|].
  destruct (@timestamp_choice RefHost timeObject (lit "x") 1 timeAlone
              bareEntry (Extraction_ timeObject 0 0) (backfilled timeObject)
              Hq eq_refl Ha P Hno) as (v & Hv & Hm).
  assert (Hp : pick timeObject timestampKeys
               = Ok (Some (JStr (lit "2024-01-15T10:30:45Z"))))
    by reflexivity.
  rewrite Hp in Hv. inversion Hv; subst v. exact (proj2 Hm).
Defined.
